(** * RBC CSV exporter: extraction, normalisation and CSV serialisation

    A shallow embedding of the field normalisers and classifiers
    ([js/utils.js]), the row parser ([parseRBCTransactionRow]), the PDF
    processor, the show-more load loops of the extraction orchestrator
    ([js/transactionExtractor.js]) and the two CSV serialisers
    ([js/csvExporter.js], [popup.js]), followed by the properties the
    specification states about them.

    Conventions.  A JavaScript string is a [string] whose characters are
    code units below 256.  [undefined]/[null] is [None] or [VUndef].  A
    function that may throw returns an [option].  The DOM enters only
    through the answers of the selector queries a function makes, and a
    page under load through a record of the four things the load loops do
    with it.  Logging and the calls on the UI manager change nothing of
    what is computed and are left out.  The rendering of a number with two
    decimals ([toFixed]) is floating-point arithmetic of the engine: it is
    a parameter, [toFixed2].  A number held in a record is a whole number,
    given as a [Z] and standing for the Number nearest to it. *)

From Stdlib Require Import String Ascii List Bool Arith Lia ZArith.
From Stdlib Require Import DecimalString Permutation Sorted.
Import ListNotations.
Set Warnings "-register-all".
Open Scope string_scope.
Open Scope nat_scope.

(* ================================================================== *)
(** * Part I: definitions *)
(* ================================================================== *)

(** ** JavaScript string primitives *)

Module Js.

Definition code (a : ascii) : nat := nat_of_ascii a.

(** [WhiteSpace] and [LineTerminator] code units below 256: TAB, LF, VT,
    FF, CR, SP and NBSP.  They are what [trim] strips and what [\s]
    matches. *)
Definition is_ws (a : ascii) : bool :=
  let n := code a in
  ((9 <=? n) && (n <=? 13)) || (n =? 32) || (n =? 160).

Definition is_digit (a : ascii) : bool :=
  let n := code a in (48 <=? n) && (n <=? 57).

(** [\w]: ASCII letters, digits and underscore. *)
Definition is_word (a : ascii) : bool :=
  let n := code a in
  ((48 <=? n) && (n <=? 57)) || ((65 <=? n) && (n <=? 90))
  || ((97 <=? n) && (n <=? 122)) || (n =? 95).

(** Line terminators below 256: LF and CR (what [.] refuses). *)
Definition is_line_terminator (a : ascii) : bool :=
  let n := code a in (n =? 10) || (n =? 13).

Definition lower_char (a : ascii) : ascii :=
  let n := code a in
  if ((65 <=? n) && (n <=? 90))
     || ((192 <=? n) && (n <=? 214)) || ((216 <=? n) && (n <=? 222))
  then ascii_of_nat (n + 32) else a.

(** [Canonicalize] of the regular-expression semantics under the [i]
    flag, restricted to code units below 256 (181 and 255 have upper-case
    forms above 255 and 223 a two-letter one: each stays alone in its
    class). *)
Definition canon_char (a : ascii) : ascii :=
  let n := code a in
  if ((97 <=? n) && (n <=? 122))
     || ((224 <=? n) && (n <=? 246)) || ((248 <=? n) && (n <=? 254))
  then ascii_of_nat (n - 32) else a.

Fixpoint toLowerCase (s : string) : string :=
  match s with
  | EmptyString => EmptyString
  | String a t => String (lower_char a) (toLowerCase t)
  end.

Fixpoint trimStart (s : string) : string :=
  match s with
  | EmptyString => EmptyString
  | String a t => if is_ws a then trimStart t else s
  end.

(** [trimEnd]: a character is dropped when it is white space and
    everything after it was dropped too. *)
Fixpoint trimEnd (s : string) : string :=
  match s with
  | EmptyString => EmptyString
  | String a t =>
      match trimEnd t with
      | EmptyString => if is_ws a then EmptyString else String a EmptyString
      | t' => String a t'
      end
  end.

Definition trim (s : string) : string := trimEnd (trimStart s).

Definition startsWith (p s : string) : bool := String.prefix p s.

Fixpoint includes (sub s : string) : bool :=
  String.prefix sub s
  || match s with
     | EmptyString => false
     | String _ t => includes sub t
     end.

Definition has_char (c : ascii) (s : string) : bool :=
  includes (String c EmptyString) s.

(** [s.replace(/c/g, by)] for a one-character pattern. *)
Fixpoint replace_char (c : ascii) (by_ : string) (s : string) : string :=
  match s with
  | EmptyString => EmptyString
  | String a t =>
      if Ascii.eqb a c then by_ ++ replace_char c by_ t
      else String a (replace_char c by_ t)
  end.

(** [s.replace(/[...]/g, '')] for a character class. *)
Fixpoint remove_chars (p : ascii -> bool) (s : string) : string :=
  match s with
  | EmptyString => EmptyString
  | String a t => if p a then remove_chars p t else String a (remove_chars p t)
  end.

Fixpoint repeat_char (c : ascii) (n : nat) : string :=
  match n with
  | 0 => EmptyString
  | S n' => String c (repeat_char c n')
  end.

(** [s.padStart(n, c)] for a one-character filler. *)
Definition padStart (n : nat) (c : ascii) (s : string) : string :=
  repeat_char c (n - String.length s) ++ s.

Definition drop (n : nat) (s : string) : string :=
  substring n (String.length s - n) s.

(** [s.split(sep)] for a non-empty literal separator; [fuel] bounds the
    number of characters scanned and [String.length s] always suffices. *)
Fixpoint split_aux (sep : string) (cur : string) (s : string) (fuel : nat)
  : list string :=
  match fuel with
  | 0 => [cur ++ s]
  | S fuel' =>
      match s with
      | EmptyString => [cur]
      | String a t =>
          if String.prefix sep s
          then cur :: split_aux sep EmptyString
                        (drop (String.length sep) s) fuel'
          else split_aux sep (cur ++ String a EmptyString) t fuel'
      end
  end.

Definition split (sep s : string) : list string :=
  split_aux sep EmptyString s (S (String.length s)).

End Js.

(** ** A backtracking matcher for the regular expressions of the source

    The patterns of the source quantify single characters and character
    classes only, so [Rep] takes a class.  Alternatives are tried left to
    right, a greedy quantifier tries the longer match first and a lazy one
    the shorter, as ECMAScript prescribes. *)

Module Regex.

Inductive cclass : Type :=
| CDigit                   (* \d *)
| CSpace                   (* \s *)
| CAny                     (* .  *)
| CChar (c : ascii)        (* a literal character *)
| CSet (l : list cclass).  (* [...] *)

Fixpoint cmatch (ic : bool) (cl : cclass) (a : ascii) : bool :=
  match cl with
  | CDigit => Js.is_digit a
  | CSpace => Js.is_ws a
  | CAny => negb (Js.is_line_terminator a)
  | CChar c =>
      if ic then Ascii.eqb (Js.canon_char c) (Js.canon_char a)
      else Ascii.eqb c a
  | CSet l => existsb (fun c => cmatch ic c a) l
  end.

Inductive regex : Type :=
| Eps
| Lit (s : string)
| Cls (c : cclass)
| Rep (c : cclass) (lo : nat) (hi : option nat) (greedy : bool)
| Seq (r1 r2 : regex)
| Alt (r1 r2 : regex)
| Grp (i : nat) (r : regex)
| Bol                      (* ^ *)
| Eol                      (* $ *)
| WordB.                   (* \b *)

Fixpoint cat (l : list regex) : regex :=
  match l with
  | [] => Eps
  | [r] => r
  | r :: l' => Seq r (cat l')
  end.

Fixpoint alts (l : list regex) : regex :=
  match l with
  | [] => Eps
  | [r] => r
  | r :: l' => Alt r (alts l')
  end.

(** The matcher's position: the character before it, if any, and the
    input still ahead. *)
Record mstate : Type := MState { prev : option ascii; rest : string }.

Definition captures : Type := nat -> option string.

Definition no_captures : captures := fun _ => None.

Definition set_capture (i : nat) (v : string) (c : captures) : captures :=
  fun j => if Nat.eqb j i then Some v else c j.

(** The text between two positions of one scan. *)
Definition consumed (from to : mstate) : string :=
  substring 0 (String.length (rest from) - String.length (rest to))
            (rest from).

Fixpoint eat_lit (ic : bool) (l : string) (st : mstate) : option mstate :=
  match l with
  | EmptyString => Some st
  | String c l' =>
      match rest st with
      | String a t =>
          if cmatch ic (CChar c) a then eat_lit ic l' (MState (Some a) t)
          else None
      | EmptyString => None
      end
  end.

Definition under (hi : option nat) (n : nat) : bool :=
  match hi with
  | None => true
  | Some m => n <? m
  end.

Definition word_before (st : mstate) : bool :=
  match prev st with Some a => Js.is_word a | None => false end.

Definition word_after (st : mstate) : bool :=
  match rest st with String a _ => Js.is_word a | EmptyString => false end.

Section Run.
Context {A : Type}.
Variable ic : bool.

(** [n] repetitions of the class have been taken so far. *)
Fixpoint rep (cl : cclass) (lo : nat) (hi : option nat) (greedy : bool)
         (n : nat) (p : option ascii) (s : string) (c : captures)
         (k : mstate -> captures -> option A) {struct s} : option A :=
  let stop (_ : unit) :=
    if lo <=? n then k (MState p s) c else None in
  let more (_ : unit) :=
    match s with
    | String a t =>
        if under hi n && cmatch ic cl a
        then rep cl lo hi greedy (S n) (Some a) t c k
        else None
    | EmptyString => None
    end in
  if greedy
  then match more tt with Some x => Some x | None => stop tt end
  else match stop tt with Some x => Some x | None => more tt end.

Fixpoint run (r : regex) (st : mstate) (c : captures)
         (k : mstate -> captures -> option A) {struct r} : option A :=
  match r with
  | Eps => k st c
  | Lit l =>
      match eat_lit ic l st with
      | Some st' => k st' c
      | None => None
      end
  | Cls cl =>
      match rest st with
      | String a t =>
          if cmatch ic cl a then k (MState (Some a) t) c else None
      | EmptyString => None
      end
  | Rep cl lo hi g => rep cl lo hi g 0 (prev st) (rest st) c k
  | Seq r1 r2 => run r1 st c (fun st' c' => run r2 st' c' k)
  | Alt r1 r2 =>
      match run r1 st c k with
      | Some x => Some x
      | None => run r2 st c k
      end
  | Grp i r' =>
      run r' st c (fun st' c' => k st' (set_capture i (consumed st st') c'))
  | Bol => match prev st with None => k st c | Some _ => None end
  | Eol => match rest st with EmptyString => k st c | _ => None end
  | WordB =>
      if xorb (word_before st) (word_after st) then k st c else None
  end.
End Run.

(** The result of [String.prototype.match] without the [g] flag: the
    matched text, the capture groups, and the input before and after the
    match. *)
Record result : Type :=
  Result { before : string; whole : string; after : string;
           group : captures }.

Definition match_at (ic : bool) (r : regex) (skipped : string) (st : mstate)
  : option result :=
  run ic r st no_captures
      (fun st' c => Some (Result skipped (consumed st st') (rest st') c)).

(** Leftmost match: every start position is tried in turn, the end of the
    input included. *)
Fixpoint exec_from (ic : bool) (r : regex) (skipped : string)
         (p : option ascii) (s : string) : option result :=
  match match_at ic r skipped (MState p s) with
  | Some res => Some res
  | None =>
      match s with
      | String a t =>
          exec_from ic r (skipped ++ String a EmptyString) (Some a) t
      | EmptyString => None
      end
  end.

(** A pattern with its [i] flag. *)
Record pattern : Type := Pattern { ignore_case : bool; body : regex }.

Definition exec (p : pattern) (s : string) : option result :=
  exec_from (ignore_case p) (body p) EmptyString None s.

Definition test (p : pattern) (s : string) : bool :=
  match exec p s with Some _ => true | None => false end.

Definition last_char (s : string) : option ascii :=
  match String.length s with
  | 0 => None
  | S n => String.get n s
  end.

(** [s.split(p)] for a pattern without groups that matches no empty text
    (both patterns the source splits by are of that kind).  Every match
    shortens the input, so [String.length s] is fuel enough. *)
Fixpoint split_from (p : pattern) (pr : option ascii) (s : string)
         (fuel : nat) : list string :=
  match fuel with
  | 0 => [s]
  | S fuel' =>
      match exec_from (ignore_case p) (body p) EmptyString pr s with
      | Some res =>
          before res
            :: split_from p (last_char (whole res)) (after res) fuel'
      | None => [s]
      end
  end.

Definition split (p : pattern) (s : string) : list string :=
  split_from p None s (String.length s).

(** [m[i]] for a group that took part in the match; a missing group reads
    as the empty text. *)
Definition grp (res : result) (i : nat) : string :=
  match group res i with Some v => v | None => EmptyString end.

(** Shorthands for the quantifiers of the source. *)
Definition between (cl : cclass) (lo hi : nat) : regex :=
  Rep cl lo (Some hi) true.
Definition exactly (cl : cclass) (n : nat) : regex := Rep cl n (Some n) true.
Definition plus (cl : cclass) : regex := Rep cl 1 None true.
Definition plus_lazy (cl : cclass) : regex := Rep cl 1 None false.
Definition opt (cl : cclass) : regex := Rep cl 0 (Some 1) true.
Definition chr (s : string) : cclass :=
  match s with String a _ => CChar a | EmptyString => CSet [] end.

End Regex.

(** ** Whole numbers as texts ([Number::toString])

    A Number is a double: a whole number is one exactly up to [2^53], and
    beyond it only when it is a multiple of the spacing of the doubles
    around it.  Its text is the shortest decimal that reads back as the
    same Number, written out in full below [10^21] and with an exponent
    from there on. *)

Module JsNumber.
Open Scope Z_scope.

Definition decimal (z : Z) : string := NilZero.string_of_int (Z.to_int z).

(** The Number value for a non-negative integer, ties going to the even
    significand. *)
Definition nearest (a : Z) : Z :=
  if a <? 2 ^ 53 then a
  else
    let e := Z.log2 a - 52 in
    let q := a / 2 ^ e in
    let r := a mod 2 ^ e in
    let half := 2 ^ (e - 1) in
    let q' := if r <? half then q
              else if half <? r then q + 1
              else if Z.even q then q else q + 1 in
    q' * 2 ^ e.

(** The number of decimal digits of a positive integer. *)
Definition digits (a : Z) : Z := Z.of_nat (String.length (decimal a)).

(** The multiple of [10^p] that reads back as the Number [x], when there
    is one: the closer of the two around [x]. *)
Definition rounded (x p : Z) : option Z :=
  let lo := x / 10 ^ p * 10 ^ p in
  let hi := lo + 10 ^ p in
  match nearest lo =? x, nearest hi =? x with
  | true, true =>
      if x - lo <? hi - x then Some lo
      else if hi - x <? x - lo then Some hi
      else if Z.even (lo / 10 ^ p) then Some lo else Some hi
  | true, false => Some lo
  | false, true => Some hi
  | false, false => None
  end.

(** The decimal with the fewest significant digits that reads back as
    [x]; [k] is the number of zeros tried at its end. *)
Fixpoint shortest (x : Z) (k : nat) : Z :=
  match k with
  | O => x
  | S k' =>
      match rounded x (Z.of_nat k) with
      | Some c => c
      | None => shortest x k'
      end
  end.

Fixpoint strip_zeros_end (s : string) : string :=
  match s with
  | EmptyString => EmptyString
  | String a t =>
      match strip_zeros_end t with
      | EmptyString => if Ascii.eqb a "0" then EmptyString
                       else String a EmptyString
      | t' => String a t'
      end
  end.

(** The text of a positive whole Number. *)
Definition render (x : Z) : string :=
  let c := shortest x (Z.to_nat (digits x)) in
  let n := digits c in
  if n <=? 21 then decimal c
  else
    match strip_zeros_end (decimal c) with
    | String d EmptyString => String d ("e+" ++ decimal (n - 1))
    | String d ds => String d ("." ++ ds ++ "e+" ++ decimal (n - 1))
    | EmptyString => EmptyString
    end.

(** [String(z)] for the Number nearest to the integer [z]. *)
Definition toString (z : Z) : string :=
  if z =? 0 then "0"
  else
    let x := nearest (Z.abs z) in
    let body := if 2 ^ 1024 <=? x then "Infinity" else render x in
    if z <? 0 then "-" ++ body else body.

End JsNumber.

(** ** JavaScript values held in, and returned for, transaction objects *)

Module Value.

Inductive jsval : Type :=
| VUndef
| VBool (b : bool)
| VNum (z : Z)
| VStr (s : string).

Definition truthy (v : jsval) : bool :=
  match v with
  | VUndef => false
  | VBool b => b
  | VNum z => negb (Z.eqb z 0)
  | VStr s => negb (String.eqb s "")
  end.

(** [String(v)]. *)
Definition to_string (v : jsval) : string :=
  match v with
  | VUndef => "undefined"
  | VBool true => "true"
  | VBool false => "false"
  | VNum z => JsNumber.toString z
  | VStr s => s
  end.

(** A transaction object: its own properties in insertion order, each
    key at most once. *)
Definition record : Type := list (string * jsval).

Fixpoint get (k : string) (r : record) : jsval :=
  match r with
  | [] => VUndef
  | (k', v) :: r' => if String.eqb k' k then v else get k r'
  end.

(** The array index a key reads as: the key is the decimal text, with no
    zero in front, of a number from 0 to [2^32 - 2]. *)
Definition arrayIndex (k : string) : option N :=
  match NilEmpty.uint_of_string k with
  | Some u =>
      let n := N.of_uint u in
      if String.eqb (NilZero.string_of_uint (N.to_uint n)) k
         && (n <=? 4294967294)%N
      then Some n else None
  | None => None
  end.

Definition isIndex (k : string) : bool :=
  match arrayIndex k with
  | Some _ => true
  | None => false
  end.

Fixpoint insertIndex (n : N) (k : string) (l : list (N * string))
  : list (N * string) :=
  match l with
  | [] => [(n, k)]
  | (m, k') :: l' =>
      if (n <? m)%N then (n, k) :: l else (m, k') :: insertIndex n k l'
  end.

(** The keys that are array indices, in ascending order. *)
Fixpoint indexKeys (ks : list string) : list (N * string) :=
  match ks with
  | [] => []
  | k :: ks' =>
      match arrayIndex k with
      | Some n => insertIndex n k (indexKeys ks')
      | None => indexKeys ks'
      end
  end.

(** [Object.keys(r)]: the array indices in ascending order, then the
    other keys in insertion order. *)
Definition keys (r : record) : list string :=
  (map snd (indexKeys (map fst r))
   ++ filter (fun k => negb (isIndex k)) (map fst r))%list.

(** [a || b] on values. *)
Definition or_else (a b : jsval) : jsval := if truthy a then a else b.

End Value.

(** ** Field normalisers, classifiers and the validator ([js/utils.js]) *)

Module Utils.
Import Regex Value.

Definition monthNames : list (string * string) :=
  [ ("jan", "01"); ("feb", "02"); ("mar", "03"); ("apr", "04");
    ("may", "05"); ("jun", "06"); ("jul", "07"); ("aug", "08");
    ("sep", "09"); ("oct", "10"); ("nov", "11"); ("dec", "12");
    ("january", "01"); ("february", "02"); ("march", "03"); ("april", "04");
    ("june", "06"); ("july", "07"); ("august", "08");
    ("september", "09"); ("october", "10"); ("november", "11");
    ("december", "12") ].

Fixpoint lookup (k : string) (l : list (string * string)) : option string :=
  match l with
  | [] => None
  | (k', v) :: l' => if String.eqb k' k then Some v else lookup k l'
  end.

(** How a template literal renders a table entry. *)
Definition render (o : option string) : string :=
  match o with Some v => v | None => "undefined" end.

(** (Jan|Feb|...|Dec|January|...|December), in the order of the source. *)
Definition month : regex :=
  alts (map Lit
    [ "Jan"; "Feb"; "Mar"; "Apr"; "May"; "Jun"; "Jul"; "Aug"; "Sep"; "Oct";
      "Nov"; "Dec"; "January"; "February"; "March"; "April"; "May"; "June";
      "July"; "August"; "September"; "October"; "November"; "December" ]).

Definition slash : regex := Cls (chr "/").
Definition dash : regex := Cls (chr "-").

(** /^(Jan|...)\s+(\d{1,2}),?\s+(\d{4})$/i *)
Definition monthNamePattern : pattern :=
  Pattern true
    (cat [ Bol; Grp 1 month; plus CSpace; Grp 2 (between CDigit 1 2);
           opt (chr ","); plus CSpace; Grp 3 (exactly CDigit 4); Eol ]).

(** /^(\d{1,2})\/(\d{1,2})\/(\d{4})$/ *)
Definition mmddyyyyPattern : pattern :=
  Pattern false
    (cat [ Bol; Grp 1 (between CDigit 1 2); slash;
           Grp 2 (between CDigit 1 2); slash; Grp 3 (exactly CDigit 4);
           Eol ]).

(** /^(\d{1,2})-(\d{1,2})-(\d{4})$/ *)
Definition mmddyyyyDashPattern : pattern :=
  Pattern false
    (cat [ Bol; Grp 1 (between CDigit 1 2); dash;
           Grp 2 (between CDigit 1 2); dash; Grp 3 (exactly CDigit 4);
           Eol ]).

(** /^(\d{4})-(\d{1,2})-(\d{1,2})$/ *)
Definition yyyymmddPattern : pattern :=
  Pattern false
    (cat [ Bol; Grp 1 (exactly CDigit 4); dash;
           Grp 2 (between CDigit 1 2); dash; Grp 3 (between CDigit 1 2);
           Eol ]).

Definition pad2 (s : string) : string := Js.padStart 2 "0"%char s.

(** The four patterns [normalizeDate] tries, in order; the first takes
    the month-name shape with and without the comma. *)
Definition normalizeDatePatterns : list pattern :=
  [ monthNamePattern; mmddyyyyPattern; mmddyyyyDashPattern;
    yyyymmddPattern ].

Definition normalizeDate (dateStr : string) : string :=
  let trimmedDate := Js.trim dateStr in
  match exec monthNamePattern trimmedDate with
  | Some m =>
      let monthName := grp m 1 in
      let day := grp m 2 in
      let year := grp m 3 in
      let month := render (lookup (Js.toLowerCase monthName) monthNames) in
      pad2 day ++ "/" ++ month ++ "/" ++ year
  | None =>
  match exec mmddyyyyPattern trimmedDate with
  | Some m =>
      let month := grp m 1 in
      let day := grp m 2 in
      let year := grp m 3 in
      pad2 day ++ "/" ++ pad2 month ++ "/" ++ year
  | None =>
  match exec mmddyyyyDashPattern trimmedDate with
  | Some m =>
      let month := grp m 1 in
      let day := grp m 2 in
      let year := grp m 3 in
      pad2 day ++ "/" ++ pad2 month ++ "/" ++ year
  | None =>
  match exec yyyymmddPattern trimmedDate with
  | Some m =>
      let year := grp m 1 in
      let month := grp m 2 in
      let day := grp m 3 in
      pad2 day ++ "/" ++ pad2 month ++ "/" ++ year
  | None => trimmedDate
  end end end end.

(** *** [parseFloat]

    [parseFloat] skips leading white space and reads the longest prefix
    that is a decimal literal: an optional sign, then [Infinity] or digits
    with an optional fraction and an optional exponent.  The result is
    [NaN] exactly when there is no such prefix.  [parseFloat_text] returns
    the prefix read. *)

Fixpoint take_digits (s : string) : string * string :=
  match s with
  | String a t =>
      if Js.is_digit a
      then let (d, r) := take_digits t in (String a d, r)
      else (EmptyString, s)
  | EmptyString => (EmptyString, EmptyString)
  end.

Definition is_sign (a : ascii) : bool :=
  Ascii.eqb a "+"%char || Ascii.eqb a "-"%char.

Definition take_sign (s : string) : string * string :=
  match s with
  | String a t =>
      if is_sign a then (String a EmptyString, t) else (EmptyString, s)
  | EmptyString => (EmptyString, EmptyString)
  end.

(** The exponent part, when one is there: [e] or [E], an optional sign
    and at least one digit. *)
Definition take_exponent (s : string) : string :=
  match s with
  | String a t =>
      if Ascii.eqb a "e"%char || Ascii.eqb a "E"%char
      then let (sg, t1) := take_sign t in
           let (ds, _) := take_digits t1 in
           match ds with
           | EmptyString => EmptyString
           | _ => String a (sg ++ ds)
           end
      else EmptyString
  | EmptyString => EmptyString
  end.

Definition take_mantissa (s : string) : option (string * string) :=
  let (int_part, r1) := take_digits s in
  match r1 with
  | String "."%char r2 =>
      let (frac, r3) := take_digits r2 in
      match int_part, frac with
      | EmptyString, EmptyString => None
      | _, _ => Some (int_part ++ "." ++ frac, r3)
      end
  | _ =>
      match int_part with
      | EmptyString => None
      | _ => Some (int_part, r1)
      end
  end.

Definition parseFloat_text (s : string) : option string :=
  let (sg, body) := take_sign (Js.trimStart s) in
  if String.prefix "Infinity" body then Some (sg ++ "Infinity")
  else match take_mantissa body with
       | Some (m, r) => Some (sg ++ m ++ take_exponent r)
       | None => None
       end.

Definition is_comma_or_dollar (a : ascii) : bool :=
  Ascii.eqb a ","%char || Ascii.eqb a "$"%char.

Section Runtime.
(** [toFixed2 lit] stands for [parseFloat(lit).toFixed(2)]: the
    rendering, with two decimals, of the double nearest to the literal.
    It is floating-point arithmetic of the JavaScript engine and is
    taken as given. *)
Variable toFixed2 : string -> string.

Definition normalizeAmount (amountStr : string) : string :=
  let cleanAmount := Js.remove_chars is_comma_or_dollar amountStr in
  match parseFloat_text cleanAmount with
  | None => amountStr
  | Some num =>
      if Js.startsWith "-" amountStr || Js.includes "(" amountStr
      then toFixed2 num else toFixed2 num
  end.
End Runtime.

(** The five date patterns of [isDate]. *)
Definition datePatterns : list pattern :=
  [ Pattern false
      (cat [ Bol; between CDigit 1 2; slash; between CDigit 1 2; slash;
             between CDigit 2 4; Eol ]);
    Pattern false
      (cat [ Bol; between CDigit 1 2; dash; between CDigit 1 2; dash;
             between CDigit 2 4; Eol ]);
    Pattern false
      (cat [ Bol; exactly CDigit 4; dash; between CDigit 1 2; dash;
             between CDigit 1 2; Eol ]);
    Pattern true
      (cat [ Bol; Grp 1 month; plus CSpace; between CDigit 1 2;
             opt (chr ","); plus CSpace; exactly CDigit 4; Eol ]);
    Pattern true
      (cat [ Bol; Grp 1 month; plus CSpace; between CDigit 1 2;
             plus CSpace; exactly CDigit 4; Eol ]) ].

Definition isDate (text : string) : bool :=
  existsb (fun p => test p (Js.trim text)) datePatterns.

Definition digit_or_comma : cclass := CSet [CDigit; chr ","].
Definition dollar : cclass := chr "$".
Definition two_decimals : list regex := [ Cls (chr "."); exactly CDigit 2 ].

Definition amountRegex (before_digits after_decimals : list regex) : pattern :=
  Pattern false
    (cat ([ Bol ] ++ before_digits ++ [ plus digit_or_comma ]
            ++ two_decimals ++ after_decimals ++ [ Eol ])%list).

(** /^\$?-?[\d,]+\.\d{2}$/ *)
Definition amountPattern1 : pattern :=
  amountRegex [ opt dollar; opt (chr "-") ] [].
(** /^-?\$[\d,]+\.\d{2}$/ *)
Definition amountPattern2 : pattern :=
  amountRegex [ opt (chr "-"); Cls dollar ] [].
(** /^[\d,]+\.\d{2}$/ *)
Definition amountPattern3 : pattern := amountRegex [] [].
(** /^\$[\d,]+\.\d{2}$/ *)
Definition amountPattern4 : pattern := amountRegex [ Cls dollar ] [].
(** /^-[\d,]+\.\d{2}$/ *)
Definition amountPattern5 : pattern := amountRegex [ Cls (chr "-") ] [].
(** /^\([\d,]+\.\d{2}\)$/: a negative amount in parentheses *)
Definition parenAmountPattern : pattern :=
  amountRegex [ Cls (chr "(") ] [ Cls (chr ")") ].
(** /^\$\([\d,]+\.\d{2}\)$/: the same behind a dollar sign *)
Definition dollarParenAmountPattern : pattern :=
  amountRegex [ Cls dollar; Cls (chr "(") ] [ Cls (chr ")") ].

(** The seven amount patterns of [isAmount]. *)
Definition amountPatterns : list pattern :=
  [ amountPattern1; amountPattern2; amountPattern3; amountPattern4;
    amountPattern5; parenAmountPattern; dollarParenAmountPattern ].

Definition isAmount (text : string) : bool :=
  match text with
  | EmptyString => false
  | _ => existsb (fun p => test p (Js.trim text)) amountPatterns
  end.

(** [v && v.trim().length > n]: the value itself when it is falsy, the
    comparison when it is a string, and a [TypeError] ([None]) when it is
    a truthy value without a [trim] method. *)
Definition and_trimmed_longer (v : jsval) (n : nat) : option jsval :=
  if truthy v
  then match v with
       | VStr s => Some (VBool (n <? String.length (Js.trim s)))
       | _ => None
       end
  else Some v.

(** [isValidTransaction]; the argument is [None] for [null]. *)
Definition isValidTransaction (transaction : option record) : option jsval :=
  match transaction with
  | None => Some (VBool false)
  | Some t =>
      match and_trimmed_longer (get "description" t) 2 with
      | None => None
      | Some hasDescription =>
      match and_trimmed_longer (get "amount" t) 0 with
      | None => None
      | Some hasAmount =>
      match and_trimmed_longer (get "date" t) 0 with
      | None => None
      | Some hasDate => Some (or_else hasDescription hasAmount)
      end end end
  end.

End Utils.


(** ** The row parser ([parseRBCTransactionRow] and its helper) *)

Module Parser.
Import Regex Value Utils.

(** What [parseRBCTransactionRow] reads of a table row: the answer of each
    selector query it makes ([None] when nothing matches) with the text
    content of the element found. *)
Record Row : Type := {
  (* row.querySelector('td').getAttribute('headers') *)
  headersAttr : option string;
  (* td.date-column-padding, td[headers*="pda-date"], ... *)
  dateElement : option string;
  (* row.getAttribute('id') *)
  rowId : option string;
  (* row.textContent *)
  rowText : string;
  (* th.rbc-transaction-list-desc, ...: the text of each div inside *)
  descElement : option (list string);
  (* td.rbc-transaction-list-withdraw span *)
  withdrawElement : option string;
  (* td.rbc-transaction-list-deposit span *)
  depositElement : option string;
  (* td.rbc-transaction-list-withdraw span, td[class*="withdraw"] span *)
  withdrawElementAny : option string;
  (* td.rbc-transaction-list-deposit span, td[class*="deposit"] span *)
  depositElementAny : option string;
  (* td.rbc-transaction-list-balance span, td[class*="balance"] span *)
  balanceElement : option string;
  (* row.querySelectorAll('td, th'): the text of each cell *)
  allCells : list string
}.

(** /\s+from\s+/i and /\s+to\s+/i *)
Definition fromPattern : pattern :=
  Pattern true (cat [ plus CSpace; Lit "from"; plus CSpace ]).
Definition toPattern : pattern :=
  Pattern true (cat [ plus CSpace; Lit "to"; plus CSpace ]).

Definition part (i : nat) (parts : list string) : string :=
  nth i parts EmptyString.

(** [parseDescriptionAndVendor]: the pair (description, vendor). *)
Definition parseDescriptionAndVendor (text : string) : string * string :=
  if Js.includes " - " text then
    let parts := Js.split " - " text in
    if 2 <=? List.length parts
    then (Js.trim (part 0 parts),
          Js.trim (part (List.length parts - 1) parts))
    else (text, EmptyString)
  else if Js.includes " from " (Js.toLowerCase text) then
    let parts := Regex.split fromPattern text in
    (Js.trim (part 0 parts),
     if 1 <? List.length parts then Js.trim (part 1 parts) else EmptyString)
  else if Js.includes " to " (Js.toLowerCase text) then
    let parts := Regex.split toPattern text in
    (Js.trim (part 0 parts),
     if 1 <? List.length parts then Js.trim (part 1 parts) else EmptyString)
  else (text, EmptyString).

(** /(\d{4}-\d{2}-\d{2})/ *)
Definition rowIdPattern : pattern :=
  Pattern false
    (Grp 1 (cat [ exactly CDigit 4; dash; exactly CDigit 2; dash;
                  exactly CDigit 2 ])).

(** The five patterns tried on the row text, in the order of the source. *)
Definition rowTextDatePatterns : list pattern :=
  [ Pattern true
      (cat [ WordB; Grp 1 month; plus CSpace; between CDigit 1 2;
             opt (chr ","); plus CSpace; exactly CDigit 4; WordB ]);
    Pattern true
      (cat [ WordB; Grp 1 month; plus CSpace; between CDigit 1 2;
             plus CSpace; exactly CDigit 4; WordB ]);
    Pattern false
      (cat [ WordB; exactly CDigit 4; dash; exactly CDigit 2; dash;
             exactly CDigit 2; WordB ]);
    Pattern false
      (cat [ WordB; between CDigit 1 2; slash; between CDigit 1 2; slash;
             exactly CDigit 4; WordB ]);
    Pattern false
      (cat [ WordB; between CDigit 1 2; dash; between CDigit 1 2; dash;
             exactly CDigit 4; WordB ]) ].

(** [for (const pattern of patterns) { match = text.match(pattern);
    if (match) ... break }]: the first pattern that matches. *)
Fixpoint first_match (ps : list pattern) (text : string) : option result :=
  match ps with
  | [] => None
  | p :: ps' =>
      match exec p text with
      | Some m => Some m
      | None => first_match ps' text
      end
  end.

Definition is_empty (s : string) : bool := String.eqb s "".

Definition extractDate (row : Row) : string :=
  let date1 :=
    match dateElement row with
    | Some text => normalizeDate (Js.trim text)
    | None => EmptyString
    end in
  let date2 :=
    if is_empty date1 then
      let rowId := match rowId row with Some i => i | None => EmptyString end in
      match exec rowIdPattern rowId with
      | Some dateMatch => normalizeDate (grp dateMatch 1)
      | None => date1
      end
    else date1 in
  if is_empty date2 then
    match first_match rowTextDatePatterns (rowText row) with
    | Some m => normalizeDate (whole m)
    | None => date2
    end
  else date2.

(** The non-empty trimmed texts of the description cell's divs. *)
Definition descriptions (divs : list string) : list string :=
  filter (fun t => negb (is_empty t)) (map Js.trim divs).

(** The fallback scan for the longest cell text that is neither an amount
    nor a date and longer than five characters. *)
Fixpoint longestText (cells : list string) (longest : string) : string :=
  match cells with
  | [] => longest
  | cell :: cells' =>
      let text := Js.trim cell in
      if (String.length longest <? String.length text)
         && negb (isAmount text) && negb (isDate text)
         && (5 <? String.length text)
      then longestText cells' text
      else longestText cells' longest
  end.

(** The pair (description, vendor) of a row. *)
Definition extractDescription (accountType : string) (row : Row)
  : string * string :=
  match descElement row with
  | Some divs =>
      let ds := descriptions divs in
      if String.eqb accountType "credit" then
        match ds with
        | text :: _ =>
            let lower := Js.toLowerCase text in
            (if Js.includes "payment" lower then "Payment"
             else if Js.includes "refund" lower then "Refund"
             else "Purchase",
             text)
        | [] => (EmptyString, EmptyString)
        end
      else
        match ds with
        | d0 :: d1 :: _ => (d0, d1)
        | [d0] => parseDescriptionAndVendor d0
        | [] => (EmptyString, EmptyString)
        end
  | None =>
      let longest := longestText (allCells row) EmptyString in
      if is_empty longest then (EmptyString, EmptyString)
      else parseDescriptionAndVendor longest
  end.

Definition extractType (description : string) : string :=
  if is_empty description then EmptyString
  else
    let desc := Js.toLowerCase description in
    if Js.includes "interac" desc then "Interac"
    else if Js.includes "contactless" desc then "Contactless"
    else if Js.includes "deposit" desc then "Deposit"
    else if Js.includes "withdrawal" desc then "Withdrawal"
    else if Js.includes "transfer" desc then "Transfer"
    else if Js.includes "payment" desc then "Payment"
    else EmptyString.

(** [el && el.textContent.trim()]: the trimmed text of an element that is
    there and not blank. *)
Definition populated (el : option string) : option string :=
  match el with
  | Some text => if is_empty (Js.trim text) then None else Some (Js.trim text)
  | None => None
  end.

(** [amountText.replace(/^-\$?/, '')] *)
Definition strip_leading_minus (amountText : string) : string :=
  match amountText with
  | String "-"%char (String "$"%char t) => t
  | String "-"%char t => t
  | _ => amountText
  end.

(** The amount read from the withdraw and deposit columns. *)
Definition columnAmount (accountType : string) (row : Row) : string :=
  if String.eqb accountType "credit" then
    match populated (withdrawElement row) with
    | Some amountText =>
        if Js.startsWith "$" amountText
        then "-" ++ amountText else "-$" ++ amountText
    | None =>
        match populated (depositElement row) with
        | Some amountText =>
            let cleanAmount := strip_leading_minus amountText in
            if Js.startsWith "$" cleanAmount
            then cleanAmount else "$" ++ cleanAmount
        | None => EmptyString
        end
    end
  else
    let amount1 :=
      match withdrawElementAny row with
      | Some text => Js.trim text
      | None => EmptyString
      end in
    if is_empty amount1 then
      match depositElementAny row with
      | Some text => Js.trim text
      | None => amount1
      end
    else amount1.

(** The first cell whose trimmed text is an amount. *)
Fixpoint firstAmountCell (cells : list string) : string :=
  match cells with
  | [] => EmptyString
  | cell :: cells' =>
      let text := Js.trim cell in
      if isAmount text then text else firstAmountCell cells'
  end.

Definition extractAmount (accountType : string) (row : Row) : string :=
  let amount := columnAmount accountType row in
  if is_empty amount then firstAmountCell (allCells row) else amount.

Definition extractBalance (amount : string) (row : Row) : string :=
  match populated (balanceElement row) with
  | Some text => text
  | None =>
      let amounts :=
        filter (fun text => isAmount text && negb (String.eqb text amount))
               (map Js.trim (allCells row)) in
      last amounts EmptyString
  end.

Definition accountTypeOf (row : Row) : string :=
  let has (marker : string) :=
    match headersAttr row with
    | Some h => negb (is_empty h) && Js.includes marker h
    | None => false
    end in
  if has "cc-date" then "credit"
  else if has "pda-date" then "debit" else "unknown".

Definition parseRBCTransactionRow (row : Row) : record :=
  let accountType := accountTypeOf row in
  let date := extractDate row in
  let (description, vendor) := extractDescription accountType row in
  let type := extractType description in
  let amount := extractAmount accountType row in
  let balance := extractBalance amount row in
  [ ("date", VStr date); ("description", VStr description);
    ("vendor", VStr vendor); ("amount", VStr amount); ("type", VStr type);
    ("balance", VStr balance); ("reference", VStr EmptyString);
    ("accountType", VStr accountType) ].

End Parser.

(** ** The PDF processor ([PDFProcessor]) *)

Module Pdf.
Import Regex Value Utils.

(** A positioned text fragment: [item.str] and [item.transform[5]].  The
    vertical coordinate is taken in whole units. *)
Record TextItem : Type := { str : string; y : Z }.

Record LineGroup : Type := { groupY : Z; items : list TextItem }.

(** A grouped line: [{ text, y }]. *)
Record Line : Type := { text : string; lineY : Z }.

Definition tolerance : Z := 2.

(** [lines.find(l => Math.abs(l.y - y) <= tolerance)], then a push on the
    line found or on a new line appended to [lines]. *)
Fixpoint addItem (item : TextItem) (lines : list LineGroup)
  : list LineGroup :=
  match lines with
  | [] => [ {| groupY := y item; items := [item] |} ]
  | l :: lines' =>
      if (Z.abs (groupY l - y item) <=? tolerance)%Z
      then {| groupY := groupY l; items := (items l ++ [item])%list |}
             :: lines'
      else l :: addItem item lines'
  end.

(** [lines.sort((a, b) => b.y - a.y)]: descending, stable. *)
Fixpoint insertDesc (l : LineGroup) (sorted : list LineGroup)
  : list LineGroup :=
  match sorted with
  | [] => [l]
  | h :: t =>
      if (groupY h <? groupY l)%Z then l :: sorted
      else h :: insertDesc l t
  end.

Definition sortDesc (lines : list LineGroup) : list LineGroup :=
  fold_left (fun sorted l => insertDesc l sorted) lines [].

Definition groupTextIntoLines (textItems : list TextItem) : list Line :=
  let lines := fold_left (fun ls item => addItem item ls) textItems [] in
  map (fun l => {| text := String.concat " " (map str (items l));
                   lineY := groupY l |})
      (sortDesc lines).

Definition sign_opt : regex := opt (CSet [chr "+"; chr "-"]).

(** \d{1,2}\/\d{1,2}\/\d{4} *)
Definition numericDate : regex :=
  cat [ between CDigit 1 2; slash; between CDigit 1 2; slash;
        exactly CDigit 4 ].

(** (Jan|...)\s+\d{1,2},?\s+\d{4}, the month being group [i]. *)
Definition monthDate (i : nat) : regex :=
  cat [ Grp i month; plus CSpace; between CDigit 1 2; opt (chr ",");
        plus CSpace; exactly CDigit 4 ].

(** [+-]?\$\d+\.\d{2} *)
Definition dollarAmount : regex :=
  cat [ sign_opt; Cls dollar; plus CDigit; Cls (chr "."); exactly CDigit 2 ].

(** [+-]?\d+\.\d{2} *)
Definition plainAmount : regex :=
  cat [ sign_opt; plus CDigit; Cls (chr "."); exactly CDigit 2 ].

(** The six statement patterns, in the order of the source. *)
Definition patterns : list pattern :=
  [ Pattern false
      (cat [ Grp 1 numericDate; plus CSpace; Grp 2 dollarAmount;
             plus CSpace; Grp 3 (plus CAny) ]);
    Pattern false
      (cat [ Grp 1 (plus_lazy CAny); plus CSpace; Grp 2 numericDate;
             plus CSpace; Grp 3 dollarAmount ]);
    Pattern false
      (cat [ Grp 1 numericDate; plus CSpace; Grp 2 (plus_lazy CAny);
             plus CSpace; Grp 3 plainAmount ]);
    Pattern true
      (cat [ Grp 1 (monthDate 2); plus CSpace; Grp 3 dollarAmount;
             plus CSpace; Grp 4 (plus CAny) ]);
    Pattern true
      (cat [ Grp 1 (plus_lazy CAny); plus CSpace; Grp 2 (monthDate 3);
             plus CSpace; Grp 4 dollarAmount ]);
    Pattern true
      (cat [ Grp 1 (monthDate 2); plus CSpace; Grp 3 (plus_lazy CAny);
             plus CSpace; Grp 4 plainAmount ]) ].

Section Runtime.
Variable toFixed2 : string -> string.

(** [parseTransactionLine] of the processor; [None] is [null].  The
    destructuring [[, date, amount, description] = match] reads groups
    1, 2 and 3 whatever the pattern. *)
Definition parseTransactionLine (line : Line) : option record :=
  let text := Js.trim (text line) in
  if Parser.is_empty text then None
  else
    match Parser.first_match patterns text with
    | Some m =>
        let date := grp m 1 in
        let amount := grp m 2 in
        let description := grp m 3 in
        Some [ ("date", VStr (normalizeDate date));
               ("amount", VStr (normalizeAmount toFixed2 amount));
               ("description", VStr (Js.trim description));
               ("source", VStr "PDF");
               ("page", VNum (lineY line)) ]
    | None => None
    end.

(** [parsePDFPage]: the transactions of one page's text items. *)
Definition parsePDFPage (textItems : list TextItem) : list record :=
  flat_map
    (fun line =>
       match parseTransactionLine line with
       | Some transaction => [transaction]
       | None => []
       end)
    (groupTextIntoLines textItems).

(** [extractTransactionsFromPDF], once the pages are loaded. *)
Definition extractTransactionsFromPDF (pages : list (list TextItem))
  : list record :=
  flat_map parsePDFPage pages.
End Runtime.

(** *** [downloadAndProcessPDF] and its busy flag

    The method is asynchronous: it runs up to its first [await], and is
    resumed when the download and later the extraction settle.  Between
    those points other calls on the same processor may start.  The
    processor is modelled by its [isProcessing] flag, the calls that are
    suspended, and the promises settled so far. *)

(** The errors the method can reject with. *)
Inductive failure : Type :=
| AlreadyInProgress
| NoDownloadedFile
| DownloadFailed (reason : string)
| LibraryNotLoaded
| LibraryNotAvailable
| ProcessingFailed (reason : string).

Definition message (f : failure) : string :=
  match f with
  | AlreadyInProgress => "PDF processing already in progress"
  | NoDownloadedFile => "Failed to download PDF file"
  | DownloadFailed reason => "Failed to download PDF: " ++ reason
  | LibraryNotLoaded => "Could not load PDF processing library"
  | LibraryNotAvailable => "PDF.js not available"
  | ProcessingFailed reason => "PDF processing failed: " ++ reason
  end.

Inductive outcome : Type :=
| Resolved (transactions : list record) (filename : string)
| Rejected (error : failure).

(** Where a suspended call waits. *)
Inductive stage : Type :=
(* await this.downloadPDFFile(...) *)
| Downloading
(* await this.extractTransactionsFromPDF(...) *)
| Extracting (downloadedFile : string).

Record call : Type := { callId : nat; filename : string; at_ : stage }.

Record Processor : Type := {
  isProcessing : bool;
  suspended : list call;
  settled : list (nat * outcome)
}.

Definition initial : Processor :=
  {| isProcessing := false; suspended := []; settled := [] |}.

(** How [extractTransactionsFromPDF] can fail: loading the library
    ([initializePDFJS]), the library missing, or an error while reading
    the document (wrapped as "PDF processing failed: ..."). *)
Inductive extraction_error : Type :=
| LoadError
| Unavailable
| ReadError (reason : string).

Definition extraction_failure (e : extraction_error) : failure :=
  match e with
  | LoadError => LibraryNotLoaded
  | Unavailable => LibraryNotAvailable
  | ReadError reason => ProcessingFailed reason
  end.

Inductive event : Type :=
(* downloadAndProcessPDF(pdfUrl, filename) is called *)
| Call (id : nat) (filename : string)
(* the download of call [id] settles: an object URL, or the message of
   the error [downloadPDFFile] caught *)
| DownloadSettles (id : nat) (file : string + string)
(* the extraction of call [id] settles: transactions or an error *)
| ExtractionSettles (id : nat) (result : list record + extraction_error).

Fixpoint find_call (id : nat) (cs : list call) : option call :=
  match cs with
  | [] => None
  | c :: cs' => if Nat.eqb (callId c) id then Some c else find_call id cs'
  end.

Definition remove_call (id : nat) (cs : list call) : list call :=
  filter (fun c => negb (Nat.eqb (callId c) id)) cs.

(** The [finally] block: the flag is cleared and the promise settles. *)
Definition finish (p : Processor) (id : nat) (o : outcome) : Processor :=
  {| isProcessing := false;
     suspended := remove_call id (suspended p);
     settled := (settled p ++ [(id, o)])%list |}.

Definition step (p : Processor) (e : event) : Processor :=
  match e with
  | Call id filename =>
      if isProcessing p
      then (* throw before the try block: no finally runs *)
           {| isProcessing := isProcessing p;
              suspended := suspended p;
              settled :=
                (settled p ++ [(id, Rejected AlreadyInProgress)])%list |}
      else {| isProcessing := true;
              suspended :=
                (suspended p
                 ++ [ {| callId := id; filename := filename;
                         at_ := Downloading |} ])%list;
              settled := settled p |}
  | DownloadSettles id file =>
      match find_call id (suspended p) with
      | Some {| callId := _; filename := filename; at_ := Downloading |} =>
          match file with
          | inl url =>
              if Parser.is_empty url
              then finish p id (Rejected NoDownloadedFile)
              else {| isProcessing := isProcessing p;
                      suspended :=
                        (remove_call id (suspended p)
                         ++ [ {| callId := id; filename := filename;
                                 at_ := Extracting url |} ])%list;
                      settled := settled p |}
          | inr reason => finish p id (Rejected (DownloadFailed reason))
          end
      | _ => p
      end
  | ExtractionSettles id result =>
      match find_call id (suspended p) with
      | Some {| callId := _; filename := filename; at_ := Extracting _ |} =>
          match result with
          | inl transactions => finish p id (Resolved transactions filename)
          | inr error => finish p id (Rejected (extraction_failure error))
          end
      | _ => p
      end
  end.

Definition run (es : list event) : Processor := fold_left step es initial.

Fixpoint outcome_of (id : nat) (l : list (nat * outcome)) : option outcome :=
  match l with
  | [] => None
  | (i, o) :: l' => if Nat.eqb i id then Some o else outcome_of id l'
  end.

End Pdf.

(** ** The extraction orchestrator ([RBCTransactionExtractor]) *)

Module Extractor.
Import Value Utils Parser.

(** [extractFromRBCTransactionRows]: the rows are parsed in order and a
    row's record is pushed on [this.transactions] when the validator's
    answer is truthy; a row whose handling throws is skipped. *)
Definition extractFromRBCTransactionRows
           (transactionRows : list Row) (transactions : list record)
  : list record :=
  fold_left
    (fun acc row =>
       let transaction := parseRBCTransactionRow row in
       match isValidTransaction (Some transaction) with
       | Some valid => if truthy valid then (acc ++ [transaction])%list else acc
       | None => acc
       end)
    transactionRows transactions.

(** The answer [processPDF] sends back for a settled
    [downloadAndProcessPDF]. *)
Record response : Type := {
  success : bool;
  error : option string;
  count : nat;
  transactions : list record
}.

Definition processPDF (o : Pdf.outcome) : response :=
  match o with
  | Pdf.Resolved txs _ =>
      if 0 <? List.length txs
      then {| success := true; error := None;
              count := List.length txs; transactions := txs |}
      else {| success := false; error := Some "No transactions found in PDF";
              count := 0; transactions := [] |}
  | Pdf.Rejected e =>
      {| success := false; error := Some (Pdf.message e);
         count := 0; transactions := [] |}
  end.

(** *** The show-more load loops

    The page enters through what the loops use of it: whether a visible,
    enabled show-more button is found, the current count of transaction
    rows, a click on the button, and the passing of time. *)
Record Source (Page : Type) : Type := {
  findShowMoreButton : Page -> bool;
  getCurrentTransactionCount : Page -> nat;
  click : Page -> Page;
  sleep : N -> Page -> Page
}.
Arguments findShowMoreButton {Page}.
Arguments getCurrentTransactionCount {Page}.
Arguments click {Page}.
Arguments sleep {Page}.

Definition maxAttempts : nat := 100.
Definition maxWaitTime : N := 15000.
Definition pollInterval : N := 500.

Section Loops.
Context {Page : Type}.
Variable src : Source Page.

(** [while (waitTime < maxWaitTime) { await sleep(500); waitTime += 500;
    afterCount = count(); if (afterCount > beforeCount) break; }] with
    [rounds] the number of rounds left, [maxWaitTime / 500] at first.
    The result is the page and [afterCount] when the loop is left. *)
Fixpoint poll (rounds : nat) (beforeCount afterCount : nat) (s : Page)
  : Page * nat :=
  match rounds with
  | 0 => (s, afterCount)
  | S rounds' =>
      let s' := sleep src pollInterval s in
      let afterCount' := getCurrentTransactionCount src s' in
      if beforeCount <? afterCount' then (s', afterCount')
      else poll rounds' beforeCount afterCount' s'
  end.

(** One activation as [clickAllShowMoreButtonsWithProgress] sees it: the
    click, then the poll. *)
Definition activateWithProgress (s : Page) : Page * nat :=
  let beforeCount := getCurrentTransactionCount src s in
  poll (N.to_nat (maxWaitTime / pollInterval)) beforeCount beforeCount
     (click src s).

(** One activation as [clickAllShowMoreButtons] sees it: the click, a
    wait of two seconds, one reading of the count. *)
Definition activate (s : Page) : Page * nat :=
  let s' := sleep src 2000%N (click src s) in
  (s', getCurrentTransactionCount src s').

(** [while (clickCount < maxAttempts)], with [attempts] standing for
    [maxAttempts - clickCount].  The result is the page and
    [clickCount] when the loop is left. *)
Fixpoint loop (act : Page -> Page * nat) (attempts : nat) (clickCount : nat)
         (s : Page) : Page * nat :=
  match attempts with
  | 0 => (s, clickCount)
  | S attempts' =>
      if findShowMoreButton src s then
        let beforeCount := getCurrentTransactionCount src s in
        let (s', afterCount) := act s in
        if afterCount =? beforeCount then (s', S clickCount)
        else loop act attempts' (S clickCount) s'
      else (s, clickCount)
  end.

Definition clickAllShowMoreButtonsWithProgress (s : Page) : Page * nat :=
  loop activateWithProgress maxAttempts 0 s.

Definition clickAllShowMoreButtons (s : Page) : Page * nat :=
  loop activate maxAttempts 0 s.

(** The page before the [n]-th activation of a loop that is not left
    before it. *)
Fixpoint page_before (act : Page -> Page * nat) (n : nat) (s : Page) : Page :=
  match n with
  | 0 => s
  | S n' => fst (act (page_before act n' s))
  end.

(** An activation grows the count, as the loop observes it. *)
Definition grows (act : Page -> Page * nat) (s : Page) : Prop :=
  getCurrentTransactionCount src s < snd (act s).

(** An activation leaves the count where it was, as the loop observes
    it. *)
Definition stalls (act : Page -> Page * nat) (s : Page) : Prop :=
  snd (act s) = getCurrentTransactionCount src s.
End Loops.

End Extractor.

(** ** The CSV serialisers *)

Module Csv.
Import Value.

Definition quote : ascii := ascii_of_nat 34.
Definition comma : ascii := ","%char.
Definition newline : ascii := ascii_of_nat 10.

(** The value between two quotes, each quote inside it doubled. *)
Definition quoted (value : string) : string :=
  String quote
    (Js.replace_char quote (String quote (String quote EmptyString)) value)
    ++ String quote EmptyString.

(** The value includes a comma, a quote or a line feed. *)
Definition needs_quotes (value : string) : bool :=
  Js.has_char comma value || Js.has_char quote value
  || Js.has_char newline value.

Definition join_lines (lines : list string) : string :=
  String.concat (String newline EmptyString) lines.

(** [a !== ''] where [a] is any value. *)
Definition not_empty_string (v : jsval) : bool :=
  match v with
  | VStr s => negb (String.eqb s "")
  | _ => true
  end.

(** *** [convertToCSV] of [js/csvExporter.js] *)

Definition orderedHeaders : list string :=
  [ "date"; "accountType"; "description"; "vendor"; "amount"; "balance";
    "reference" ].

(** [t[header] && t[header] !== ''] *)
Definition has_data (header : string) (t : record) : bool :=
  truthy (get header t) && not_empty_string (get header t).

Definition headersOf (transactions : list record) : list string :=
  filter (fun header => existsb (has_data header) transactions)
         orderedHeaders.

(** [h.charAt(0).toUpperCase() + h.slice(1)] *)
Definition capitalize (h : string) : string :=
  match h with
  | String a t => String (Js.canon_char a) t
  | EmptyString => EmptyString
  end.

Definition label (h : string) : string :=
  if String.eqb h "date" then "Date"
  else if String.eqb h "accountType" then "Account Type"
  else if String.eqb h "description" then "Description"
  else if String.eqb h "vendor" then "Vendor/Payee"
  else if String.eqb h "amount" then "Amount"
  else if String.eqb h "balance" then "Balance"
  else if String.eqb h "reference" then "Reference"
  else capitalize h.

(** [String(transaction[header] || '')] *)
Definition valueOf (header : string) (transaction : record) : string :=
  to_string (or_else (get header transaction) (VStr EmptyString)).

Definition cell (header : string) (transaction : record) : string :=
  let value := valueOf header transaction in
  if String.eqb header "amount" || String.eqb header "balance"
  then Js.replace_char comma EmptyString value
  else if String.eqb header "date" then quoted value
  else if needs_quotes value then quoted value
  else value.

Definition row (headers : list string) (transaction : record) : string :=
  String.concat "," (map (fun header => cell header transaction) headers).

Definition convertToCSV (transactions : list record) : string :=
  match transactions with
  | [] => EmptyString
  | _ =>
      let headers := headersOf transactions in
      let csvHeaders := String.concat "," (map label headers) in
      let csvRows := map (row headers) transactions in
      join_lines (csvHeaders :: csvRows)
  end.

(** *** [convertToCSV] of [popup.js] *)

Module Popup.

(** [[...new Set(l)]]: first occurrences, in order. *)
Fixpoint unique (seen : list string) (l : list string) : list string :=
  match l with
  | [] => []
  | k :: l' =>
      if existsb (String.eqb k) seen then unique seen l'
      else k :: unique (k :: seen) l'
  end.

Definition headersOf (transactions : list record) : list string :=
  unique [] (flat_map keys transactions).

(** A cell, or [None] when [value.includes] is not a function: the
    value is truthy and not a string. *)
Definition cell (header : string) (transaction : record) : option string :=
  match or_else (get header transaction) (VStr EmptyString) with
  | VStr value =>
      Some (if needs_quotes value then quoted value else value)
  | _ => None
  end.

Fixpoint all_some (l : list (option string)) : option (list string) :=
  match l with
  | [] => Some []
  | None :: _ => None
  | Some x :: l' =>
      match all_some l' with
      | Some xs => Some (x :: xs)
      | None => None
      end
  end.

Definition row (headers : list string) (transaction : record)
  : option string :=
  match all_some (map (fun header => cell header transaction) headers) with
  | Some cells => Some (String.concat "," cells)
  | None => None
  end.

(** [None] when a [TypeError] is thrown. *)
Definition convertToCSV (transactions : list record) : option string :=
  match transactions with
  | [] => Some EmptyString
  | _ =>
      let headers := headersOf transactions in
      let csvHeaders := String.concat "," headers in
      match all_some (map (row headers) transactions) with
      | Some csvRows => Some (join_lines (csvHeaders :: csvRows))
      | None => None
      end
  end.

End Popup.

(** *** Reading CSV back

    The standard quoting rule (RFC 4180): fields are separated by commas
    and records by line feeds; a field that starts with a quote runs to
    the matching quote, and inside it two quotes stand for one.  This
    reader is what the serialiser's output is checked against. *)

Inductive mode : Type :=
| FieldStart      (* nothing of the field read yet *)
| Bare            (* inside an unquoted field *)
| InQuotes        (* inside a quoted field *)
| QuoteSeen.      (* inside a quoted field, just after a quote *)

Definition snoc (s : string) (a : ascii) : string := s ++ String a EmptyString.

(** [field] is the field being read, [fields] the fields of the record
    being read and [records] the records read so far. *)
Fixpoint read (m : mode) (field : string) (fields : list string)
         (records : list (list string)) (input : string)
  : list (list string) :=
  match input with
  | EmptyString => (records ++ [fields ++ [field]])%list
  | String a t =>
      match m with
      | FieldStart =>
          if Ascii.eqb a quote then read InQuotes field fields records t
          else if Ascii.eqb a comma
          then read FieldStart EmptyString (fields ++ [field])%list records t
          else if Ascii.eqb a newline
          then read FieldStart EmptyString []
                    (records ++ [fields ++ [field]])%list t
          else read Bare (snoc field a) fields records t
      | Bare =>
          if Ascii.eqb a comma
          then read FieldStart EmptyString (fields ++ [field])%list records t
          else if Ascii.eqb a newline
          then read FieldStart EmptyString []
                    (records ++ [fields ++ [field]])%list t
          else read Bare (snoc field a) fields records t
      | InQuotes =>
          if Ascii.eqb a quote then read QuoteSeen field fields records t
          else read InQuotes (snoc field a) fields records t
      | QuoteSeen =>
          if Ascii.eqb a quote
          then read InQuotes (snoc field quote) fields records t
          else if Ascii.eqb a comma
          then read FieldStart EmptyString (fields ++ [field])%list records t
          else if Ascii.eqb a newline
          then read FieldStart EmptyString []
                    (records ++ [fields ++ [field]])%list t
          else read Bare (snoc field a) fields records t
      end
  end.

Definition parseCSV (input : string) : list (list string) :=
  read FieldStart EmptyString [] [] input.

End Csv.

(** ** The generic table strategy ([createTransactionFromCells] and the
    extractor methods that call it) *)

Module Cells.
Import Value Utils.

(** The transaction object under construction. *)
Record Fields : Type := {
  date : string;
  description : string;
  amount : string;
  balance : string;
  type : string;
  reference : string
}.

Definition noFields : Fields :=
  {| date := ""; description := ""; amount := ""; balance := "";
     type := ""; reference := "" |}.

Definition is_empty (s : string) : bool := String.eqb s "".

(** The body of the loop over the cells, for one cell text and the header
    of its column. *)
Definition classify (t : Fields) (text header : string) : Fields :=
  if isDate text then
    {| date := normalizeDate text; description := description t;
       amount := amount t; balance := balance t; type := type t;
       reference := reference t |}
  else if isAmount text then
    if is_empty (amount t) then
      {| date := date t; description := description t; amount := text;
         balance := balance t; type := type t; reference := reference t |}
    else if is_empty (balance t) then
      {| date := date t; description := description t; amount := amount t;
         balance := text; type := type t; reference := reference t |}
    else t
  else if (3 <? String.length text) && is_empty (description t) then
    {| date := date t; description := text; amount := amount t;
       balance := balance t; type := type t; reference := reference t |}
  else if Js.includes "type" header || Js.includes "category" header then
    {| date := date t; description := description t; amount := amount t;
       balance := balance t; type := text; reference := reference t |}
  else if Js.includes "ref" header || Js.includes "number" header then
    {| date := date t; description := description t; amount := amount t;
       balance := balance t; type := type t; reference := text |}
  else t.

(** [for (let i = 0; i < cellTexts.length; i++)], the header of column [i]
    being [headers[i] || '']. *)
Fixpoint classifyAll (cellTexts headers : list string) (t : Fields) : Fields :=
  match cellTexts with
  | [] => t
  | text :: cellTexts' =>
      classifyAll cellTexts' (tl headers) (classify t text (hd "" headers))
  end.

Definition toRecord (t : Fields) : record :=
  [ ("date", VStr (date t)); ("description", VStr (description t));
    ("amount", VStr (amount t)); ("balance", VStr (balance t));
    ("type", VStr (type t)); ("reference", VStr (reference t)) ].

(** [createTransactionFromCells]; a cell is given by its text content. *)
Definition createTransactionFromCells (cells headers : list string) : record :=
  toRecord (classifyAll (map Js.trim cells) headers noFields).

(** [if (transaction && isValidTransaction(transaction)) push]. *)
Definition pushIfValid (transaction : record) (transactions : list record)
  : list record :=
  match isValidTransaction (Some transaction) with
  | Some valid =>
      if truthy valid then (transactions ++ [transaction])%list
      else transactions
  | None => transactions
  end.

(** [extractFromTable]: a table is given by the cells of each of its rows.
    [first] tells the row of index 0. *)
Fixpoint tableRows (rows : list (list string)) (first : bool)
         (headers : list string) (transactions : list record) : list record :=
  match rows with
  | [] => transactions
  | cells :: rows' =>
      if first
         || ((List.length headers =? 0) && (0 <? List.length cells))
      then tableRows rows' false
                     (map (fun cell => Js.toLowerCase (Js.trim cell)) cells)
                     transactions
      else if 0 <? List.length cells
      then tableRows rows' false headers
                     (pushIfValid (createTransactionFromCells cells headers)
                                  transactions)
      else tableRows rows' false headers transactions
  end.

Definition extractFromTable (rows : list (list string))
           (transactions : list record) : list record :=
  tableRows rows true [] transactions.

(** [extractFromRow]: the row is given by the texts of its cells. *)
Definition extractFromRow (cells : list string) (transactions : list record)
  : list record :=
  if 0 <? List.length cells
  then pushIfValid (createTransactionFromCells cells []) transactions
  else transactions.

End Cells.

(** ** The choice of the table to read ([getCurrentTransactionCount],
    [extractTransactions], [countTransactionsOnPage]) *)

Module Page.
Import Value Utils Parser Extractor.

(** A table of the document: its class attribute and the transaction rows
    found in it. *)
Record Table : Type := { className : string; transactionRows : list Row }.

(** What the selection reads of the document: its tables, in document
    order, the transaction rows found in the document as a whole, and the
    text of every table row. *)
Record Document : Type := {
  allTables : list Table;
  allTransactionRows : list Row;
  allRowTexts : list string
}.

Definition isCandidate (table : Table) : bool :=
  Js.includes "rbc-transaction-list" (className table).

(** The loop over the tables, with its two variables. *)
Fixpoint pickBest (tables : list Table) (bestTable : option Table)
         (maxRows : nat) : option Table * nat :=
  match tables with
  | [] => (bestTable, maxRows)
  | table :: tables' =>
      if isCandidate table
         && (maxRows <? List.length (transactionRows table))
      then pickBest tables' (Some table)
                    (List.length (transactionRows table))
      else pickBest tables' bestTable maxRows
  end.

Definition bestTable (doc : Document) : option Table * nat :=
  pickBest (allTables doc) None 0.

Definition getCurrentTransactionCount (doc : Document) : nat :=
  match bestTable doc with
  | (Some _, maxRows) => maxRows
  | (None, _) => List.length (allTransactionRows doc)
  end.

(** The rows [extractTransactions] hands to
    [extractFromRBCTransactionRows]; [None] when it turns to the fallback
    extraction. *)
Definition rowsToExtract (doc : Document) : option (list Row) :=
  match bestTable doc with
  | (Some table, _) => Some (transactionRows table)
  | (None, _) =>
      if 0 <? List.length (allTransactionRows doc)
      then Some (allTransactionRows doc)
      else None
  end.

(** /\b\d{1,2}\/\d{1,2}\/\d{4}\b|\b\d{4}-\d{2}-\d{2}\b/ *)
Definition rowDatePattern : Regex.pattern :=
  Regex.Pattern false
    (Regex.Alt
       (Regex.cat [ Regex.WordB; Regex.between Regex.CDigit 1 2; slash;
                    Regex.between Regex.CDigit 1 2; slash;
                    Regex.exactly Regex.CDigit 4; Regex.WordB ])
       (Regex.cat [ Regex.WordB; Regex.exactly Regex.CDigit 4; dash;
                    Regex.exactly Regex.CDigit 2; dash;
                    Regex.exactly Regex.CDigit 2; Regex.WordB ])).

(** /\$[\d,]+\.\d{2}/ *)
Definition dollarAmountPattern : Regex.pattern :=
  Regex.Pattern false
    (Regex.cat ([ Regex.Cls dollar; Regex.plus digit_or_comma ]
                  ++ two_decimals)%list).

(** [fallbackTransactionCount]: the rows whose text holds a date and an
    amount, is longer than twenty characters and does not read like a
    header. *)
Definition fallbackTransactionCount (doc : Document) : nat :=
  List.length
    (filter
       (fun text =>
          Regex.test rowDatePattern text
          && Regex.test dollarAmountPattern text
          && (20 <? String.length text)
          && negb (Js.includes "date" (Js.toLowerCase text))
          && negb (Js.includes "description" (Js.toLowerCase text)))
       (allRowTexts doc)).

(** [document.querySelector] of the transaction table: the first
    candidate in document order. *)
Definition firstCandidate (doc : Document) : option Table :=
  find isCandidate (allTables doc).

(** The count of [countTransactionsOnPage]. *)
Definition countTransactionsOnPage (doc : Document) : nat :=
  let rbcTransactionRows :=
    match firstCandidate doc with
    | Some table => transactionRows table
    | None => allTransactionRows doc
    end in
  let transactionCount :=
    List.length
      (filter
         (fun row =>
            match isValidTransaction (Some (parseRBCTransactionRow row)) with
            | Some valid => truthy valid
            | None => false
            end)
         rbcTransactionRows) in
  if transactionCount =? 0 then fallbackTransactionCount doc
  else transactionCount.

End Page.

(** ** The PDF links of a page ([detectAvailablePDFs]) *)

Module Detect.

(** What is read of an element: its [href] property, its [data-url] and
    [data-href] attributes and its text content. *)
Record Element : Type := {
  href : option string;
  dataUrl : option string;
  dataHref : option string;
  textContent : string
}.

(** An entry of the list returned, without the element it points at. *)
Record PdfLink : Type := {
  url : string;
  linkText : string;
  isIndirect : bool
}.

Definition truthyText (o : option string) : option string :=
  match o with
  | Some s => if String.eqb s "" then None else Some s
  | None => None
  end.


(** [text || fallback] *)
Definition textOr (text fallback : string) : string :=
  if String.eqb text "" then fallback else text.


(** The body of the loop over all links. *)
Definition indirectLink (link : Element) : list PdfLink :=
  match truthyText (href link) with
  | Some h =>
      if (Js.includes "statement" h || Js.includes "download" h)
         && negb (Js.includes ".pdf" h)
      then [ {| url := h;
                linkText := textOr (Js.trim (textContent link))
                                   "Statement Link";
                isIndirect := true |} ]
      else []
  | None => []
  end.





End Detect.

(** ** Is this a page of the bank?  ([isRBCURL] of the popup, [isRBCPage]
    of the background service and of the content script) *)

Module Pages.

(** [!url]: the address is missing or empty. *)
Definition missing (url : option string) : bool :=
  match url with
  | Some u => String.eqb u ""
  | None => true
  end.

Definition text (url : option string) : string :=
  match url with
  | Some u => u
  | None => EmptyString
  end.

(** [isRBCURL] of the popup. *)
Definition isRBCURL (url : option string) : bool :=
  if missing url then false
  else Js.includes "rbcroyalbank.com" (text url)
       || Js.includes "royalbank.com" (text url)
       || Js.includes "rbc.com" (text url).

(** [isRBCPage] of the background service. *)
Definition backgroundIsRBCPage (url : option string) : bool :=
  if missing url then false
  else Js.includes "rbcroyalbank.com" (text url)
       || Js.includes "rbc.com" (text url).

(** [isRBCPage] of the content script, on [window.location.hostname]. *)
Definition isRBCPage (hostname : string) : bool :=
  Js.includes "rbcroyalbank.com" hostname
  || Js.includes "royalbank.com" hostname
  || Js.includes "rbc.com" hostname.

End Pages.

(* ================================================================== *)
(** * Part II: the notions of the statements *)
(* ================================================================== *)

Import Value.

(** ** The validator *)

Module Validity.
Import Utils.

(** A field that holds a string or is missing. *)
Definition textual (v : jsval) : Prop :=
  match v with
  | VStr _ | VUndef => True
  | _ => False
  end.

(** The text of a field, empty when the field is missing. *)
Definition text_of (v : jsval) : string :=
  match v with
  | VStr s => s
  | _ => EmptyString
  end.

Definition onlyAmount : record :=
  [ ("description", VStr ""); ("amount", VStr "$10.00") ].
Definition shortDescription : record :=
  [ ("description", VStr "ab"); ("amount", VStr "") ].
Definition threeLetters : record :=
  [ ("description", VStr "abc"); ("amount", VStr "") ].

End Validity.

(** ** Credit rows: the polarity of the amount *)

Module Polarity.
Import Utils Parser.

Definition amountOf (t : record) : jsval := get "amount" t.

(** The text without one leading dollar sign. *)
Definition without_dollar (text : string) : string :=
  match text with
  | String "$"%char t => t
  | _ => text
  end.

(** A credit row. *)
Definition credit (row : Row) : Prop := accountTypeOf row = "credit".

(** The reading under which a minus sign is prefixed only when the
    withdraw text has none: a text that starts with a minus sign comes out
    without another one put before it. *)
Definition minus_only_if_absent : Prop :=
  forall (row : Row) (text : string),
    credit row ->
    populated (withdrawElement row) = Some text ->
    Js.startsWith "-" text = true ->
    amountOf (parseRBCTransactionRow row) <> VStr ("-" ++ text)
    /\ amountOf (parseRBCTransactionRow row) <> VStr ("-$" ++ text).

Definition creditRow (withdraw deposit : option string) : Row :=
  {| headersAttr := Some "cc-date";
     dateElement := Some "Oct 21, 2025";
     rowId := None;
     rowText := "Oct 21, 2025 STARBUCKS";
     descElement := Some ["STARBUCKS"];
     withdrawElement := withdraw;
     depositElement := deposit;
     withdrawElementAny := withdraw;
     depositElementAny := deposit;
     balanceElement := None;
     allCells := ["Oct 21, 2025"; "STARBUCKS"] |}.

End Polarity.

(** ** Dates *)

Module Dates.
Import Regex Utils.

(** The input, trimmed, has one of the shapes [normalizeDate] knows. *)
Definition recognized (dateStr : string) : bool :=
  existsb (fun p => test p (Js.trim dateStr)) normalizeDatePatterns.

(** The claim that an unrecognised input comes back unchanged. *)
Definition unrecognized_unchanged : Prop :=
  forall dateStr, recognized dateStr = false -> normalizeDate dateStr = dateStr.

End Dates.

(** ** Amounts in parentheses *)

Module Amounts.
Import Regex Utils.

(** The trimmed text is a negative amount in parentheses, with or without
    a dollar sign before them: the last two shapes of [isAmount]. *)
Definition parenthesized (text : string) : bool :=
  test parenAmountPattern (Js.trim text)
  || test dollarParenAmountPattern (Js.trim text).

End Amounts.

(** ** The columns of the CSV *)

Module Columns.
Import Csv.

(** A record as the row parser builds it, with a type. *)
Definition interacPurchase : record :=
  [ ("date", VStr "21/10/2025"); ("description", VStr "Interac purchase");
    ("vendor", VStr "GROCER"); ("amount", VStr "-$12.00");
    ("type", VStr "Interac"); ("balance", VStr "");
    ("reference", VStr ""); ("accountType", VStr "debit") ].

End Columns.

(** ** Reading back what the serialiser wrote *)

Module Reader.
Import Csv.

Definition special (a : ascii) : bool :=
  Ascii.eqb a comma || Ascii.eqb a quote || Ascii.eqb a newline.

Definition escape (v : string) : string :=
  Js.replace_char quote (String quote (String quote EmptyString)) v.

(** What follows a field: the end of the input, a comma or a line
    feed. *)
Definition delimited (rest : string) : Prop :=
  rest = "" \/ exists t, rest = String comma t \/ rest = String newline t.

(** The cell [e] is what the serialiser writes for the value [v] of a
    field that is quoted always or when needed. *)
Definition written (v e : string) : Prop :=
  e = quoted v \/ (e = v /\ needs_quotes v = false).

(** What follows a record: the end of the input or a line feed. *)
Definition ends_line (rest : string) : Prop :=
  rest = "" \/ exists t, rest = String newline t.

(** The record [fields] is complete and the input goes on with
    [rest]. *)
Definition close (fields : list string) (records : list (list string))
           (rest : string) : list (list string) :=
  match rest with
  | EmptyString => (records ++ [fields])%list
  | String _ t => read FieldStart "" [] (records ++ [fields])%list t
  end.

(** A line is the values of a record and the cells written for them, one
    at least. *)
Definition line_written (vs es : list string) : Prop :=
  vs <> [] /\ Forall2 written vs es.

(** The text of lines that are each ended by a line feed. *)
Fixpoint ended (lines : list string) : string :=
  match lines with
  | [] => ""
  | l :: lines' => l ++ String newline (ended lines')
  end.

(** What follows a line: nothing, or a line feed and the lines after
    it. *)
Definition following (lines : list string) : string :=
  match lines with
  | [] => ""
  | _ => String newline (join_lines lines)
  end.

End Reader.

(** ** The rows of the CSV *)

Module Rows.
Import Csv Reader Columns.

Definition strip_commas (value : string) : string :=
  Js.replace_char comma EmptyString value.

(** What a reader of the CSV should find in a column: the value itself,
    and for an amount or a balance the value without its commas. *)
Definition read_back (header : string) (t : record) : string :=
  if String.eqb header "amount" || String.eqb header "balance"
  then strip_commas (valueOf header t)
  else valueOf header t.

(** No amount and no balance holds a quote or a line feed. *)
Definition plain_amounts (ts : list record) : bool :=
  forallb
    (fun t =>
       forallb
         (fun h => negb (Js.has_char quote (valueOf h t))
                   && negb (Js.has_char newline (valueOf h t)))
         [ "amount"; "balance" ])
    ts.

Definition smithJohn : record :=
  [ ("date", VStr "21/10/2025"); ("description", VStr "Transfer");
    ("vendor", VStr "Smith, John"); ("amount", VStr "$1,250.00");
    ("type", VStr "Transfer"); ("balance", VStr "");
    ("reference", VStr ""); ("accountType", VStr "debit") ].

(** The columns written before the amount. *)
Definition early : list string :=
  [ "date"; "accountType"; "description"; "vendor" ].

(** The position of a name in a header row. *)
Fixpoint position (name : string) (header : list string) : option nat :=
  match header with
  | [] => None
  | h :: header' =>
      if String.eqb h name then Some 0
      else option_map S (position name header')
  end.

(** What a reader of the table finds, in the row of the record of index
    [i], in the column headed [name]; the rows follow the header row. *)
Definition lookup (table : list (list string)) (i : nat) (name : string)
  : option string :=
  match table with
  | [] => None
  | header :: rows =>
      match position name header, nth_error rows i with
      | Some j, Some row => nth_error row j
      | _, _ => None
      end
  end.

(** Every vendor that holds a comma is read back as it was. *)
Definition vendor_recovered : Prop :=
  forall (ts : list record) (i : nat) (t : record) (v : string),
    nth_error ts i = Some t ->
    get "vendor" t = VStr v ->
    Js.has_char comma v = true ->
    lookup (parseCSV (convertToCSV ts)) i "Vendor/Payee" = Some v.

(** A record whose amount starts with a quote, and another record. *)
Definition quoteInAmount : record :=
  [ ("date", VStr "20/10/2025"); ("description", VStr "Transfer");
    ("vendor", VStr "Smith, John");
    ("amount", VStr (String quote "1,250.00"));
    ("accountType", VStr "debit") ].

Definition doeJane : record :=
  [ ("date", VStr "22/10/2025"); ("description", VStr "Purchase");
    ("vendor", VStr "Doe, Jane"); ("amount", VStr "$20.00");
    ("accountType", VStr "debit") ].

End Rows.

(** ** The popup's serialiser against the exporter's *)

Module PopupNotions.
Import Csv Validity.






End PopupNotions.

(** ** The show-more load loops *)

Module LoadLoops.
Import Extractor.

(** *** A page whose rows arrive some time after the click

    [batches] clicks are still answered; a click starts a load that takes
    [delay] milliseconds and adds ten rows. *)
Record LazyPage : Type := {
  shown : nat;
  pending : option N;
  batches : nat
}.

Definition lazySource (delay : N) : Source LazyPage :=
  {| findShowMoreButton := fun _ => true;
     getCurrentTransactionCount := shown;
     click := fun p =>
       match batches p, pending p with
       | S b, None =>
           {| shown := shown p; pending := Some delay; batches := b |}
       | _, _ => p
       end;
     sleep := fun ms p =>
       match pending p with
       | Some d =>
           if (d <=? ms)%N
           then {| shown := shown p + 10; pending := None;
                   batches := batches p |}
           else {| shown := shown p; pending := Some (d - ms)%N;
                   batches := batches p |}
       | None => p
       end |}.

Definition twoBatches : LazyPage :=
  {| shown := 25; pending := None; batches := 2 |}.

(** A page, given by its count of rows, that loses a row at every click
    and never gains one. *)
Definition shrinkingSource : Source nat :=
  {| findShowMoreButton := fun _ => true;
     getCurrentTransactionCount := fun rows => rows;
     click := fun rows => rows - 1;
     sleep := fun _ rows => rows |}.

(** The loop whose activations are [act] sees its first [n] activations
    grow the count and the next one leave it, a show-more button being
    found before each. *)
Definition grow_then_stall {Page : Type} (src : Source Page)
           (act : Page -> Page * nat) (n : nat) (s : Page) : Prop :=
  (forall i, i < n ->
             findShowMoreButton src (page_before act i s) = true
             /\ grows src act (page_before act i s))
  /\ findShowMoreButton src (page_before act n s) = true
  /\ stalls src act (page_before act n s).

(** The first two activations grow the count within the poll ceiling of
    fifteen seconds and the third does not. *)
Definition two_grow_then_stall {Page : Type} (src : Source Page) (s : Page)
  : Prop :=
  grow_then_stall src (activateWithProgress src) 2 s.

(** The load loops, both of them, then make exactly three activations. *)
Definition three_activations : Prop :=
  forall (Page : Type) (src : Source Page) (s : Page),
    two_grow_then_stall src s ->
    snd (clickAllShowMoreButtonsWithProgress src s) = 3
    /\ snd (clickAllShowMoreButtons src s) = 3.

End LoadLoops.

(** ** The busy flag of the PDF processor *)

Module Busy.
Import Pdf.

(** Either nothing is in flight and the flag is down, or one call is and
    the flag is up. *)
Definition consistent (p : Processor) : Prop :=
  (isProcessing p = false /\ suspended p = [])
  \/ (isProcessing p = true /\ exists c, suspended p = [c]).

(** What a step adds to the settled promises. *)
Definition settles (p : Processor) (e : event) (id : nat) (o : outcome)
  : Prop :=
  settled (step p e) = (settled p ++ [(id, o)])%list.

Definition statement : record :=
  [ ("date", VStr "21/10/2025"); ("amount", VStr "50.00");
    ("description", VStr "STARBUCKS"); ("source", VStr "PDF");
    ("page", VNum 700) ].

(** A second call while the first downloads, then the first runs to its
    end. *)
Definition overlapping : list event :=
  [ Call 1 "first.pdf";
    Call 2 "second.pdf";
    DownloadSettles 1 (inl "blob:first");
    ExtractionSettles 1 (inl [statement]) ].

(** The step ends the call [id] through the [finally] block: its promise
    settles with [o], the flag is cleared and no call is left
    suspended. *)
Definition completes (p : Processor) (e : event) (id : nat) (o : outcome)
  : Prop :=
  step p e
  = {| isProcessing := false;
       suspended := [];
       settled := (settled p ++ [(id, o)])%list |}.

(** The step takes the call [c] from its download to its extraction and
    settles nothing: the flag stays up. *)
Definition proceeds (p : Processor) (e : event) (c : call) (url : string)
  : Prop :=
  step p e
  = {| isProcessing := true;
       suspended := [ {| callId := callId c; filename := filename c;
                         at_ := Extracting url |} ];
       settled := settled p |}.

(** A second call while the first downloads, then the download of the
    first fails, and a third call is made. *)
Definition failing : list event :=
  [ Call 1 "first.pdf";
    Call 2 "second.pdf";
    DownloadSettles 1 (inr "HTTP 404: Not Found");
    Call 3 "third.pdf" ].

(** A second call while the first extracts, then the extraction of the
    first fails. *)
Definition unreadable : list event :=
  [ Call 1 "first.pdf";
    DownloadSettles 1 (inl "blob:first");
    Call 2 "second.pdf";
    ExtractionSettles 1 (inr (ReadError "Invalid PDF structure")) ].

End Busy.

(** ** Capture groups that are never empty *)

Module Captures.
Import Regex.

(** The least number of characters a match of [r] takes. *)
Fixpoint minlen (r : regex) : nat :=
  match r with
  | Eps => 0
  | Lit l => String.length l
  | Cls _ => 1
  | Rep _ lo _ _ => lo
  | Seq r1 r2 => minlen r1 + minlen r2
  | Alt r1 r2 => Nat.min (minlen r1) (minlen r2)
  | Grp _ r' => minlen r'
  | Bol | Eol | WordB => 0
  end.

(** Group [i] occurs in [r]. *)
Fixpoint mentions (i : nat) (r : regex) : bool :=
  match r with
  | Grp j r' => Nat.eqb j i || mentions i r'
  | Seq r1 r2 | Alt r1 r2 => mentions i r1 || mentions i r2
  | _ => false
  end.

(** Every match of [r] sets group [i], and to a text of one character at
    least. *)
Fixpoint defines (i : nat) (r : regex) : bool :=
  match r with
  | Grp j r' => if Nat.eqb j i then 0 <? minlen r' else defines i r'
  | Seq r1 r2 => defines i r2 || (defines i r1 && negb (mentions i r2))
  | Alt r1 r2 => defines i r1 && defines i r2
  | _ => false
  end.

Definition nonempty (o : option string) : Prop :=
  exists v, o = Some v /\ v <> "".

End Captures.

(** ** What an extraction pass retains *)

Module Retention.
Import Utils Parser Extractor Validity Captures.

(** A record has a description longer than two characters once trimmed,
    or an amount that is not empty. *)
Definition retained (r : record) : Prop :=
  exists description amount,
    get "description" r = VStr description
    /\ get "amount" r = VStr amount
    /\ (2 < String.length (Js.trim description) \/ amount <> "").

(** The validator's answer, as the [if] of the callers takes it. *)
Definition accepted (t : record) : bool :=
  match isValidTransaction (Some t) with
  | Some valid => truthy valid
  | None => false
  end.

(** The rendering of a literal that is already written with two decimals
    is the literal itself; [NaN] is rendered by its name. *)
Definition sameDigits (lit : string) : string :=
  match lit with
  | EmptyString => "NaN"
  | _ => lit
  end.

Definition blankRow : Row :=
  {| headersAttr := Some "pda-date"; dateElement := Some "Oct 21, 2025";
     rowId := None; rowText := "Oct 21, 2025";
     descElement := Some []; withdrawElement := None;
     depositElement := None; withdrawElementAny := None;
     depositElementAny := None; balanceElement := None;
     allCells := ["Oct 21, 2025"; "ab"] |}.

Definition statementPage : list Pdf.TextItem :=
  [ {| Pdf.str := "10/21/2025"; Pdf.y := 700 |};
    {| Pdf.str := "$50.00"; Pdf.y := 701 |};
    {| Pdf.str := "STARBUCKS"; Pdf.y := 700 |};
    {| Pdf.str := "Page 1 of 3"; Pdf.y := 20 |} ].

End Retention.

(** ** The lines of a PDF page *)

Module PdfLines.
Import Pdf.

(** The lines as [groupTextIntoLines] has them before it joins the text of
    each: grouped, then sorted. *)
Definition grouped (textItems : list TextItem) : list LineGroup :=
  fold_left (fun ls item => addItem item ls) textItems [].

Definition groupedLines (textItems : list TextItem) : list LineGroup :=
  sortDesc (grouped textItems).

Definition lineOf (l : LineGroup) : Line :=
  {| text := String.concat " " (map str (items l)); lineY := groupY l |}.

(** Two coordinates further apart than the tolerance. *)
Definition apart (a b : Z) : Prop := (tolerance < Z.abs (a - b))%Z.

(** The first line lies above the second by more than the tolerance. *)
Definition above (a b : Z) : Prop := (b + tolerance < a)%Z.

(** A line holds fragments within the tolerance of its coordinate only. *)
Definition within (l : LineGroup) : Prop :=
  Forall (fun item => (Z.abs (groupY l - y item) <= tolerance)%Z) (items l).

Definition aboveLine (a b : LineGroup) : Prop := above (groupY a) (groupY b).

(** The coordinate a record of a PDF page carries. *)
Definition pageOf (t : record) : Z :=
  match get "page" t with
  | VNum z => z
  | _ => 0%Z
  end.

Definition statementItems : list TextItem :=
  [ {| str := "Page 1 of 3"; y := 20 |};
    {| str := "10/21/2025"; y := 700 |};
    {| str := "$50.00"; y := 701 |};
    {| str := "10/22/2025 $7.25 BAKERY"; y := 688 |};
    {| str := "STARBUCKS"; y := 699 |} ].

End PdfLines.

(** ** The generic table strategy *)

Module CellNotions.
Import Utils Cells.

(** The cell texts that read as dates. *)
Definition dateTexts (texts : list string) : list string :=
  filter isDate texts.

(** The cell texts that read as amounts and not as dates. *)
Definition amountTexts (texts : list string) : list string :=
  filter (fun text => negb (isDate text) && isAmount text) texts.

(** The cell texts longer than three characters that read neither as dates
    nor as amounts. *)
Definition otherTexts (texts : list string) : list string :=
  filter (fun text => negb (isDate text) && negb (isAmount text)
                      && (3 <? String.length text))
         texts.

Definition field (k : string) (t : record) : string :=
  match get k t with
  | VStr s => s
  | _ => EmptyString
  end.

(** The rows of a table from the first one that has cells on. *)
Fixpoint fromHeader (rows : list (list string)) : list (list string) :=
  match rows with
  | [] => []
  | cells :: rows' =>
      if 0 <? List.length cells then rows else fromHeader rows'
  end.

(** The headers read off the cells of a row. *)
Definition headerTexts (cells : list string) : list string :=
  map (fun cell => Js.toLowerCase (Js.trim cell)) cells.

(** The records of the rows that have cells, read under [headers], that
    the validator accepts. *)
Definition recordsUnder (headers : list string) (rows : list (list string))
  : list record :=
  filter Retention.accepted
         (map (fun cells => createTransactionFromCells cells headers)
              (filter (fun cells => 0 <? List.length cells) rows)).

(** A table that has no header row: two transactions. *)
Definition headless : list (list string) :=
  [ [ "10/21/2025"; "COFFEE SHOP"; "$4.50" ];
    [ "10/22/2025"; "GROCERY STORE"; "$31.20" ] ].

End CellNotions.

(** ** The choice of the table to read *)

Module PageNotions.
Import Parser Extractor Page.

Definition rowCount (table : Table) : nat :=
  List.length (transactionRows table).

(** What the loop over the tables keeps: nothing yet, every candidate so
    far being empty, or the first candidate with the most rows so far. *)
Definition chosen (seen : list Table) (best : option Table) (maxRows : nat)
  : Prop :=
  match best with
  | None =>
      maxRows = 0
      /\ forall t, In t seen -> isCandidate t = true -> rowCount t = 0
  | Some table =>
      isCandidate table = true
      /\ maxRows = rowCount table
      /\ 0 < maxRows
      /\ exists before after,
           seen = (before ++ table :: after)%list
           /\ (forall t, In t before -> isCandidate t = true ->
                         rowCount t < maxRows)
           /\ (forall t, In t after -> isCandidate t = true ->
                         rowCount t <= maxRows)
  end.

(** One candidate table with two rows, of which the validator accepts
    one. *)
Definition oneTable : Document :=
  {| allTables :=
       [ {| className := "summary"; transactionRows := [] |};
         {| className := "rbc-transaction-list-table";
            transactionRows :=
              [ Retention.blankRow;
                Polarity.creditRow (Some "50.00") None ] |} ];
     allTransactionRows :=
       [ Retention.blankRow; Polarity.creditRow (Some "50.00") None ];
     allRowTexts := [ "Oct 21, 2025"; "Oct 21, 2025 STARBUCKS $50.00" ] |}.

End PageNotions.

(** ** The PDF links of a page *)

Module DetectNotions.
Import Detect.



Definition statementLink : Element :=
  {| href := Some "https://www.rbc.com/statement/october";
     dataUrl := None; dataHref := None; textContent := " October " |}.

End DetectNotions.

(** ** What the serialisers are given *)

Module ExportNotions.
Import Parser.

(** A value [value.includes] cannot be called on: it is truthy, so it is
    not replaced by the empty text, and it is not a string. *)
Definition unprintable (v : jsval) : bool :=
  truthy v && match v with VStr _ => false | _ => true end.

(** The keys of the object literal of [parseRBCTransactionRow], in its
    order. *)
Definition rowKeys : list string :=
  [ "date"; "description"; "vendor"; "amount"; "type"; "balance";
    "reference"; "accountType" ].


(** A payment on a credit card. *)
Definition paymentRow : Row :=
  {| headersAttr := Some "cc-date";
     dateElement := Some "Oct 21, 2025";
     rowId := None;
     rowText := "Oct 21, 2025 PAYMENT - THANK YOU";
     descElement := Some ["PAYMENT - THANK YOU"];
     withdrawElement := None;
     depositElement := Some "-$777.57";
     withdrawElementAny := None;
     depositElementAny := Some "-$777.57";
     balanceElement := None;
     allCells := ["Oct 21, 2025"; "PAYMENT - THANK YOU"; "-$777.57"] |}.

End ExportNotions.

(** ** How the load loops end *)

Module LoopEnds.
Import Extractor.

(** A page of [rowsShown] rows with [pagesLeft] further pages to load:
    the button is there while a page is left, and a click loads ten rows
    at once. *)
Record Pager : Type := { rowsShown : nat; pagesLeft : nat }.

Definition pagerSource : Source Pager :=
  {| findShowMoreButton := fun p => 0 <? pagesLeft p;
     getCurrentTransactionCount := rowsShown;
     click := fun p =>
       {| rowsShown := rowsShown p + 10; pagesLeft := pagesLeft p - 1 |};
     sleep := fun _ p => p |}.

Definition twoPages : Pager := {| rowsShown := 25; pagesLeft := 2 |}.

(** The loop whose activations are [act] finds a button before each of
    its first [n] activations and sees each of them change the count. *)
Definition keeps_changing {Page : Type} (src : Source Page)
           (act : Page -> Page * nat) (n : nat) (s : Page) : Prop :=
  forall i, i < n ->
            findShowMoreButton src (page_before act i s) = true
            /\ snd (act (page_before act i s))
               <> getCurrentTransactionCount src (page_before act i s).

(** The page [k] polls after the click. *)
Definition waited {Page : Type} (src : Source Page) (k : nat) (s : Page)
  : Page :=
  Nat.iter k (sleep src pollInterval) (click src s).

End LoopEnds.

(** ** What a pattern matches *)

Module Denotation.
Import Regex.

Fixpoint every (f : ascii -> bool) (s : string) : bool :=
  match s with
  | EmptyString => true
  | String a t => f a && every f t
  end.

(** The character before the position reached once [taken] is read. *)
Fixpoint after (p : option ascii) (taken : string) : option ascii :=
  match taken with
  | EmptyString => p
  | String a t => after (Some a) t
  end.

Definition at_most (hi : option nat) (n : nat) : Prop :=
  match hi with
  | Some m => n <= m
  | None => True
  end.

(** [taken] is the literal [l], character by character. *)
Fixpoint lit_eq (ic : bool) (l taken : string) : bool :=
  match l, taken with
  | EmptyString, EmptyString => true
  | String c l', String a t => cmatch ic (CChar c) a && lit_eq ic l' t
  | _, _ => false
  end.

(** [Matches ic r st c st' c']: the pattern [r] can take the matcher from
    position [st] with groups [c] to position [st'] with groups [c']. *)
Inductive Matches (ic : bool)
  : regex -> mstate -> captures -> mstate -> captures -> Prop :=
| MEps st c : Matches ic Eps st c st c
| MLit l p taken t c :
    lit_eq ic l taken = true ->
    Matches ic (Lit l) (MState p (taken ++ t)) c (MState (after p taken) t) c
| MCls cl p a t c :
    cmatch ic cl a = true ->
    Matches ic (Cls cl) (MState p (String a t)) c (MState (Some a) t) c
| MRep cl lo hi g p taken t c :
    every (cmatch ic cl) taken = true ->
    lo <= String.length taken ->
    at_most hi (String.length taken) ->
    Matches ic (Rep cl lo hi g) (MState p (taken ++ t)) c
            (MState (after p taken) t) c
| MSeq r1 r2 st c st1 c1 st2 c2 :
    Matches ic r1 st c st1 c1 ->
    Matches ic r2 st1 c1 st2 c2 ->
    Matches ic (Seq r1 r2) st c st2 c2
| MAltL r1 r2 st c st' c' :
    Matches ic r1 st c st' c' -> Matches ic (Alt r1 r2) st c st' c'
| MAltR r1 r2 st c st' c' :
    Matches ic r2 st c st' c' -> Matches ic (Alt r1 r2) st c st' c'
| MGrp i r st c st' c' :
    Matches ic r st c st' c' ->
    Matches ic (Grp i r) st c st' (set_capture i (consumed st st') c')
| MBol s c : Matches ic Bol (MState None s) c (MState None s) c
| MEol p c :
    Matches ic Eol (MState p EmptyString) c (MState p EmptyString) c
| MWordB st c :
    xorb (word_before st) (word_after st) = true ->
    Matches ic WordB st c st c.

(** Three numbers between two separators, anchored at both ends, each
    number a group: the shape of the three numeric date patterns. *)
Definition threeNumbers (sep : ascii) (lo1 hi1 lo2 hi2 lo3 hi3 : nat)
  : pattern :=
  Pattern false
    (cat [ Bol; Grp 1 (Rep CDigit lo1 (Some hi1) true); Cls (CChar sep);
           Grp 2 (Rep CDigit lo2 (Some hi2) true); Cls (CChar sep);
           Grp 3 (Rep CDigit lo3 (Some hi3) true); Eol ]).

Definition digits (s : string) : Prop := every Js.is_digit s = true.

(** A number of [lo] to [hi] digits. *)
Definition number (lo hi : nat) (s : string) : Prop :=
  digits s /\ lo <= String.length s <= hi.

(** Two digits, a slash, two digits, a slash, four digits. *)
Definition ddmmyyyy (s : string) : bool :=
  match s with
  | String d1 (String d2 (String s1 (String m1 (String m2 (String s2
      (String y1 (String y2 (String y3 (String y4 EmptyString))))))))) =>
      Js.is_digit d1 && Js.is_digit d2 && Ascii.eqb s1 "/"
      && Js.is_digit m1 && Js.is_digit m2 && Ascii.eqb s2 "/"
      && Js.is_digit y1 && Js.is_digit y2 && Js.is_digit y3
      && Js.is_digit y4
  | _ => false
  end.

End Denotation.

(** ** Dates that are not rewritten *)

Module DateShapes.
Import Regex Denotation.

(** The pattern without its groups. *)
Fixpoint strip (r : regex) : regex :=
  match r with
  | Grp _ r' => strip r'
  | Seq r1 r2 => Seq (strip r1) (strip r2)
  | Alt r1 r2 => Alt (strip r1) (strip r2)
  | _ => r
  end.

(** Month, day and year between slashes or between dashes, the year of
    two or three digits. *)
Definition short_year (s : string) : Prop :=
  exists sep m d y,
    (sep = "/"%char \/ sep = "-"%char)
    /\ s = m ++ String sep (d ++ String sep y)
    /\ number 1 2 m /\ number 1 2 d /\ number 2 3 y.

End DateShapes.

(** ** Statement lines that start with a date *)

Module StatementLines.
Import Denotation.

(** White space, one character at least. *)
Definition spaces (s : string) : Prop :=
  every Js.is_ws s = true /\ s <> "".

(** A text on one line that neither starts nor ends with white space and
    is not empty. *)
Definition phrase (s : string) : Prop :=
  every (fun a => negb (Js.is_line_terminator a)) s = true
  /\ Js.trimEnd s = s
  /\ exists a t, s = String a t /\ Js.is_ws a = false.

(** No sign, a plus or a minus. *)
Definition sign (s : string) : Prop := s = "" \/ s = "+" \/ s = "-".

End StatementLines.

(** ** The texts that read as amounts *)

Module AmountShapes.
Import Denotation.

(** A digit or a comma. *)
Definition figure (a : ascii) : bool :=
  Js.is_digit a || Ascii.eqb a ","%char.

(** What may stand before and after the figures: nothing, a dollar sign,
    a minus, both in either order, or parentheses, the opening one
    alone or behind a dollar sign. *)
Definition wrap (pre post : string) : Prop :=
  (post = "" /\ (pre = "" \/ pre = "$" \/ pre = "-" \/ pre = "$-"
                 \/ pre = "-$"))
  \/ (post = ")" /\ (pre = "(" \/ pre = "$(")).

(** Figures, one at least, a point and two digits, between [pre] and
    [post]. *)
Definition shaped (pre post s : string) : Prop :=
  exists body dd,
    s = pre ++ body ++ String "." (dd ++ post)
    /\ body <> "" /\ every figure body = true
    /\ number 2 2 dd.

(** Figures, one at least, a point and two digits, wrapped. *)
Definition amount_shape (s : string) : Prop :=
  exists pre post, wrap pre post /\ shaped pre post s.

(** The part every amount pattern has: the figures, the point and the
    two decimals, before the rest [r] of the pattern. *)
Definition core (r : Regex.regex) : Regex.regex :=
  Regex.Seq (Regex.Rep Utils.digit_or_comma 1 None true)
    (Regex.Seq (Regex.Cls (Regex.CChar "."))
       (Regex.Seq (Regex.Rep Regex.CDigit 2 (Some 2) true) r)).

(** The pattern [r] has a match that starts at the head of [s], the
    character before it being [p]. *)
Definition acc (r : Regex.regex) (p : option ascii) (s : string) : Prop :=
  exists st' c',
    Matches false r (Regex.MState p s) Regex.no_captures st' c'.

End AmountShapes.

(** ** Dates written with the name of the month *)

Module MonthDates.
Import Denotation.

(** A lower-case letter of the English alphabet. *)
Definition is_lower (a : ascii) : bool :=
  let n := Js.code a in (97 <=? n) && (n <=? 122).

(** White space, one character at least. *)
Definition gap (s : string) : Prop :=
  every Js.is_ws s = true /\ s <> "".

End MonthDates.

(** ** Fragments of one line *)

Module OneLine.
Import Pdf.

(** The fragment lies within the tolerance of the coordinate [y0]. *)
Definition near (y0 : Z) (item : TextItem) : Prop :=
  (Z.abs (y0 - y item) <= tolerance)%Z.

Definition dateThenAmount : list TextItem :=
  [ {| str := "10/21/2025"; y := 700 |};
    {| str := "$50.00"; y := 702 |};
    {| str := "STARBUCKS"; y := 698 |} ].

End OneLine.

(** ** Dates and amounts *)

Module Points.

(** The text holds no point. *)
Definition pointless (s : string) : bool :=
  Denotation.every (fun a => negb (Ascii.eqb a ".")) s.

End Points.

(* ================================================================== *)
(** * Part III: properties *)
(* ================================================================== *)

(** ** The embedding at work

    The functions on the inputs the specification and the comments of the
    source name. *)

Module Examples.
Import Utils Parser Pdf.

Example isAmount_exactness :
  map isAmount [ "$123.45"; "-123.45"; "(123.45)"; "$(123.45)";
                 "123"; "abc"; "$123" ]
  = [ true; true; true; true; false; false; false ].
Proof. vm_compute; reflexivity. Qed.

Example isDate_shapes :
  map isDate [ "10/21/2025"; "10-21-25"; "2025-10-21"; "Oct 21, 2025";
               "october 21 2025"; "on 10/21/2025"; "Octember 21, 2025" ]
  = [ true; true; true; true; true; false; false ].
Proof. vm_compute; reflexivity. Qed.

Example parseFloat_prefixes :
  map parseFloat_text [ "50.00"; "  -12.5e3 CAD"; "10/21/2025"; ".5"; "5.";
                        "."; "(123.45)"; "Oct"; "" ]
  = [ Some "50.00"; Some "-12.5e3"; Some "10"; Some ".5"; Some "5.";
      None; None; None; None ].
Proof. vm_compute; reflexivity. Qed.

Example parseDescriptionAndVendor_patterns :
  map parseDescriptionAndVendor
      [ "Contactless Interac purchase - 5619 - VENDOR NAME";
        "Interac e-Transfer From PERSON NAME";
        "Bill Payment - PAYEE NAME";
        "Transfer to SAVINGS";
        "Monthly fee" ]
  = [ ("Contactless Interac purchase", "VENDOR NAME");
      ("Interac e-Transfer", "PERSON NAME");
      ("Bill Payment", "PAYEE NAME");
      ("Transfer", "SAVINGS");
      ("Monthly fee", "") ].
Proof. vm_compute; reflexivity. Qed.

Example debit_row :
  parseRBCTransactionRow
    {| headersAttr := Some "pda-date";
       dateElement := None;
       rowId := Some "transaction-2025-10-21-7";
       rowText := "Contactless Interac purchase - 5619 - GROCER $12.00 $988.00";
       descElement := None;
       withdrawElement := None;
       depositElement := None;
       withdrawElementAny := Some " $12.00 ";
       depositElementAny := None;
       balanceElement := None;
       allCells := [ "Contactless Interac purchase - 5619 - GROCER";
                     "$12.00"; ""; "$988.00" ] |}
  = [ ("date", VStr "21/10/2025");
      ("description", VStr "Contactless Interac purchase");
      ("vendor", VStr "GROCER"); ("amount", VStr "$12.00");
      ("type", VStr "Interac"); ("balance", VStr "$988.00");
      ("reference", VStr ""); ("accountType", VStr "debit") ].
Proof. vm_compute; reflexivity. Qed.

(** Fragments within two units of a line join it; the lines come out top
    of the page first. *)
Example groupTextIntoLines_page :
  groupTextIntoLines
    [ {| str := "Page 1"; y := 20 |}; {| str := "10/21/2025"; y := 700 |};
      {| str := "$50.00"; y := 701 |}; {| str := "10/22/2025"; y := 688 |};
      {| str := "STARBUCKS"; y := 699 |} ]
  = [ {| text := "10/21/2025 $50.00 STARBUCKS"; lineY := 700 |};
      {| text := "10/22/2025"; lineY := 688 |};
      {| text := "Page 1"; lineY := 20 |} ].
Proof. vm_compute; reflexivity. Qed.

(** The destructuring of a match reads groups 1, 2 and 3 whatever the
    pattern: with the description first, the description lands in the
    date and the date in the amount. *)
Example parseTransactionLine_orders :
  map (fun t => parseTransactionLine (fun lit => lit)
                  {| text := t; lineY := 700 |})
      [ "10/21/2025 $50.00 STARBUCKS"; "STARBUCKS 10/21/2025 $50.00";
        "Statement period" ]
  = [ Some [ ("date", VStr "21/10/2025"); ("amount", VStr "50.00");
             ("description", VStr "STARBUCKS"); ("source", VStr "PDF");
             ("page", VNum 700) ];
      Some [ ("date", VStr "STARBUCKS"); ("amount", VStr "10");
             ("description", VStr "$50.00"); ("source", VStr "PDF");
             ("page", VNum 700) ];
      None ].
Proof. vm_compute; reflexivity. Qed.

End Examples.

(** ** Strings *)

Module JsFacts.
Import Js.

Lemma prefix_cons (a : ascii) (t s : string) :
  String.prefix (String a t) s = true ->
  exists s', s = String a s' /\ String.prefix t s' = true.
Proof.
  destruct s as [|b s']; simpl; [discriminate|].
  destruct (ascii_dec a b) as [->|]; [|discriminate].
  intros H; exists s'; split; [reflexivity|exact H].
Qed.

Lemma startsWith_char (a : ascii) (s : string) :
  startsWith (String a EmptyString) s = true <-> exists t, s = String a t.
Proof.
  unfold startsWith; split.
  - intros H; apply prefix_cons in H as (s' & -> & _); eauto.
  - intros [t ->]; simpl.
    destruct (ascii_dec a a); [destruct t; reflexivity|congruence].
Qed.

Lemma startsWith_char_false (a : ascii) (s : string) :
  startsWith (String a EmptyString) s = false <->
  (forall t, s <> String a t).
Proof.
  split.
  - intros H t ->.
    assert (startsWith (String a EmptyString) (String a t) = true)
      by (apply startsWith_char; eauto).
    congruence.
  - intros H.
    destruct (startsWith (String a EmptyString) s) eqn:E; [|reflexivity].
    apply startsWith_char in E as [t ->]; exfalso; eapply H; reflexivity.
Qed.

Lemma eqb_empty_false (s : string) : String.eqb s "" = false <-> s <> "".
Proof.
  rewrite <- String.eqb_eq; destruct (String.eqb s ""); split; congruence.
Qed.

Lemma length_zero (s : string) : String.length s = 0 <-> s = "".
Proof. destruct s; simpl; split; congruence || discriminate. Qed.

Lemma length_pos (s : string) : 0 < String.length s <-> s <> "".
Proof.
  destruct s; simpl; split; intros; try lia; try congruence;
    try discriminate.
Qed.

(** [trimEnd] keeps the first character of whatever it leaves. *)
Lemma trimEnd_head (s : string) (a : ascii) (t : string) :
  trimEnd s = String a t -> exists t', s = String a t'.
Proof.
  destruct s as [|b s']; simpl; [discriminate|].
  destruct (trimEnd s'); [destruct (is_ws b)|]; intros H;
    inversion H; subst; eauto.
Qed.

Lemma trimEnd_second (s : string) (a b c : ascii) (u : string) :
  trimEnd (String a s) = String b (String c u) -> exists s', s = String c s'.
Proof.
  simpl; destruct (trimEnd s) as [|d r] eqn:E.
  - destruct (is_ws a); discriminate.
  - intros H; injection H as _ -> ->; eapply trimEnd_head; exact E.
Qed.

Lemma trimStart_idem_head (s : string) (a : ascii) (t : string) :
  trimStart s = String a t -> is_ws a = false.
Proof.
  induction s as [|b s' IH]; simpl; [discriminate|].
  destruct (is_ws b) eqn:E; [exact IH|].
  intros H; inversion H; subst; exact E.
Qed.

Lemma trim_head (s : string) (a : ascii) (t : string) :
  trim s = String a t -> exists t', trimStart s = String a t'.
Proof. unfold trim; apply trimEnd_head. Qed.

End JsFacts.

(** ** The keys of an object *)

Module KeyFacts.
Import Value.

Lemma insertIndex_perm (n : N) (k : string) (l : list (N * string)) :
  Permutation (insertIndex n k l) ((n, k) :: l).
Proof.
  induction l as [|[m k'] l IH]; cbn [insertIndex]; [reflexivity|].
  destruct (n <? m)%N; [reflexivity|].
  rewrite IH; apply perm_swap.
Qed.

Lemma indexKeys_perm (ks : list string) :
  Permutation (map snd (indexKeys ks)) (filter isIndex ks).
Proof.
  induction ks as [|k ks IH]; cbn [indexKeys filter]; [constructor|].
  unfold isIndex at 1; destruct (arrayIndex k) as [n|]; [|exact IH].
  rewrite insertIndex_perm; cbn [map snd]; constructor; exact IH.
Qed.

Lemma filter_split_perm {A : Type} (f : A -> bool) (l : list A) :
  Permutation (filter f l ++ filter (fun x => negb (f x)) l) l.
Proof.
  induction l as [|a l IH]; cbn [filter app]; [constructor|].
  destruct (f a); cbn [negb app].
  - constructor; exact IH.
  - apply Permutation_sym, Permutation_cons_app, Permutation_sym, IH.
Qed.

(** [Object.keys] lists the keys of the object, each as often as the
    object has it. *)
Lemma keys_perm (r : record) : Permutation (keys r) (map fst r).
Proof.
  unfold keys; rewrite indexKeys_perm; apply filter_split_perm.
Qed.

Lemma keys_In (k : string) (r : record) : In k (keys r) <-> In k (map fst r).
Proof.
  split; apply Permutation_in;
    [apply keys_perm|apply Permutation_sym, keys_perm].
Qed.

Lemma keys_NoDup (r : record) : NoDup (keys r) <-> NoDup (map fst r).
Proof.
  split; apply Permutation_NoDup;
    [apply keys_perm|apply Permutation_sym, keys_perm].
Qed.

Lemma indexKeys_none (ks : list string) :
  forallb (fun k => negb (isIndex k)) ks = true -> indexKeys ks = [].
Proof.
  induction ks as [|k ks IH]; cbn [forallb indexKeys]; [reflexivity|].
  unfold isIndex at 1; destruct (arrayIndex k); cbn [negb andb];
    [discriminate|exact IH].
Qed.

Lemma filter_all {A : Type} (f : A -> bool) (l : list A) :
  forallb f l = true -> filter f l = l.
Proof.
  induction l as [|a l IH]; cbn [forallb filter]; [reflexivity|].
  destruct (f a); cbn [andb]; [|discriminate].
  intros H; rewrite IH by exact H; reflexivity.
Qed.

(** An object none of whose keys is an array index lists its keys in
    insertion order. *)
Lemma keys_plain (r : record) :
  forallb (fun k => negb (isIndex k)) (map fst r) = true ->
  keys r = map fst r.
Proof.
  intros H; unfold keys.
  rewrite (indexKeys_none _ H), (filter_all _ _ H); reflexivity.
Qed.

End KeyFacts.

(** ** The validator *)

Module ValidatorFacts.
Import Utils JsFacts Validity.

Lemma and_trimmed_longer_textual (v : jsval) (n : nat) :
  textual v ->
  exists r, and_trimmed_longer v n = Some r
            /\ (r = VBool true <-> n < String.length (Js.trim (text_of v)))
            /\ (truthy r = true <-> n < String.length (Js.trim (text_of v))).
Proof.
  destruct v as [| | |s]; simpl; try contradiction; intros _.
  - exists VUndef; unfold and_trimmed_longer; simpl.
    repeat split; try discriminate; lia.
  - unfold and_trimmed_longer; simpl.
    destruct (String.eqb s "") eqn:E; simpl.
    + apply String.eqb_eq in E; subst s.
      exists (VStr ""); repeat split; simpl; try discriminate; lia.
    + exists (VBool (n <? String.length (Js.trim s))).
      split; [reflexivity|].
      destruct (Nat.ltb_spec n (String.length (Js.trim s))); simpl;
        split; split; intros; try reflexivity; try lia; try discriminate;
        assumption.
Qed.

(** What the validator answers on a record whose description, amount and
    date are strings or missing. *)
Lemma validator_answer (t : record) :
  textual (get "description" t) ->
  textual (get "amount" t) ->
  textual (get "date" t) ->
  exists v,
    isValidTransaction (Some t) = Some v
    /\ (v = VBool true <->
        2 < String.length (Js.trim (text_of (get "description" t)))
        \/ 0 < String.length (Js.trim (text_of (get "amount" t))))
    /\ (truthy v = true <->
        2 < String.length (Js.trim (text_of (get "description" t)))
        \/ 0 < String.length (Js.trim (text_of (get "amount" t)))).
Proof.
  intros Hd Ha Hdate; unfold isValidTransaction.
  destruct (and_trimmed_longer_textual _ 2 Hd) as (hd & -> & Hd1 & Hd2).
  destruct (and_trimmed_longer_textual _ 0 Ha) as (ha & -> & Ha1 & Ha2).
  destruct (and_trimmed_longer_textual _ 0 Hdate) as (hdate & -> & _).
  exists (or_else hd ha); split; [reflexivity|].
  unfold or_else; destruct (truthy hd) eqn:E.
  - assert (H2 : 2 < String.length (Js.trim (text_of (get "description" t))))
      by (apply Hd2; reflexivity).
    split; split; intros; auto; apply Hd1; exact H2.
  - assert (H2 : ~ 2 < String.length (Js.trim (text_of (get "description" t))))
      by (intros H; apply Hd2 in H; congruence).
    rewrite Ha1, Ha2; split; tauto.
Qed.

(** [C6] For every record whose description, amount and date are strings
    or missing, [isValidTransaction] returns [true] if and only if the
    trimmed description is longer than two characters or the trimmed
    amount is not empty; what it returns otherwise is falsy.  The date
    takes no part in the condition: a record without one is valid under
    the same condition. *)
Theorem isValidTransaction_true_iff (t : record) :
  textual (get "description" t) ->
  textual (get "amount" t) ->
  textual (get "date" t) ->
  exists v,
    isValidTransaction (Some t) = Some v
    /\ (v = VBool true <->
        2 < String.length (Js.trim (text_of (get "description" t)))
        \/ 0 < String.length (Js.trim (text_of (get "amount" t))))
    /\ (truthy v = true <->
        2 < String.length (Js.trim (text_of (get "description" t)))
        \/ 0 < String.length (Js.trim (text_of (get "amount" t)))).
Proof. exact (validator_answer t). Qed.

(** The boundary cases of the specification, none of them with a date. *)
Lemma isValidTransaction_boundary :
  isValidTransaction (Some onlyAmount) = Some (VBool true)
  /\ isValidTransaction (Some shortDescription) <> Some (VBool true)
  /\ isValidTransaction (Some threeLetters) = Some (VBool true).
Proof.
  split; [|split].
  - destruct (isValidTransaction_true_iff onlyAmount I I I) as (v & E & H & _).
    rewrite E; f_equal; apply H; right; vm_compute; lia.
  - destruct (isValidTransaction_true_iff shortDescription I I I)
      as (v & E & H & _).
    rewrite E; intros Hv; injection Hv as Hv; apply H in Hv.
    vm_compute in Hv; lia.
  - destruct (isValidTransaction_true_iff threeLetters I I I)
      as (v & E & H & _).
    rewrite E; f_equal; apply H; left; vm_compute; lia.
Defined.

End ValidatorFacts.

(** ** Credit rows: the polarity of the amount *)

Module PolarityFacts.
Import Utils Parser JsFacts Polarity.

Lemma parse_amount (row : Row) :
  amountOf (parseRBCTransactionRow row)
  = VStr (extractAmount (accountTypeOf row) row).
Proof.
  unfold amountOf, parseRBCTransactionRow.
  destruct (extractDescription (accountTypeOf row) row); reflexivity.
Qed.

Lemma parse_accountType (row : Row) :
  get "accountType" (parseRBCTransactionRow row) = VStr (accountTypeOf row).
Proof.
  unfold parseRBCTransactionRow.
  destruct (extractDescription (accountTypeOf row) row); reflexivity.
Qed.

Lemma populated_not_empty (el : option string) (text : string) :
  populated el = Some text -> text <> "".
Proof.
  unfold populated; destruct el as [raw|]; [|discriminate].
  destruct (is_empty (Js.trim raw)) eqn:E; [discriminate|].
  intros H; injection H as <-; apply eqb_empty_false; exact E.
Qed.

Lemma dollar_cases (text : string) :
  (exists t, text = String "$"%char t /\ Js.startsWith "$" text = true)
  \/ (without_dollar text = text /\ Js.startsWith "$" text = false).
Proof.
  destruct (Js.startsWith "$" text) eqn:E.
  - left; apply startsWith_char in E as [t ->]; exists t; split; auto.
  - right; split; [|reflexivity].
    destruct text as [|a t]; [reflexivity|].
    destruct (ascii_dec a "$"%char) as [->|Hn].
    + exfalso; eapply (proj1 (startsWith_char_false _ _) E); reflexivity.
    + unfold without_dollar.
      destruct a as [[] [] [] [] [] [] [] []]; try reflexivity.
      exfalso; apply Hn; reflexivity.
Qed.

(** [C1], as stated, fails: a withdraw text that already carries a minus
    sign gets a second one. *)
Lemma withdraw_minus_prefixed_twice :
  amountOf (parseRBCTransactionRow (creditRow (Some "-$50.00") None))
  = VStr "-$-$50.00"
  /\ ~ minus_only_if_absent.
Proof.
  split; [vm_compute; reflexivity|].
  intros H.
  destruct (H (creditRow (Some "-$50.00") None) "-$50.00") as [_ H2];
    try (vm_compute; reflexivity).
  apply H2; vm_compute; reflexivity.
Qed.

(** [C1], amended.  On a credit row, a populated withdraw column gives the
    amount [-$] followed by the text without its leading dollar sign: the
    minus sign is always prefixed.  Otherwise a populated deposit column
    gives the text without its leading [-] or [-$], behind one dollar
    sign. *)
Theorem credit_amount_polarity (row : Row) :
  credit row ->
  (forall text,
      populated (withdrawElement row) = Some text ->
      amountOf (parseRBCTransactionRow row)
      = VStr ("-$" ++ without_dollar text))
  /\ (populated (withdrawElement row) = None ->
      forall text,
        populated (depositElement row) = Some text ->
        amountOf (parseRBCTransactionRow row)
        = VStr ("$" ++ without_dollar (strip_leading_minus text))).
Proof.
  unfold credit; intros Hc; rewrite parse_amount, Hc.
  unfold extractAmount, columnAmount; simpl String.eqb; cbv iota.
  split.
  - intros text ->.
    destruct (dollar_cases text) as [(t & -> & ->)|[-> ->]]; reflexivity.
  - intros -> text ->.
    destruct (dollar_cases (strip_leading_minus text))
      as [(t & E & ->)|[-> ->]]; [rewrite E|]; reflexivity.
Qed.

(** The two rows of the specification: withdraw text [50.00] and deposit
    text [-$75.00]. *)
Lemma credit_amount_polarity_examples :
  amountOf (parseRBCTransactionRow (creditRow (Some "50.00") None))
  = VStr "-$50.00"
  /\ amountOf (parseRBCTransactionRow (creditRow None (Some "-$75.00")))
     = VStr "$75.00".
Proof.
  split.
  - apply (proj1 (credit_amount_polarity (creditRow (Some "50.00") None)
                                         eq_refl) "50.00" eq_refl).
  - apply (proj2 (credit_amount_polarity (creditRow None (Some "-$75.00"))
                                         eq_refl) eq_refl "-$75.00" eq_refl).
Defined.

End PolarityFacts.

(** ** The matcher *)

Module RegexFacts.
Import Regex.

(** A pattern anchored by [^] does not match from a later position. *)
Lemma exec_from_bol_later (ic : bool) (r : regex) (s skipped : string)
      (a : ascii) :
  exec_from ic (Seq Bol r) skipped (Some a) s = None.
Proof.
  revert skipped a; induction s as [|b s' IH]; intros skipped a;
    simpl; unfold match_at; simpl; [reflexivity|apply IH].
Qed.

(** So an anchored pattern matches at the start of the input or not at
    all. *)
Lemma exec_bol (ic : bool) (r : regex) (s : string) :
  exec (Pattern ic (Seq Bol r)) s
  = match_at ic (Seq Bol r) EmptyString (MState None s).
Proof.
  unfold exec; simpl ignore_case; simpl body.
  destruct s as [|a s']; simpl.
  - destruct (match_at ic (Seq Bol r) "" (MState None "")); reflexivity.
  - destruct (match_at ic (Seq Bol r) "" (MState None (String a s')));
      [reflexivity|apply exec_from_bol_later].
Qed.

Lemma cmatch_char (c a : ascii) : cmatch false (CChar c) a = true -> a = c.
Proof. simpl; intros H; apply Ascii.eqb_eq in H; congruence. Qed.

(** A successful run of [c r], for a literal character [c], starts on
    that character. *)
Lemma run_char_head {A : Type} (c : ascii) (r : regex) (st : mstate)
      (caps : captures) (k : mstate -> captures -> option A) (x : A) :
  run false (Seq (Cls (CChar c)) r) st caps k = Some x ->
  exists t, rest st = String c t
            /\ run false r (MState (Some c) t) caps k = Some x.
Proof.
  simpl; destruct (rest st) as [|a t]; [discriminate|].
  destruct (Ascii.eqb c a) eqn:E; [|discriminate].
  apply Ascii.eqb_eq in E; subst a; intros H; exists t; auto.
Qed.

End RegexFacts.

(** ** Dates *)

Module DateFacts.
Import Regex Utils Dates.

Lemma unrecognized_unfold (dateStr : string) :
  recognized dateStr = false ->
  exec monthNamePattern (Js.trim dateStr) = None
  /\ exec mmddyyyyPattern (Js.trim dateStr) = None
  /\ exec mmddyyyyDashPattern (Js.trim dateStr) = None
  /\ exec yyyymmddPattern (Js.trim dateStr) = None.
Proof.
  unfold recognized, normalizeDatePatterns, test; simpl existsb.
  destruct (exec monthNamePattern _); [discriminate|].
  destruct (exec mmddyyyyPattern _); [discriminate|].
  destruct (exec mmddyyyyDashPattern _); [discriminate|].
  destruct (exec yyyymmddPattern _); [discriminate|].
  auto.
Qed.

(** [C4], as stated, fails on an unrecognised input with white space
    around it: the input comes back trimmed. *)
Lemma normalizeDate_trims_unrecognized :
  recognized " pending " = false
  /\ normalizeDate " pending " = "pending"
  /\ ~ unrecognized_unchanged.
Proof.
  split; [vm_compute; reflexivity|].
  split; [vm_compute; reflexivity|].
  intros H; specialize (H " pending " eq_refl).
  vm_compute in H; discriminate.
Qed.

(** [C4], amended.  The five shapes of October 21, 2025 all give
    [21/10/2025], day and month are padded with a zero, and an input of
    none of the shapes comes back trimmed of the white space around it,
    so unchanged when it has none. *)
Theorem normalizeDate_shapes :
  normalizeDate "10/21/2025" = "21/10/2025"
  /\ normalizeDate "10-21-2025" = "21/10/2025"
  /\ normalizeDate "2025-10-21" = "21/10/2025"
  /\ normalizeDate "Oct 21, 2025" = "21/10/2025"
  /\ normalizeDate "October 21 2025" = "21/10/2025"
  /\ normalizeDate "1/2/2025" = "02/01/2025"
  /\ normalizeDate "Mar 5, 2025" = "05/03/2025"
  /\ (forall dateStr,
         recognized dateStr = false ->
         normalizeDate dateStr = Js.trim dateStr
         /\ (Js.trim dateStr = dateStr -> normalizeDate dateStr = dateStr)).
Proof.
  repeat (split; [vm_compute; reflexivity|]).
  intros dateStr H.
  destruct (unrecognized_unfold _ H) as (H1 & H2 & H3 & H4).
  assert (E : normalizeDate dateStr = Js.trim dateStr)
    by (unfold normalizeDate; rewrite H1, H2, H3, H4; reflexivity).
  split; [exact E|intros Ht; rewrite E; exact Ht].
Qed.

(** An input of none of the shapes, without and with white space around
    it. *)
Lemma normalizeDate_unrecognized_examples :
  normalizeDate "pending" = "pending"
  /\ normalizeDate " 21 Oct " = "21 Oct".
Proof.
  destruct normalizeDate_shapes as (_ & _ & _ & _ & _ & _ & _ & H).
  split.
  - apply (proj2 (H "pending" eq_refl) eq_refl).
  - apply (proj1 (H " 21 Oct " eq_refl)).
Defined.

End DateFacts.

(** ** Amounts in parentheses *)

Module AmountFacts.
Import Regex Utils JsFacts RegexFacts Amounts.

Lemma paren_head (s : string) :
  test parenAmountPattern s = true -> exists t, s = String "("%char t.
Proof.
  unfold test, parenAmountPattern, amountRegex.
  cbn [app cat two_decimals].
  rewrite exec_bol; unfold match_at.
  cbn [run prev rest].
  destruct s as [|a t]; [discriminate|].
  destruct (cmatch false (chr "(") a) eqn:E; [|discriminate].
  apply cmatch_char in E; subst a; eauto.
Qed.

Lemma dollar_paren_head (s : string) :
  test dollarParenAmountPattern s = true ->
  exists t, s = String "$"%char (String "("%char t).
Proof.
  unfold test, dollarParenAmountPattern, amountRegex.
  cbn [app cat two_decimals].
  rewrite exec_bol; unfold match_at.
  cbn [run prev rest].
  destruct s as [|a t]; [discriminate|].
  destruct (cmatch false dollar a) eqn:E; [|discriminate].
  apply cmatch_char in E; subst a.
  destruct t as [|b t]; [discriminate|].
  destruct (cmatch false (chr "(") b) eqn:E; [|discriminate].
  apply cmatch_char in E; subst b; eauto.
Qed.

Lemma ws_not_comma_or_dollar (a : ascii) :
  Js.is_ws a = true -> is_comma_or_dollar a = false.
Proof.
  destruct a as [[] [] [] [] [] [] [] []]; vm_compute; congruence.
Qed.

(** Cleaning commas and dollar signs away leaves a text that still starts,
    after its white space, with the parenthesis. *)
Lemma clean_paren (s t : string) :
  Js.trimStart s = String "("%char t ->
  exists t', Js.trimStart (Js.remove_chars is_comma_or_dollar s)
             = String "("%char t'.
Proof.
  induction s as [|a s' IH]; simpl; [discriminate|].
  destruct (Js.is_ws a) eqn:E.
  - intros H; rewrite (ws_not_comma_or_dollar _ E); simpl; rewrite E; auto.
  - intros H; injection H as -> ->; simpl; eauto.
Qed.

Lemma clean_dollar_paren (s t : string) :
  Js.trimStart s = String "$"%char (String "("%char t) ->
  exists t', Js.trimStart (Js.remove_chars is_comma_or_dollar s)
             = String "("%char t'.
Proof.
  induction s as [|a s' IH]; simpl; [discriminate|].
  destruct (Js.is_ws a) eqn:E.
  - intros H; rewrite (ws_not_comma_or_dollar _ E); simpl; rewrite E; auto.
  - intros H; injection H as -> ->; simpl; eauto.
Qed.

(** [parseFloat] of a text whose first character after the white space is
    a parenthesis is [NaN]. *)
Lemma parseFloat_paren (s t : string) :
  Js.trimStart s = String "("%char t -> parseFloat_text s = None.
Proof. unfold parseFloat_text; intros ->; reflexivity. Qed.

Lemma parenthesized_head (text : string) :
  parenthesized text = true ->
  exists t, Js.trimStart text = String "("%char t
            \/ Js.trimStart text = String "$"%char (String "("%char t).
Proof.
  unfold parenthesized; intros H; apply orb_true_iff in H as [H|H].
  - apply paren_head in H as [t H]; apply trim_head in H as [t' H]; eauto.
  - apply dollar_paren_head in H as [t H].
    pose proof H as H0; apply trim_head in H0 as [t' H'].
    unfold Js.trim in H; rewrite H' in H.
    apply trimEnd_second in H as [s' ->]; eauto.
Qed.

(** [C10] A text in one of the two parenthesised shapes is an amount for
    [isAmount], and [normalizeAmount] gives it back unchanged: decimal
    parsing fails on the parenthesis, so no two-decimal rendering is ever
    made. *)
Theorem normalizeAmount_parenthesized
        (toFixed2 : string -> string) (text : string) :
  parenthesized text = true ->
  isAmount text = true /\ normalizeAmount toFixed2 text = text.
Proof.
  intros H; split.
  - unfold isAmount.
    destruct text as [|a t].
    + vm_compute in H; discriminate.
    + unfold amountPatterns; simpl existsb.
      unfold parenthesized in H; apply orb_true_iff in H as [-> | ->];
        repeat rewrite orb_true_r; reflexivity.
  - unfold normalizeAmount.
    destruct (parenthesized_head _ H) as [t [Ht|Ht]].
    + apply clean_paren in Ht as [t' Ht].
      rewrite (parseFloat_paren _ _ Ht); reflexivity.
    + apply clean_dollar_paren in Ht as [t' Ht].
      rewrite (parseFloat_paren _ _ Ht); reflexivity.
Qed.

(** The two texts of the specification, whatever the rendering of
    numbers. *)
Lemma normalizeAmount_parenthesized_examples :
  (isAmount "(123.45)" = true
   /\ normalizeAmount (fun lit => lit) "(123.45)" = "(123.45)")
  /\ (isAmount "$(123.45)" = true
      /\ normalizeAmount (fun lit => lit) "$(123.45)" = "$(123.45)").
Proof.
  split.
  - apply (normalizeAmount_parenthesized (fun lit => lit) "(123.45)").
    vm_compute; reflexivity.
  - apply (normalizeAmount_parenthesized (fun lit => lit) "$(123.45)").
    vm_compute; reflexivity.
Defined.

End AmountFacts.

(** ** The columns of the CSV *)

Module ColumnFacts.
Import Csv Columns.

(** A column of the fixed list is emitted exactly when some record has
    data for it. *)
Lemma headersOf_spec (transactions : list record) (h : string) :
  In h (headersOf transactions) <->
  In h orderedHeaders
  /\ exists t, In t transactions /\ has_data h t = true.
Proof.
  unfold headersOf; rewrite filter_In, existsb_exists; reflexivity.
Qed.

(** The strings have data exactly when they are not empty. *)
Lemma has_data_string (h : string) (t : record) (s : string) :
  get h t = VStr s -> (has_data h t = true <-> s <> "").
Proof.
  unfold has_data; intros ->; simpl.
  rewrite andb_diag, negb_true_iff; apply JsFacts.eqb_empty_false.
Qed.

Lemma existsb_perm {A : Type} (f : A -> bool) (l l' : list A) :
  Permutation l l' -> existsb f l = existsb f l'.
Proof.
  intros HP; apply eq_true_iff_eq; rewrite !existsb_exists.
  split; intros (x & Hin & Hx); exists x; split; auto.
  - eapply Permutation_in; eauto.
  - eapply Permutation_in; [apply Permutation_sym|]; eauto.
Qed.

(** The columns and their order do not depend on the order of the
    records. *)
Lemma headersOf_perm (ts ts' : list record) :
  Permutation ts ts' -> headersOf ts = headersOf ts'.
Proof.
  intros HP; unfold headersOf; apply filter_ext.
  intros h; apply existsb_perm; exact HP.
Qed.

(** Nor does a field read depend on the order in which the keys of a
    record were inserted. *)
Lemma get_perm (k : string) (r r' : record) :
  NoDup (keys r) -> Permutation r r' -> get k r = get k r'.
Proof.
  intros Hnd HP; apply KeyFacts.keys_NoDup in Hnd.
  induction HP as [|[k1 v1] l l' HP IH
                   |[k1 v1] [k2 v2] l|l l' l'' HP1 IH1 HP2 IH2].
  - reflexivity.
  - simpl; destruct (String.eqb k1 k); [reflexivity|].
    apply IH; inversion Hnd; assumption.
  - simpl; destruct (String.eqb k1 k) eqn:E1, (String.eqb k2 k) eqn:E2;
      try reflexivity.
    apply String.eqb_eq in E1, E2; subst.
    inversion Hnd as [|? ? Hn _]; subst; exfalso; apply Hn; left; reflexivity.
  - rewrite IH1 by assumption; apply IH2.
    eapply Permutation_NoDup; [|exact Hnd].
    apply Permutation_map; exact HP1.
Qed.

(** The columns come in the order of the fixed list: date, accountType,
    description, vendor, amount, balance, reference. *)
Lemma headersOf_order (ts : list record) :
  exists keep : string -> bool, headersOf ts = filter keep orderedHeaders.
Proof. eexists; reflexivity. Qed.

Lemma convertToCSV_nil : convertToCSV [] = "".
Proof. reflexivity. Qed.

(** [C2] at a record whose type is not empty: no Type column is emitted,
    and none ever is, the fixed list of [js/csvExporter.js] having no
    such entry. *)
Theorem convertToCSV_never_emits_type :
  headersOf [interacPurchase]
  = [ "date"; "accountType"; "description"; "vendor"; "amount" ]
  /\ has_data "type" interacPurchase = true
  /\ forall ts, existsb (String.eqb "type") (headersOf ts) = false.
Proof.
  split; [reflexivity|split; [reflexivity|]].
  intros ts; unfold headersOf.
  destruct (existsb (String.eqb "type") (filter _ orderedHeaders)) eqn:E;
    [|reflexivity].
  apply existsb_exists in E as (h & Hin & Hh).
  apply String.eqb_eq in Hh; subst h.
  apply filter_In in Hin as [Hin _].
  simpl in Hin; repeat destruct Hin as [Hin|Hin]; try discriminate.
  contradiction.
Qed.

End ColumnFacts.

(** ** Reading back what the serialiser wrote *)

Module ReaderFacts.
Import Csv JsFacts Reader.

Lemma has_char_cons (c a : ascii) (t : string) :
  Js.has_char c (String a t) = Ascii.eqb a c || Js.has_char c t.
Proof.
  unfold Js.has_char; simpl.
  destruct (ascii_dec c a) as [->|Hn].
  - rewrite Ascii.eqb_refl; destruct t; reflexivity.
  - assert (E : Ascii.eqb a c = false)
      by (apply Ascii.eqb_neq; congruence).
    rewrite E; reflexivity.
Qed.

Lemma has_char_nil (c : ascii) : Js.has_char c "" = false.
Proof. reflexivity. Qed.

Lemma needs_quotes_cons (a : ascii) (t : string) :
  needs_quotes (String a t) = special a || needs_quotes t.
Proof.
  unfold needs_quotes, special; rewrite !has_char_cons.
  destruct (Ascii.eqb a comma), (Ascii.eqb a quote), (Ascii.eqb a newline),
    (Js.has_char comma t), (Js.has_char quote t); reflexivity.
Qed.

Lemma special_false (a : ascii) :
  special a = false ->
  Ascii.eqb a comma = false /\ Ascii.eqb a quote = false
  /\ Ascii.eqb a newline = false.
Proof.
  unfold special.
  destruct (Ascii.eqb a comma), (Ascii.eqb a quote), (Ascii.eqb a newline);
    simpl; intros; try discriminate; auto.
Qed.

Lemma snoc_append (field : string) (a : ascii) (t : string) :
  snoc field a ++ t = field ++ String a t.
Proof.
  unfold snoc; induction field as [|b f IH]; simpl; [reflexivity|].
  rewrite IH; reflexivity.
Qed.

Lemma append_empty_r (s : string) : s ++ "" = s.
Proof. induction s as [|a s IH]; simpl; [|rewrite IH]; reflexivity. Qed.

Lemma append_assoc (s t u : string) : (s ++ t) ++ u = s ++ (t ++ u).
Proof. induction s as [|a s IH]; simpl; [|rewrite IH]; reflexivity. Qed.

(** An unquoted field is read up to its end. *)
Lemma read_bare (v field : string) (fields : list string)
      (records : list (list string)) (rest : string) :
  needs_quotes v = false ->
  read Bare field fields records (v ++ rest)
  = read Bare (field ++ v) fields records rest.
Proof.
  revert field; induction v as [|a v IH]; intros field H; simpl.
  - rewrite append_empty_r; reflexivity.
  - rewrite needs_quotes_cons in H; apply orb_false_iff in H as [Ha Hv].
    apply special_false in Ha as (-> & _ & ->).
    rewrite IH by exact Hv; rewrite snoc_append; reflexivity.
Qed.

Lemma quoted_unfold (v rest : string) :
  quoted v ++ rest = String quote (escape v ++ String quote rest).
Proof.
  unfold quoted, escape; simpl; rewrite append_assoc; reflexivity.
Qed.

(** A quoted field is read up to its closing quote, two quotes inside it
    giving one. *)
Lemma read_in_quotes (v field : string) (fields : list string)
      (records : list (list string)) (rest : string) :
  read InQuotes field fields records (escape v ++ String quote rest)
  = read QuoteSeen (field ++ v) fields records rest.
Proof.
  revert field; induction v as [|a v IH]; intros field.
  - simpl; rewrite append_empty_r; reflexivity.
  - unfold escape; simpl Js.replace_char; fold (escape v).
    destruct (Ascii.eqb a quote) eqn:E.
    + apply Ascii.eqb_eq in E; subst a; simpl.
      rewrite IH, snoc_append; reflexivity.
    + simpl; rewrite E, IH, snoc_append; reflexivity.
Qed.

Lemma after_quote_as_bare (v : string) (fields : list string)
      (records : list (list string)) (rest : string) :
  delimited rest ->
  read QuoteSeen v fields records rest = read Bare v fields records rest.
Proof. intros [->|[t [->| ->]]]; reflexivity. Qed.

Lemma field_start_as_bare (fields : list string)
      (records : list (list string)) (rest : string) :
  delimited rest ->
  read FieldStart "" fields records rest = read Bare "" fields records rest.
Proof. intros [->|[t [->| ->]]]; reflexivity. Qed.

(** One cell read back. *)
Lemma read_written (v e : string) (fields : list string)
      (records : list (list string)) (rest : string) :
  written v e ->
  delimited rest ->
  read FieldStart "" fields records (e ++ rest)
  = read Bare v fields records rest.
Proof.
  intros [->|[-> Hv]] Hd.
  - rewrite quoted_unfold; simpl; rewrite read_in_quotes; simpl.
    apply after_quote_as_bare; exact Hd.
  - destruct v as [|a v]; [apply field_start_as_bare; exact Hd|].
    rewrite needs_quotes_cons in Hv; apply orb_false_iff in Hv as [Ha Hv].
    apply special_false in Ha as (Ec & Eq & En); simpl.
    rewrite Ec, Eq, En, read_bare by exact Hv; reflexivity.
Qed.

Lemma read_bare_comma (v : string) (fields : list string)
      (records : list (list string)) (t : string) :
  read Bare v fields records (String comma t)
  = read FieldStart "" (fields ++ [v])%list records t.
Proof. reflexivity. Qed.

Lemma read_bare_newline (v : string) (fields : list string)
      (records : list (list string)) (t : string) :
  read Bare v fields records (String newline t)
  = read FieldStart "" [] (records ++ [fields ++ [v]])%list t.
Proof. reflexivity. Qed.

Lemma read_bare_end (v : string) (fields : list string)
      (records : list (list string)) :
  read Bare v fields records "" = (records ++ [fields ++ [v]])%list.
Proof. reflexivity. Qed.

Lemma ends_line_delimited (rest : string) : ends_line rest -> delimited rest.
Proof. intros [->|[t ->]]; [left|right; exists t; right]; reflexivity. Qed.

Lemma read_bare_close (v : string) (fields : list string)
      (records : list (list string)) (rest : string) :
  ends_line rest ->
  read Bare v fields records rest = close (fields ++ [v])%list records rest.
Proof. intros [->|[t ->]]; reflexivity. Qed.

(** One line read back: the values [v :: vs] written as [e :: es]. *)
Lemma read_line (vs es : list string) :
  Forall2 written vs es ->
  forall v e fields records rest,
    written v e ->
    ends_line rest ->
    read FieldStart "" fields records (String.concat "," (e :: es) ++ rest)
    = close (fields ++ v :: vs)%list records rest.
Proof.
  induction 1 as [|v' e' vs es Hw HF IH]; intros v e fields records rest Hv Hr.
  - simpl String.concat.
    rewrite (read_written v e) by
        (solve [exact Hv | apply ends_line_delimited; exact Hr]).
    apply read_bare_close; exact Hr.
  - change (String.concat "," (e :: e' :: es))
      with (e ++ "," ++ String.concat "," (e' :: es)).
    rewrite !append_assoc.
    rewrite (read_written v e) by
        (solve [exact Hv | right; eexists; left; reflexivity]).
    change ("," ++ String.concat "," (e' :: es) ++ rest)
      with (String comma (String.concat "," (e' :: es) ++ rest)).
    rewrite read_bare_comma, (IH v' e') by assumption.
    rewrite <- app_assoc; reflexivity.
Qed.

(** A whole document read back: the lines [vs :: vss] written as
    [es :: ess]. *)
Lemma read_document (vss ess : list (list string)) :
  Forall2 line_written vss ess ->
  forall vs es records,
    line_written vs es ->
    read FieldStart "" [] records
         (join_lines (map (String.concat ",") (es :: ess)))
    = (records ++ vs :: vss)%list.
Proof.
  unfold join_lines.
  induction 1 as [|vs' es' vss ess Hl HF IH]; intros vs es records [Hne Hw].
  - destruct Hw as [|v e vs es Hv Hw]; [congruence|].
    change (String.concat (String newline "")
              (map (String.concat ",") [e :: es]))
      with (String.concat "," (e :: es)).
    rewrite <- (append_empty_r (String.concat "," (e :: es))).
    rewrite (read_line _ _ Hw v e) by (auto; left; reflexivity).
    reflexivity.
  - destruct Hw as [|v e vs es Hv Hw]; [congruence|].
    change (map (String.concat ",") ((e :: es) :: es' :: ess))
      with (String.concat "," (e :: es)
              :: map (String.concat ",") (es' :: ess)).
    change (String.concat (String newline "")
              (String.concat "," (e :: es)
                 :: map (String.concat ",") (es' :: ess)))
      with (String.concat "," (e :: es)
              ++ String newline
                   (String.concat (String newline "")
                      (map (String.concat ",") (es' :: ess)))).
    rewrite (read_line _ _ Hw v e)
      by (auto; right; eexists; reflexivity).
    unfold close; rewrite (IH vs' es') by exact Hl.
    rewrite <- app_assoc; reflexivity.
Qed.

(** The reader inverts the writer. *)
Lemma parseCSV_written (vss ess : list (list string)) :
  vss <> [] ->
  Forall2 line_written vss ess ->
  parseCSV (join_lines (map (String.concat ",") ess)) = vss.
Proof.
  intros Hne HF; destruct HF as [|vs es vss ess Hl HF]; [congruence|].
  unfold parseCSV; rewrite (read_document _ _ HF vs es) by exact Hl.
  reflexivity.
Qed.

(** What is read is kept: the records read so far, and the fields read
    so far of the record being read. *)
Lemma read_keeps (input : string) :
  forall m field fields records,
  exists tail more,
    read m field fields records input
    = (records ++ (fields ++ tail) :: more)%list.
Proof.
  induction input as [|a t IH]; intros m field fields records.
  - exists [field], []; reflexivity.
  - assert (Hcomma : exists tail more,
               read FieldStart "" (fields ++ [field])%list records t
               = (records ++ (fields ++ tail) :: more)%list).
    { destruct (IH FieldStart "" (fields ++ [field])%list records)
        as (tail & more & E).
      exists (field :: tail), more; rewrite E, <- app_assoc; reflexivity. }
    assert (Hline : exists tail more,
               read FieldStart "" [] (records ++ [fields ++ [field]])%list t
               = (records ++ (fields ++ tail) :: more)%list).
    { destruct (IH FieldStart "" [] (records ++ [fields ++ [field]])%list)
        as (tail & more & E).
      exists [field], ((tail : list string) :: more).
      rewrite E, <- app_assoc; reflexivity. }
    destruct m; cbn [read];
      repeat match goal with
             | |- context [if ?b then _ else _] => destruct b
             end;
      try exact Hcomma; try exact Hline; apply IH.
Qed.

(** The cells of the start of a line read back, whatever follows them. *)
Lemma read_cells (vs es : list string) :
  Forall2 written vs es ->
  forall v e fields records rest,
    written v e ->
    delimited rest ->
    exists tail more,
      read FieldStart "" fields records (String.concat "," (e :: es) ++ rest)
      = (records ++ ((fields ++ v :: vs) ++ tail) :: more)%list.
Proof.
  induction 1 as [|v' e' vs es Hw HF IH]; intros v e fields records rest Hv Hr.
  - simpl String.concat.
    rewrite (read_written v e) by assumption.
    destruct Hr as [->|[t [->| ->]]].
    + exists [], []; rewrite app_nil_r; reflexivity.
    + rewrite read_bare_comma.
      destruct (read_keeps t FieldStart "" (fields ++ [v])%list records)
        as (tail & more & E).
      exists tail, more; exact E.
    + rewrite read_bare_newline.
      destruct (read_keeps t FieldStart "" []
                           (records ++ [fields ++ [v]])%list)
        as (tail & more & E).
      exists [], ((tail : list string) :: more).
      rewrite E, app_nil_r, <- app_assoc; reflexivity.
  - change (String.concat "," (e :: e' :: es))
      with (e ++ "," ++ String.concat "," (e' :: es)).
    rewrite !append_assoc.
    rewrite (read_written v e) by
        (solve [exact Hv | right; eexists; left; reflexivity]).
    change ("," ++ String.concat "," (e' :: es) ++ rest)
      with (String comma (String.concat "," (e' :: es) ++ rest)).
    rewrite read_bare_comma.
    destruct (IH v' e' (fields ++ [v])%list records rest Hw Hr)
      as (tail & more & E).
    exists tail, more; rewrite E, <- !app_assoc; reflexivity.
Qed.


Lemma join_lines_cons (l : string) (lines : list string) :
  join_lines (l :: lines) = l ++ following lines.
Proof.
  unfold join_lines, following; destruct lines as [|l' lines];
    cbn [String.concat]; [rewrite append_empty_r|]; reflexivity.
Qed.

Lemma join_lines_app (before : list string) (l : string)
      (after : list string) :
  join_lines (before ++ l :: after) = ended before ++ l ++ following after.
Proof.
  induction before as [|b before IH]; cbn [app ended].
  - apply join_lines_cons.
  - rewrite join_lines_cons.
    assert (E : following (before ++ l :: after)
                = String newline (join_lines (before ++ l :: after)))
      by (destruct before; reflexivity).
    rewrite E, IH, append_assoc; reflexivity.
Qed.

Lemma following_ends_line (lines : list string) : ends_line (following lines).
Proof.
  destruct lines; [left; reflexivity|right; eexists; reflexivity].
Qed.

(** Whole lines read back, whatever follows them. *)
Lemma read_ended (vss ess : list (list string)) :
  Forall2 line_written vss ess ->
  forall records rest,
    read FieldStart "" [] records
         (ended (map (String.concat ",") ess) ++ rest)
    = read FieldStart "" [] (records ++ vss)%list rest.
Proof.
  induction 1 as [|vs es vss ess [Hne Hw] HF IH]; intros records rest;
    cbn [map ended append].
  - rewrite app_nil_r; reflexivity.
  - destruct Hw as [|v e vs es Hv Hw]; [congruence|].
    rewrite append_assoc.
    rewrite (read_line _ _ Hw v e)
      by (solve [exact Hv | right; eexists; reflexivity]).
    cbn [append close app]; rewrite IH, <- app_assoc; reflexivity.
Qed.

Lemma concat_comma_app (a : string) (before after : list string) :
  String.concat "," ((a :: before) ++ after)
  = String.concat "," (a :: before)
    ++ match after with
       | [] => ""
       | _ => String comma (String.concat "," after)
       end.
Proof.
  revert a; induction before as [|b before IH]; intros a.
  - destruct after as [|c after]; cbn [app String.concat];
      [rewrite append_empty_r|]; reflexivity.
  - change (String.concat "," ((a :: b :: before) ++ after))
      with (a ++ "," ++ String.concat "," ((b :: before) ++ after)).
    rewrite IH.
    change (String.concat "," (a :: b :: before))
      with (a ++ "," ++ String.concat "," (b :: before)).
    rewrite !append_assoc; reflexivity.
Qed.

End ReaderFacts.

(** ** The rows of the CSV *)

Module RowFacts.
Import Csv JsFacts ReaderFacts ColumnFacts Rows Reader Columns.

Lemma strip_commas_no_comma (v : string) :
  Js.has_char comma (strip_commas v) = false.
Proof.
  unfold strip_commas; induction v as [|a v IH]; [reflexivity|].
  simpl; destruct (Ascii.eqb a comma) eqn:E; [exact IH|].
  rewrite has_char_cons, E, IH; reflexivity.
Qed.

Lemma strip_commas_other (c : ascii) (v : string) :
  Js.has_char c v = false -> Js.has_char c (strip_commas v) = false.
Proof.
  unfold strip_commas; induction v as [|a v IH]; [reflexivity|].
  rewrite has_char_cons; intros H; apply orb_false_iff in H as [Ha Hv].
  simpl; destruct (Ascii.eqb a comma); [apply IH; exact Hv|].
  rewrite has_char_cons, Ha, IH by exact Hv; reflexivity.
Qed.

Lemma length_append (s t : string) :
  String.length (s ++ t) = String.length s + String.length t.
Proof. induction s as [|a s IH]; simpl; [|rewrite IH]; reflexivity. Qed.

Lemma escape_length (v : string) :
  String.length v <= String.length (escape v).
Proof.
  unfold escape; induction v as [|a v IH]; simpl; [lia|].
  destruct (Ascii.eqb a quote); simpl; lia.
Qed.

(** Wrapping in quotes changes every value. *)
Lemma quoted_differs (v : string) : quoted v <> v.
Proof.
  intros H; apply (f_equal String.length) in H.
  unfold quoted in H; simpl in H; rewrite length_append in H; simpl in H.
  pose proof (escape_length v) as Hl; unfold escape in Hl; lia.
Qed.

Lemma cell_date (t : record) : cell "date" t = quoted (valueOf "date" t).
Proof. reflexivity. Qed.

Lemma cell_amount (h : string) (t : record) :
  h = "amount" \/ h = "balance" -> cell h t = strip_commas (valueOf h t).
Proof. intros [-> | ->]; reflexivity. Qed.

Lemma cell_other (h : string) (t : record) :
  h <> "date" -> h <> "amount" -> h <> "balance" ->
  cell h t = if needs_quotes (valueOf h t)
             then quoted (valueOf h t) else valueOf h t.
Proof.
  intros Hd Ha Hb; unfold cell.
  apply String.eqb_neq in Hd, Ha, Hb; rewrite Hd, Ha, Hb; reflexivity.
Qed.

Lemma label_plain (h : string) :
  In h orderedHeaders -> written (label h) (label h).
Proof.
  intros Hin; right; split; [reflexivity|].
  simpl in Hin; repeat destruct Hin as [<-|Hin]; try reflexivity.
  contradiction.
Qed.

Lemma cell_written (ts : list record) (t : record) (h : string) :
  plain_amounts ts = true -> In t ts -> In h orderedHeaders ->
  written (read_back h t) (cell h t).
Proof.
  intros Hp Ht Hh; unfold plain_amounts in Hp.
  rewrite forallb_forall in Hp; specialize (Hp t Ht).
  simpl in Hp; rewrite andb_true_r in Hp.
  apply andb_true_iff in Hp as [Ha Hb].
  apply andb_true_iff in Ha as [Ha1 Ha2], Hb as [Hb1 Hb2].
  apply negb_true_iff in Ha1, Ha2, Hb1, Hb2.
  assert (Hplain : forall v, Js.has_char quote v = false ->
                             Js.has_char newline v = false ->
                             needs_quotes (strip_commas v) = false).
  { intros v Hq Hn; unfold needs_quotes.
    rewrite strip_commas_no_comma, !strip_commas_other by assumption.
    reflexivity. }
  simpl in Hh; repeat destruct Hh as [<-|Hh]; try contradiction;
    try (left; reflexivity);
    try (unfold written, read_back, cell; simpl orb; cbv iota;
         destruct (needs_quotes _) eqn:E; [left|right]; auto; fail).
  - right; split; [reflexivity|apply Hplain; assumption].
  - right; split; [reflexivity|apply Hplain; assumption].
Qed.

Lemma Forall2_map {A B C : Type} (R : B -> C -> Prop) (f : A -> B)
      (g : A -> C) (l : list A) :
  (forall x, In x l -> R (f x) (g x)) -> Forall2 R (map f l) (map g l).
Proof.
  induction l as [|a l IH]; intros H; simpl; constructor.
  - apply H; left; reflexivity.
  - apply IH; intros x Hx; apply H; right; exact Hx.
Qed.

Lemma headersOf_sub (ts : list record) (h : string) :
  In h (headersOf ts) -> In h orderedHeaders.
Proof. intros H; apply headersOf_spec in H as [H _]; exact H. Qed.

(** Everything written is read back: the labels, and for every record
    the value of every column. *)
Lemma parseCSV_convertToCSV (ts : list record) :
  ts <> [] -> headersOf ts <> [] -> plain_amounts ts = true ->
  parseCSV (convertToCSV ts)
  = map label (headersOf ts)
      :: map (fun t => map (fun h => read_back h t) (headersOf ts)) ts.
Proof.
  intros Hts Hhs Hp.
  assert (E : convertToCSV ts
              = join_lines
                  (map (String.concat ",")
                     (map label (headersOf ts)
                        :: map (fun t => map (fun h => cell h t)
                                             (headersOf ts)) ts))).
  { destruct ts as [|t ts']; [congruence|].
    unfold convertToCSV, row.
    cbn [map]; rewrite !map_map; reflexivity. }
  rewrite E; apply parseCSV_written; [discriminate|].
  constructor.
  - split; [destruct (headersOf ts); [congruence|discriminate]|].
    rewrite <- (map_id (map label (headersOf ts))) at 1; rewrite map_map.
    apply Forall2_map; intros h Hh; apply label_plain.
    apply headersOf_sub in Hh; exact Hh.
  - apply Forall2_map; intros t Ht; split.
    + destruct (headersOf ts); [congruence|discriminate].
    + apply Forall2_map; intros h Hh.
      apply (cell_written ts); auto; apply headersOf_sub in Hh; exact Hh.
Qed.

Lemma convertToCSV_lines (ts : list record) :
  ts <> [] ->
  convertToCSV ts
  = join_lines
      (map (String.concat ",")
           (map label (headersOf ts)
              :: map (fun t => map (fun h => cell h t) (headersOf ts)) ts)).
Proof.
  destruct ts as [|t ts']; [congruence|]; intros _.
  unfold convertToCSV, row.
  cbn [map]; rewrite !map_map; reflexivity.
Qed.

(** The row of a record is read back as far as its cells are written as
    the reader expects, when the rows before it are. *)
Lemma row_prefix (pre post : list record) (t : record)
      (hs1 hs2 : list string) :
  headersOf (pre ++ t :: post) = (hs1 ++ hs2)%list ->
  hs1 <> [] ->
  plain_amounts pre = true ->
  (forall h, In h hs1 -> written (read_back h t) (cell h t)) ->
  exists tail more,
    parseCSV (convertToCSV (pre ++ t :: post))
    = ((map label (headersOf (pre ++ t :: post))
          :: map (fun t' => map (fun h => read_back h t')
                                (headersOf (pre ++ t :: post))) pre)
         ++ (map (fun h => read_back h t) hs1 ++ tail) :: more)%list.
Proof.
  intros Hhs Hne Hp Hw.
  set (ts := (pre ++ t :: post)%list) in *.
  set (hs := headersOf ts) in *.
  assert (Hin : forall h, In h hs -> In h orderedHeaders)
    by (intros h Hh; apply (headersOf_sub ts), Hh).
  assert (Hnil : hs <> [])
    by (rewrite Hhs; destruct hs1; [congruence|discriminate]).
  rewrite convertToCSV_lines by (subst ts; destruct pre; discriminate).
  fold hs; unfold ts at 1.
  rewrite map_app; cbn [map].
  rewrite map_app; cbn [map].
  rewrite app_comm_cons, join_lines_app; unfold parseCSV.
  change (String.concat "," (map label hs)
            :: map (String.concat ",")
                   (map (fun t0 => map (fun h => cell h t0) hs) pre))
    with (map (String.concat ",")
              (map label hs
                 :: map (fun t0 => map (fun h => cell h t0) hs) pre)).
  rewrite (read_ended
             (map label hs
                :: map (fun t' => map (fun h => read_back h t') hs) pre)).
  - assert (Erow : map (fun h => cell h t) hs
                   = (map (fun h => cell h t) hs1
                      ++ map (fun h => cell h t) hs2)%list)
      by (rewrite Hhs; apply map_app).
    rewrite Erow; clear Erow.
    destruct hs1 as [|h1 hs1]; [congruence|]; cbn [map].
    rewrite concat_comma_app, append_assoc.
    cbn [app].
    match goal with
    | |- exists tail more, read _ _ _ ?records (_ ++ ?rest) = _ =>
        destruct (read_cells (map (fun h => read_back h t) hs1)
                             (map (fun h => cell h t) hs1)
                             (Forall2_map _ _ _ hs1
                                (fun h Hh => Hw h (or_intror Hh)))
                             (read_back h1 t) (cell h1 t) [] records rest)
          as (tail & more & E)
    end.
    + apply Hw; left; reflexivity.
    + destruct (map (fun h => cell h t) hs2).
      * cbn [append]; apply ends_line_delimited, following_ends_line.
      * right; eexists; left; reflexivity.
    + exists tail, more; rewrite E; reflexivity.
  - constructor.
    + split; [destruct hs; [congruence|discriminate]|].
      rewrite <- (map_id (map label hs)) at 1; rewrite map_map.
      apply Forall2_map; intros h Hh; apply label_plain, Hin, Hh.
    + apply Forall2_map; intros t' Ht'; split.
      * destruct hs; [congruence|discriminate].
      * apply Forall2_map; intros h Hh.
        apply (cell_written pre); auto.
Qed.


Lemma position_In (h : string) (l : list string) :
  In h l -> exists j, position h l = Some j /\ nth_error l j = Some h.
Proof.
  induction l as [|a l IH]; intros Hin; [destruct Hin|].
  cbn [position]; destruct (String.eqb a h) eqn:E.
  - apply String.eqb_eq in E; subst; exists 0; split; reflexivity.
  - destruct Hin as [->|Hin]; [rewrite String.eqb_refl in E; discriminate|].
    destruct (IH Hin) as (j & -> & Hj).
    exists (S j); split; [reflexivity|exact Hj].
Qed.

Lemma position_app (h : string) (l l' : list string) (j : nat) :
  position h l = Some j -> position h (l ++ l') = Some j.
Proof.
  revert j; induction l as [|a l IH]; intros j; cbn [position app];
    [discriminate|].
  destruct (String.eqb a h); [auto|].
  destruct (position h l) as [i|]; [|discriminate].
  rewrite (IH i eq_refl); auto.
Qed.

(** The labels tell the columns apart as their names do. *)
Lemma label_eqb (a h : string) :
  In a orderedHeaders -> In h orderedHeaders ->
  String.eqb (label a) (label h) = String.eqb a h.
Proof.
  intros Ha Hh; simpl in Ha, Hh.
  repeat destruct Ha as [<-|Ha]; try contradiction;
    repeat destruct Hh as [<-|Hh]; try contradiction; reflexivity.
Qed.

Lemma position_label (h : string) (l : list string) :
  incl l orderedHeaders -> In h orderedHeaders ->
  position (label h) (map label l) = position h l.
Proof.
  intros Hl Hh; induction l as [|a l IH]; [reflexivity|].
  cbn [map position]; rewrite label_eqb;
    [|apply Hl; left; reflexivity|exact Hh].
  rewrite IH; [reflexivity|].
  intros x Hx; apply Hl; right; exact Hx.
Qed.

Lemma orderedHeaders_early :
  orderedHeaders = (early ++ [ "amount"; "balance"; "reference" ])%list.
Proof. reflexivity. Qed.

(** The cells before the amount are written as the reader expects. *)
Lemma cell_written_early (t : record) (h : string) :
  In h early -> written (read_back h t) (cell h t).
Proof.
  intros Hh; simpl in Hh; repeat destruct Hh as [<-|Hh]; try contradiction;
    try (left; reflexivity);
    unfold written, read_back, cell; simpl orb; cbv iota;
    destruct (needs_quotes _) eqn:E; [left|right|left|right|left|right];
    auto.
Qed.

Lemma read_back_early (t : record) (h : string) :
  In h early -> read_back h t = valueOf h t.
Proof.
  intros Hh; simpl in Hh; repeat destruct Hh as [<-|Hh]; try contradiction;
    reflexivity.
Qed.

(** What is read back under a column in the row of a record, the rows
    before it being written as the reader expects: the value of a column
    before the amount, and the value of any column when the amount and
    the balance of the record hold no quote and no line feed. *)
Lemma lookup_read_back (pre post : list record) (t : record) (h : string) :
  plain_amounts pre = true ->
  In h (headersOf (pre ++ t :: post)) ->
  In h early \/ plain_amounts [t] = true ->
  lookup (parseCSV (convertToCSV (pre ++ t :: post))) (List.length pre)
         (label h)
  = Some (read_back h t).
Proof.
  intros Hp Hh Hcase.
  set (ts := (pre ++ t :: post)%list) in *.
  assert (Hsplit : exists hs1 hs2,
             headersOf ts = (hs1 ++ hs2)%list /\ In h hs1
             /\ forall h', In h' hs1 ->
                           written (read_back h' t) (cell h' t)).
  { destruct Hcase as [He|Ht].
    - exists (filter (fun header => existsb (has_data header) ts) early),
             (filter (fun header => existsb (has_data header) ts)
                     [ "amount"; "balance"; "reference" ]).
      split; [unfold headersOf; rewrite orderedHeaders_early;
              apply filter_app|].
      split.
      + apply filter_In; split; [exact He|].
        unfold headersOf in Hh; apply filter_In in Hh; tauto.
      + intros h' Hh'; apply filter_In in Hh' as [Hh' _].
        apply cell_written_early, Hh'.
    - exists (headersOf ts), []; rewrite app_nil_r.
      split; [reflexivity|split; [exact Hh|]].
      intros h' Hh'; apply (cell_written [t]);
        [exact Ht|left; reflexivity|apply (headersOf_sub ts), Hh']. }
  destruct Hsplit as (hs1 & hs2 & Hhs & Hin & Hw).
  destruct (row_prefix pre post t hs1 hs2 Hhs) as (tail & more & E);
    [destruct hs1; [destruct Hin|discriminate]|exact Hp|exact Hw|].
  fold ts in E; rewrite E; cbn [app lookup].
  rewrite position_label;
    [|intros x Hx; apply (headersOf_sub ts), Hx
     |apply (headersOf_sub ts), Hh].
  destruct (position_In h hs1 Hin) as (j & Hj & Hnth).
  rewrite Hhs, (position_app _ _ _ _ Hj).
  rewrite nth_error_app2 by (rewrite length_map; lia).
  rewrite length_map, Nat.sub_diag; cbn [nth_error].
  rewrite nth_error_app1
    by (rewrite length_map; apply nth_error_Some; congruence).
  rewrite (map_nth_error _ _ _ Hnth); reflexivity.
Qed.

(** A vendor that holds a comma has a column, and is read back as it
    is. *)
Lemma lookup_vendor (pre post : list record) (t : record) (v : string) :
  plain_amounts pre = true ->
  get "vendor" t = VStr v ->
  Js.has_char comma v = true ->
  lookup (parseCSV (convertToCSV (pre ++ t :: post))) (List.length pre)
         "Vendor/Payee"
  = Some v.
Proof.
  intros Hp Hv Hc.
  assert (Hne : v <> "") by (intros ->; discriminate).
  assert (Hval : read_back "vendor" t = v).
  { unfold read_back, valueOf; cbn [String.eqb Ascii.eqb Bool.eqb orb].
    rewrite Hv; unfold or_else; cbn [truthy].
    destruct (String.eqb v "") eqn:E;
      [apply String.eqb_eq in E; congruence|reflexivity]. }
  rewrite <- Hval; apply (lookup_read_back pre post t "vendor" Hp).
  - apply headersOf_spec; split; [cbn; tauto|].
    exists t; split; [apply in_elt|].
    apply (has_data_string _ _ _ Hv), Hne.
  - left; cbn; tauto.
Qed.

(** [C5], as stated, fails: an amount is written bare, so after a record
    whose amount starts with a quote the reader finds one row where two
    were written, and nothing under the vendor for the second record. *)
Lemma vendor_lost_after_quote :
  convertToCSV [quoteInAmount; doeJane]
  = join_lines
      [ "Date,Account Type,Description,Vendor/Payee,Amount";
        String.concat ","
          [ quoted "20/10/2025"; "debit"; "Transfer"; quoted "Smith, John";
            String quote "1250.00" ];
        String.concat ","
          [ quoted "22/10/2025"; "debit"; "Purchase"; quoted "Doe, Jane";
            "$20.00" ] ]
  /\ parseCSV (convertToCSV [quoteInAmount; doeJane])
     = [ [ "Date"; "Account Type"; "Description"; "Vendor/Payee"; "Amount" ];
         [ "20/10/2025"; "debit"; "Transfer"; "Smith, John";
           "1250.00" ++ String newline ("22/10/2025" ++ String quote "");
           "debit"; "Purchase"; "Doe, Jane"; "$20.00" ] ]
  /\ lookup (parseCSV (convertToCSV [quoteInAmount; doeJane])) 1
            "Vendor/Payee"
     = None
  /\ ~ vendor_recovered.
Proof.
  split; [vm_compute; reflexivity|].
  split; [vm_compute; reflexivity|].
  split; [vm_compute; reflexivity|].
  intros H.
  specialize (H [quoteInAmount; doeJane] 1 doeJane "Doe, Jane"
                eq_refl eq_refl eq_refl).
  vm_compute in H; discriminate H.
Qed.

(** [C5], amended.  In a row, the date is always wrapped in quotes with
    its quotes doubled; an amount or a balance is written without its
    commas and without quotes around it; any other field is wrapped,
    quotes doubled, exactly when it holds a comma, a quote or a line feed.
    Read back by the standard quoting rule, the output gives, in the row
    of a record that no amount or balance with a quote or a line feed
    comes before, the value of every column before the amount, a vendor
    with a comma included, and the value of every column when the amount
    and the balance of the record hold none either; and it gives every
    value of every record when no amount and no balance holds one. *)
Theorem convertToCSV_rows (ts : list record) :
  (forall t,
      cell "date" t = quoted (valueOf "date" t)
      /\ cell "date" t <> valueOf "date" t
      /\ (forall h, h = "amount" \/ h = "balance" ->
                    cell h t = strip_commas (valueOf h t)
                    /\ Js.has_char comma (cell h t) = false)
      /\ (forall h, h <> "date" -> h <> "amount" -> h <> "balance" ->
                    (needs_quotes (valueOf h t) = true ->
                     cell h t = quoted (valueOf h t))
                    /\ (needs_quotes (valueOf h t) = false ->
                        cell h t = valueOf h t
                        /\ cell h t <> quoted (valueOf h t))))
  /\ (forall pre t post h,
         ts = (pre ++ t :: post)%list ->
         plain_amounts pre = true ->
         In h (headersOf ts) ->
         In h early \/ plain_amounts [t] = true ->
         lookup (parseCSV (convertToCSV ts)) (List.length pre) (label h)
         = Some (read_back h t))
  /\ (forall pre t post v,
         ts = (pre ++ t :: post)%list ->
         plain_amounts pre = true ->
         get "vendor" t = VStr v ->
         Js.has_char comma v = true ->
         lookup (parseCSV (convertToCSV ts)) (List.length pre)
                "Vendor/Payee"
         = Some v)
  /\ (ts <> [] -> headersOf ts <> [] -> plain_amounts ts = true ->
      parseCSV (convertToCSV ts)
      = map label (headersOf ts)
          :: map (fun t => map (fun h => read_back h t) (headersOf ts)) ts).
Proof.
  split; [|split; [|split; [|apply parseCSV_convertToCSV]]].
  - intros t; split; [apply cell_date|].
    split; [rewrite cell_date; apply quoted_differs|].
    split.
    + intros h Hh; rewrite (cell_amount h t Hh); split; [reflexivity|].
      apply strip_commas_no_comma.
    + intros h Hd Ha Hb; rewrite (cell_other h t Hd Ha Hb).
      split; intros ->; [reflexivity|].
      split; [reflexivity|].
      intros H; symmetry in H; revert H; apply quoted_differs.
  - intros pre t post h ->; apply lookup_read_back.
  - intros pre t post v ->; apply lookup_vendor.
Qed.

(** The record of the specification: the vendor with its comma comes back
    as it was, and the date, which needs no quotes, is quoted all the
    same.  And the vendor comes back from a record whose own amount
    starts with a quote, after a record whose amount is plain. *)
Lemma convertToCSV_smith_john :
  parseCSV (convertToCSV [smithJohn])
  = [ [ "Date"; "Account Type"; "Description"; "Vendor/Payee"; "Amount" ];
      [ "21/10/2025"; "debit"; "Transfer"; "Smith, John"; "$1250.00" ] ]
  /\ needs_quotes (valueOf "date" smithJohn) = false
  /\ cell "date" smithJohn = quoted "21/10/2025"
  /\ lookup (parseCSV (convertToCSV [smithJohn])) 0 "Vendor/Payee"
     = Some "Smith, John"
  /\ lookup (parseCSV (convertToCSV [doeJane; quoteInAmount])) 1
            "Vendor/Payee"
     = Some "Smith, John".
Proof.
  split; [|split; [reflexivity|split; [reflexivity|split]]].
  - destruct (convertToCSV_rows [smithJohn]) as (_ & _ & _ & H).
    apply H; [discriminate|discriminate|reflexivity].
  - destruct (convertToCSV_rows [smithJohn]) as (_ & _ & H & _).
    apply (H [] smithJohn [] "Smith, John"); reflexivity.
  - destruct (convertToCSV_rows [doeJane; quoteInAmount])
      as (_ & _ & H & _).
    apply (H [doeJane] quoteInAmount [] "Smith, John"); reflexivity.
Defined.

End RowFacts.

(** ** The popup's serialiser against the exporter's *)

Module PopupFacts.
Import Csv ValidatorFacts PopupNotions Validity.



Lemma seen_In (k : string) (seen : list string) :
  existsb (String.eqb k) seen = true <-> In k seen.
Proof.
  rewrite existsb_exists; split.
  - intros (x & Hx & E); apply String.eqb_eq in E; subst; exact Hx.
  - intros H; exists k; split; [exact H|apply String.eqb_refl].
Qed.

Lemma unique_In (l : list string) :
  forall seen k, In k (Popup.unique seen l) <-> In k l /\ ~ In k seen.
Proof.
  induction l as [|a l IH]; intros seen k; cbn [Popup.unique In];
    [tauto|].
  destruct (existsb (String.eqb a) seen) eqn:E.
  - apply seen_In in E; rewrite IH.
    split; [tauto|].
    intros ([<-|H] & Hn); tauto.
  - assert (Ha : ~ In a seen)
      by (intros H; apply seen_In in H; congruence).
    cbn [In]; rewrite IH; cbn [In].
    destruct (string_dec a k) as [<-|Hne]; tauto.
Qed.


Lemma unique_app (a b : list string) :
  forall seen,
    Popup.unique seen (a ++ b)
    = (Popup.unique seen a
       ++ Popup.unique (rev (Popup.unique seen a) ++ seen) b)%list.
Proof.
  induction a as [|k a IH]; intros seen; cbn [app Popup.unique];
    [reflexivity|].
  destruct (existsb (String.eqb k) seen); [apply IH|].
  rewrite IH; cbn [app rev]; rewrite <- app_assoc; reflexivity.
Qed.

Lemma unique_seen (l seen : list string) :
  incl l seen -> Popup.unique seen l = [].
Proof.
  induction l as [|k l IH]; intros H; cbn [Popup.unique]; [reflexivity|].
  assert (E : existsb (String.eqb k) seen = true)
    by (apply seen_In, H; left; reflexivity).
  rewrite E; apply IH; intros x Hx; apply H; right; exact Hx.
Qed.














End PopupFacts.

(** ** The show-more load loops *)

Module LoopFacts.
Import Extractor LoadLoops.

Section Loop.
Context {Page : Type}.
Variable src : Source Page.
Variable act : Page -> Page * nat.

Lemma loop_bound (attempts clickCount : nat) (s : Page) :
  snd (loop src act attempts clickCount s) <= clickCount + attempts.
Proof.
  revert clickCount s; induction attempts as [|a IH];
    intros clickCount s; simpl; [lia|].
  destruct (findShowMoreButton src s); simpl; [|lia].
  destruct (act s) as [s' afterCount].
  destruct (afterCount =? getCurrentTransactionCount src s); simpl; [lia|].
  specialize (IH (S clickCount) s'); lia.
Qed.

Lemma page_before_shift (n : nat) (s : Page) :
  page_before act (S n) s = page_before act n (fst (act s)).
Proof.
  induction n as [|n IH]; [reflexivity|].
  change (page_before act (S (S n)) s)
    with (fst (act (page_before act (S n) s))).
  rewrite IH; reflexivity.
Qed.

(** The loop is left at the first activation that leaves the count as
    it was, after [n] activations that grew it. *)
Lemma loop_stalls_at (n : nat) :
  forall attempts clickCount s,
    n < attempts ->
    (forall i, i < n ->
               findShowMoreButton src (page_before act i s) = true
               /\ grows src act (page_before act i s)) ->
    findShowMoreButton src (page_before act n s) = true ->
    stalls src act (page_before act n s) ->
    loop src act attempts clickCount s
    = (fst (act (page_before act n s)), clickCount + n + 1).
Proof.
  induction n as [|n IH]; intros attempts clickCount s Hlt Hgrow Hbtn Hstall;
    (destruct attempts as [|a]; [lia|]); simpl loop.
  - simpl page_before in *; unfold stalls in Hstall; rewrite Hbtn.
    destruct (act s) as [s' afterCount]; simpl in *.
    subst afterCount; rewrite Nat.eqb_refl; f_equal; lia.
  - destruct (Hgrow 0 ltac:(lia)) as [Hb0 Hg0]; simpl in Hb0, Hg0.
    unfold grows in Hg0; rewrite Hb0.
    rewrite page_before_shift in Hbtn, Hstall |- *.
    destruct (act s) as [s' afterCount] eqn:E; simpl in *.
    assert (Hne : (afterCount =? getCurrentTransactionCount src s) = false)
      by (apply Nat.eqb_neq; lia).
    rewrite Hne, (IH a (S clickCount) s'); [f_equal; lia|lia| |assumption
                                            |assumption].
    intros i Hi; specialize (Hgrow (S i) ltac:(lia)).
    rewrite page_before_shift, E in Hgrow; exact Hgrow.
Qed.
End Loop.

(** [C7], as stated, fails for [clickAllShowMoreButtons]: it has no poll
    and reads the count once, two seconds after the click.  On a page
    whose rows take three seconds to arrive it stops after one
    activation, where the loop with progress makes three. *)
Lemma plain_loop_stops_early :
  two_grow_then_stall (lazySource 3000%N) twoBatches
  /\ snd (clickAllShowMoreButtonsWithProgress (lazySource 3000%N) twoBatches)
     = 3
  /\ snd (clickAllShowMoreButtons (lazySource 3000%N) twoBatches) = 1
  /\ ~ three_activations.
Proof.
  assert (H : two_grow_then_stall (lazySource 3000%N) twoBatches).
  { split; [|split; [reflexivity|vm_compute; reflexivity]].
    intros i Hi; split; [reflexivity|].
    destruct i as [|[|i]]; [vm_compute; lia|vm_compute; lia|lia]. }
  split; [exact H|].
  split; [vm_compute; reflexivity|].
  split; [vm_compute; reflexivity|].
  intros Hc; destruct (Hc _ _ _ H) as [_ Hp].
  vm_compute in Hp; discriminate.
Qed.

(** A count that ends below the count before the click is not taken for a
    stall: both loops compare with [===] and go on, up to the ceiling of
    100 activations, although no activation grows the count. *)
Lemma shrinking_page_is_clicked_on :
  ~ grows shrinkingSource (activateWithProgress shrinkingSource) 200
  /\ snd (clickAllShowMoreButtonsWithProgress shrinkingSource 200) = 100
  /\ snd (clickAllShowMoreButtons shrinkingSource 200) = 100.
Proof.
  split; [unfold grows; vm_compute; lia|].
  split; vm_compute; reflexivity.
Qed.

(** [C7], amended.  Each loop makes at most 100 activations.  The loop
    with progress polls the count every 500 ms for up to 15 s after a
    click; the plain loop reads it once, 2 s after the click.  Each is
    left at the first activation after which the count it read last is
    the count before the click: after [n] activations that it saw grow
    the count, one that it sees leave the count unchanged is the last,
    so [n + 1] activations are made, three for [n = 2]. *)
Theorem load_loops_stop {Page : Type} (src : Source Page) (s : Page) :
  snd (clickAllShowMoreButtonsWithProgress src s) <= 100
  /\ snd (clickAllShowMoreButtons src s) <= 100
  /\ (forall n,
         n < 100 ->
         grow_then_stall src (activateWithProgress src) n s ->
         snd (clickAllShowMoreButtonsWithProgress src s) = n + 1)
  /\ (forall n,
         n < 100 ->
         grow_then_stall src (activate src) n s ->
         snd (clickAllShowMoreButtons src s) = n + 1).
Proof.
  split; [apply (loop_bound src _ maxAttempts 0 s)|].
  split; [apply (loop_bound src _ maxAttempts 0 s)|].
  split; intros n Hn (Hgrow & Hbtn & Hstall).
  - unfold clickAllShowMoreButtonsWithProgress.
    rewrite (loop_stalls_at src _ n maxAttempts 0 s); auto.
  - unfold clickAllShowMoreButtons.
    rewrite (loop_stalls_at src _ n maxAttempts 0 s); auto.
Qed.

(** A page whose rows arrive within a second: both loops see two
    activations grow the count and the third leave it, and make three. *)
Lemma load_loops_three_activations :
  snd (clickAllShowMoreButtonsWithProgress (lazySource 1000%N) twoBatches) = 3
  /\ snd (clickAllShowMoreButtons (lazySource 1000%N) twoBatches) = 3.
Proof.
  destruct (load_loops_stop (lazySource 1000%N) twoBatches)
    as (_ & _ & Hpoll & Hplain).
  split.
  - apply (Hpoll 2); [lia|].
    split; [|split; [reflexivity|vm_compute; reflexivity]].
    intros i Hi; split; [reflexivity|].
    destruct i as [|[|i]]; [vm_compute; lia|vm_compute; lia|lia].
  - apply (Hplain 2); [lia|].
    split; [|split; [reflexivity|vm_compute; reflexivity]].
    intros i Hi; split; [reflexivity|].
    destruct i as [|[|i]]; [vm_compute; lia|vm_compute; lia|lia].
Defined.

End LoopFacts.

(** ** The busy flag of the PDF processor *)

Module BusyFacts.
Import Pdf Busy.

Lemma remove_only_call (c : call) (id : nat) :
  Nat.eqb (callId c) id = true -> remove_call id [c] = [].
Proof. intros H; unfold remove_call; simpl; rewrite H; reflexivity. Qed.

Lemma finish_consistent (p : Processor) (c : call) (o : outcome) :
  suspended p = [c] -> consistent (finish p (callId c) o).
Proof.
  intros Hs; left; split; [reflexivity|].
  simpl; rewrite Hs; apply remove_only_call, Nat.eqb_refl.
Qed.

Lemma step_consistent (p : Processor) (e : event) :
  consistent p -> consistent (step p e).
Proof.
  intros [[Hf Hs]|[Hf [c Hs]]]; destruct e as [id name|id file|id result];
    unfold step; rewrite ?Hf, ?Hs; simpl find_call.
  - right; split; [reflexivity|]; simpl; eauto.
  - left; auto.
  - left; auto.
  - right; split; [reflexivity|]; simpl; eauto.
  - destruct (Nat.eqb (callId c) id) eqn:E;
      [|right; split; [first [exact Hf|reflexivity]|eauto]].
    apply Nat.eqb_eq in E; subst id.
    destruct c as [cid name [|url]]; simpl callId in *;
      [|right; split; [first [exact Hf|reflexivity]|eauto]].
    destruct file as [url|reason];
      [destruct (Parser.is_empty url)|];
      try (apply (finish_consistent p _ _ Hs)).
    right; split; [first [exact Hf|reflexivity]|]; simpl.
    rewrite Nat.eqb_refl; simpl; eauto.
  - destruct (Nat.eqb (callId c) id) eqn:E;
      [|right; split; [first [exact Hf|reflexivity]|eauto]].
    apply Nat.eqb_eq in E; subst id.
    destruct c as [cid name [|url]]; simpl callId in *;
      [right; split; [first [exact Hf|reflexivity]|eauto]|].
    destruct result as [txs|err]; apply (finish_consistent p _ _ Hs).
Qed.

Lemma fold_consistent (es : list event) (p : Processor) :
  consistent p -> consistent (fold_left step es p).
Proof.
  revert p; induction es as [|e es IH]; intros p H; simpl; [exact H|].
  apply IH, step_consistent, H.
Qed.

Lemma run_consistent (es : list event) : consistent (run es).
Proof. apply fold_consistent; left; split; reflexivity. Qed.

(** No other error of the method reads like the busy error. *)
Lemma busy_message_distinct (f : failure) :
  message f = message AlreadyInProgress -> f = AlreadyInProgress.
Proof. destruct f; simpl; intros H; try reflexivity; discriminate. Qed.

Lemma app_one_inj {A : Type} (l : list A) (x y : A) :
  (l ++ [x])%list = (l ++ [y])%list -> x = y.
Proof. intros H; apply app_inv_head in H; congruence. Qed.

Lemma app_one_neq {A : Type} (l : list A) (x : A) :
  l <> (l ++ [x])%list.
Proof.
  intros H; apply (f_equal (@List.length A)) in H.
  rewrite length_app in H; simpl in H; lia.
Qed.

(** A promise that settles otherwise than by the busy error is settled
    by the [finally] block, which clears the flag. *)
Lemma settle_clears_flag (p : Processor) (e : event) (id : nat)
      (o : outcome) :
  settles p e id o -> o <> Rejected AlreadyInProgress ->
  isProcessing (step p e) = false.
Proof.
  unfold settles; intros Hs Ho.
  destruct e as [i name|i file|i result]; unfold step in *.
  - destruct (isProcessing p); simpl in Hs.
    + apply app_one_inj in Hs; congruence.
    + exfalso; eapply app_one_neq; exact Hs.
  - destruct (find_call i (suspended p)) as [[cid name [|url]]|];
      try (exfalso; eapply app_one_neq; exact Hs).
    destruct file as [url|reason]; [destruct (Parser.is_empty url)|];
      try reflexivity.
    exfalso; eapply app_one_neq; exact Hs.
  - destruct (find_call i (suspended p)) as [[cid name [|url]]|];
      try (exfalso; eapply app_one_neq; exact Hs).
    destruct result; reflexivity.
Qed.

(** The call in flight ends with each settlement that ends it in the
    method, a failure as well as a success, and goes on to the extraction
    when its download gives a file. *)
Lemma in_flight_settles (p : Processor) (c : call) :
  isProcessing p = true -> suspended p = [c] ->
  (at_ c = Downloading ->
   (forall reason,
       completes p (DownloadSettles (callId c) (inr reason)) (callId c)
                 (Rejected (DownloadFailed reason)))
   /\ (forall url,
          Parser.is_empty url = true ->
          completes p (DownloadSettles (callId c) (inl url)) (callId c)
                    (Rejected NoDownloadedFile))
   /\ (forall url,
          Parser.is_empty url = false ->
          proceeds p (DownloadSettles (callId c) (inl url)) c url))
  /\ (forall url,
         at_ c = Extracting url ->
         (forall transactions,
             completes p (ExtractionSettles (callId c) (inl transactions))
                       (callId c) (Resolved transactions (filename c)))
         /\ (forall error,
                completes p (ExtractionSettles (callId c) (inr error))
                          (callId c)
                          (Rejected (extraction_failure error)))).
Proof.
  intros Hf Hs; destruct c as [cid name stage]; cbn [callId filename at_].
  unfold completes, proceeds, step, finish; rewrite Hs, Hf.
  cbn [find_call callId remove_call filter negb]; rewrite Nat.eqb_refl.
  cbn [negb filter app callId filename].
  split.
  - intros ->; split; [reflexivity|split].
    + intros url ->; reflexivity.
    + intros url ->; reflexivity.
  - intros url ->; split; reflexivity.
Qed.

(** [C8] On a processor reached by any sequence of calls and
    settlements, the flag is up exactly when one call is in flight.  A
    call made then is rejected at once with the busy error, which no
    other error of the method reads like; it is not kept among the
    suspended calls, and the call in flight and the flag stay as they
    were.  When the promise of the call in flight settles, fulfilled or
    rejected, the flag is cleared; and it does settle, and clear the
    flag, when the download fails or gives no file, and when the
    extraction ends, with its transactions or with an error. *)
Theorem second_request_rejected (es : list event) :
  let p := run es in
  (isProcessing p = true <-> exists c, suspended p = [c])
  /\ (isProcessing p = true ->
      forall id name,
        settles p (Call id name) id (Rejected AlreadyInProgress)
        /\ suspended (step p (Call id name)) = suspended p
        /\ isProcessing (step p (Call id name)) = true
        /\ Extractor.error (Extractor.processPDF (Rejected AlreadyInProgress))
           = Some "PDF processing already in progress")
  /\ (forall f, message f = message AlreadyInProgress ->
                f = AlreadyInProgress)
  /\ (forall e id o,
         settles p e id o -> o <> Rejected AlreadyInProgress ->
         isProcessing (step p e) = false)
  /\ (forall c,
         suspended p = [c] ->
         (at_ c = Downloading ->
          (forall reason,
              completes p (DownloadSettles (callId c) (inr reason))
                        (callId c) (Rejected (DownloadFailed reason)))
          /\ (forall url,
                 Parser.is_empty url = true ->
                 completes p (DownloadSettles (callId c) (inl url))
                           (callId c) (Rejected NoDownloadedFile))
          /\ (forall url,
                 Parser.is_empty url = false ->
                 proceeds p (DownloadSettles (callId c) (inl url)) c url))
         /\ (forall url,
                at_ c = Extracting url ->
                (forall transactions,
                    completes p
                              (ExtractionSettles (callId c)
                                                 (inl transactions))
                              (callId c)
                              (Resolved transactions (filename c)))
                /\ (forall error,
                       completes p
                                 (ExtractionSettles (callId c) (inr error))
                                 (callId c)
                                 (Rejected (extraction_failure error))))).
Proof.
  intros p.
  assert (Hflag : isProcessing p = true <-> exists c, suspended p = [c]).
  { destruct (run_consistent es) as [[Hf Hs]|[Hf Hs]]; fold p in Hf, Hs.
    - rewrite Hf, Hs; split; [discriminate|intros [c Hc]; discriminate].
    - rewrite Hf; split; auto. }
  split; [exact Hflag|split; [|split; [|split]]].
  - intros Hbusy id name; unfold settles, step; rewrite Hbusy; simpl.
    repeat split; assumption.
  - apply busy_message_distinct.
  - intros e id o; apply settle_clears_flag.
  - intros c Hc; apply in_flight_settles; [|exact Hc].
    apply Hflag; exists c; exact Hc.
Qed.

(** A second call is rejected while the first runs to its end, and while
    the first fails: at its download, after which a third call is taken
    up, or at its extraction. *)
Lemma second_request_rejected_example :
  (outcome_of 2 (settled (run overlapping))
   = Some (Rejected AlreadyInProgress)
   /\ outcome_of 1 (settled (run overlapping))
      = Some (Resolved [statement] "first.pdf")
   /\ isProcessing (run overlapping) = false)
  /\ (run failing
      = {| isProcessing := true;
           suspended := [ {| callId := 3; filename := "third.pdf";
                             at_ := Downloading |} ];
           settled :=
             [ (2, Rejected AlreadyInProgress);
               (1, Rejected (DownloadFailed "HTTP 404: Not Found")) ] |})
  /\ (run unreadable
      = {| isProcessing := false;
           suspended := [];
           settled :=
             [ (2, Rejected AlreadyInProgress);
               (1, Rejected (ProcessingFailed "Invalid PDF structure")) ] |}).
Proof.
  split; [|split].
  - split; [reflexivity|split; [reflexivity|]].
    destruct (second_request_rejected
                [ Call 1 "first.pdf"; Call 2 "second.pdf";
                  DownloadSettles 1 (inl "blob:first") ])
      as (_ & _ & _ & H & _).
    apply (H (ExtractionSettles 1 (inl [statement])) 1
             (Resolved [statement] "first.pdf")).
    + reflexivity.
    + discriminate.
  - destruct (second_request_rejected
                [ Call 1 "first.pdf"; Call 2 "second.pdf" ])
      as (_ & _ & _ & _ & H).
    destruct (H {| callId := 1; filename := "first.pdf";
                   at_ := Downloading |} eq_refl) as [Hd _].
    destruct (Hd eq_refl) as (Hfail & _).
    specialize (Hfail "HTTP 404: Not Found").
    unfold completes in Hfail; cbn [callId] in Hfail.
    change (run failing)
      with (step (step (run [ Call 1 "first.pdf"; Call 2 "second.pdf" ])
                       (DownloadSettles 1 (inr "HTTP 404: Not Found")))
                 (Call 3 "third.pdf")).
    rewrite Hfail; reflexivity.
  - destruct (second_request_rejected
                [ Call 1 "first.pdf"; DownloadSettles 1 (inl "blob:first");
                  Call 2 "second.pdf" ])
      as (_ & _ & _ & _ & H).
    destruct (H {| callId := 1; filename := "first.pdf";
                   at_ := Extracting "blob:first" |} eq_refl) as [_ He].
    destruct (He "blob:first" eq_refl) as (_ & Hfail).
    specialize (Hfail (ReadError "Invalid PDF structure")).
    unfold completes in Hfail; cbn [callId] in Hfail.
    change (run unreadable)
      with (step (run [ Call 1 "first.pdf";
                        DownloadSettles 1 (inl "blob:first");
                        Call 2 "second.pdf" ])
                 (ExtractionSettles 1 (inr (ReadError
                                              "Invalid PDF structure")))).
    rewrite Hfail; reflexivity.
Defined.

End BusyFacts.

(** ** Capture groups that are never empty *)

Module CaptureFacts.
Import Regex Captures.

Lemma substring_length (n : nat) (s : string) :
  n <= String.length s -> String.length (substring 0 n s) = n.
Proof.
  revert s; induction n as [|n IH]; intros s H.
  - destruct s; reflexivity.
  - destruct s as [|a s]; simpl in *; [lia|].
    rewrite IH by lia; reflexivity.
Qed.

Lemma consumed_nonempty (st st' : mstate) (n : nat) :
  0 < n ->
  String.length (rest st') + n <= String.length (rest st) ->
  consumed st st' <> "".
Proof.
  intros Hn Hl H; apply (f_equal String.length) in H.
  unfold consumed in H; rewrite substring_length in H by lia.
  simpl in H; lia.
Qed.

Lemma eat_lit_length (ic : bool) (l : string) :
  forall st st',
    eat_lit ic l st = Some st' ->
    String.length (rest st') + String.length l = String.length (rest st).
Proof.
  induction l as [|c l IH]; intros st st'; simpl.
  - intros H; injection H as <-; lia.
  - destruct (rest st) as [|a t] eqn:E; [discriminate|].
    destruct (if ic then _ else _); [|discriminate].
    intros H; apply IH in H; simpl in *; lia.
Qed.

(** The goal left where the matcher calls its continuation without
    touching the groups. *)
Ltac leaf H :=
  simpl; split; [exact H|]; split; [simpl in *; lia|];
  split; [reflexivity|intros ? ?; discriminate].

Section Sound.
Context {A : Type}.
Variable ic : bool.

Lemma rep_sound (cl : cclass) (lo : nat) (hi : option nat) (g : bool)
      (s : string) :
  forall n p c (k : mstate -> captures -> option A) x,
    rep ic cl lo hi g n p s c k = Some x ->
    exists st', k st' c = Some x
                /\ String.length (rest st') + (lo - n) <= String.length s.
Proof.
  induction s as [|a t IH]; intros n p c k x.
  - simpl; destruct g; destruct (lo <=? n) eqn:E; try discriminate;
      apply Nat.leb_le in E.
    + intros H; exists (MState p ""); simpl; split; [exact H|lia].
    + destruct (k (MState p "") c) as [y|] eqn:Ek; [|discriminate].
      intros H; injection H as <-.
      exists (MState p ""); simpl; split; [exact Ek|lia].
  - simpl.
    assert (Hmore : forall y,
               (if under hi n && cmatch ic cl a
                then rep ic cl lo hi g (S n) (Some a) t c k
                else None) = Some y ->
               exists st', k st' c = Some y
                           /\ String.length (rest st') + (lo - n)
                              <= S (String.length t)).
    { intros y; destruct (under hi n && cmatch ic cl a); [|discriminate].
      intros H; apply IH in H as (st' & Hk & Hl).
      exists st'; split; [exact Hk|lia]. }
    assert (Hstop : forall y,
               (if lo <=? n then k (MState p (String a t)) c else None)
               = Some y ->
               exists st', k st' c = Some y
                           /\ String.length (rest st') + (lo - n)
                              <= S (String.length t)).
    { intros y; destruct (lo <=? n) eqn:E; [|discriminate].
      apply Nat.leb_le in E; intros H.
      exists (MState p (String a t)); simpl; split; [exact H|lia]. }
    destruct g.
    + destruct (if under hi n && cmatch ic cl a then _ else _) eqn:E.
      * intros H; injection H as <-; apply Hmore; reflexivity.
      * apply Hstop.
    + destruct (if lo <=? n then _ else _) eqn:E.
      * intros H; injection H as <-; apply Hstop; reflexivity.
      * apply Hmore.
Qed.

(** A run that succeeds has called its continuation after at least
    [minlen r] characters, with the groups not in [r] untouched and the
    groups [r] defines set to texts that are not empty. *)
Lemma run_sound (r : regex) :
  forall st c (k : mstate -> captures -> option A) x,
    run ic r st c k = Some x ->
    exists st' c',
      k st' c' = Some x
      /\ String.length (rest st') + minlen r <= String.length (rest st)
      /\ (forall i, mentions i r = false -> c' i = c i)
      /\ (forall i, defines i r = true -> nonempty (c' i)).
Proof.
  induction r as [|l|cl|cl lo hi g|r1 IH1 r2 IH2|r1 IH1 r2 IH2|j r' IH| | |];
    intros st c k x; simpl run.
  - intros H; exists st, c; leaf H.
  - destruct (eat_lit ic l st) as [st'|] eqn:E; [|discriminate].
    intros H; exists st', c; apply eat_lit_length in E.
    leaf H.
  - destruct (rest st) as [|a t] eqn:E; [discriminate|].
    destruct (cmatch ic cl a); [|discriminate].
    intros H; exists (MState (Some a) t), c; leaf H.
  - intros H; apply rep_sound in H as (st' & Hk & Hl).
    exists st', c; leaf Hk.
  - intros H; apply IH1 in H as (st1 & c1 & H & Hl1 & Hm1 & Hd1).
    apply IH2 in H as (st2 & c2 & H & Hl2 & Hm2 & Hd2).
    exists st2, c2; simpl; split; [exact H|]; split; [lia|]; split.
    + intros i Hi; apply orb_false_iff in Hi as [Hi1 Hi2].
      rewrite Hm2, Hm1; auto.
    + intros i Hi; apply orb_true_iff in Hi as [Hi|Hi]; [auto|].
      apply andb_true_iff in Hi as [Hi1 Hi2].
      apply negb_true_iff in Hi2; rewrite Hm2 by exact Hi2; auto.
  - destruct (run ic r1 st c k) as [y|] eqn:E.
    + intros H; injection H as <-.
      apply IH1 in E as (st' & c' & H & Hl & Hm & Hd).
      exists st', c'; simpl; split; [exact H|]; split; [lia|]; split.
      * intros i Hi; apply orb_false_iff in Hi as [Hi _]; auto.
      * intros i Hi; apply andb_true_iff in Hi as [Hi _]; auto.
    + intros H; apply IH2 in H as (st' & c' & H & Hl & Hm & Hd).
      exists st', c'; simpl; split; [exact H|]; split; [lia|]; split.
      * intros i Hi; apply orb_false_iff in Hi as [_ Hi]; auto.
      * intros i Hi; apply andb_true_iff in Hi as [_ Hi]; auto.
  - intros H; apply IH in H as (st' & c' & H & Hl & Hm & Hd).
    exists st', (set_capture j (consumed st st') c').
    simpl; split; [exact H|]; split; [exact Hl|]; split.
    + intros i Hi; apply orb_false_iff in Hi as [Hj Hi].
      unfold set_capture; rewrite Nat.eqb_sym, Hj; auto.
    + intros i Hi; unfold set_capture; rewrite (Nat.eqb_sym i j).
      destruct (Nat.eqb j i); [|auto].
      apply Nat.ltb_lt in Hi.
      eexists; split; [reflexivity|].
      eapply consumed_nonempty; eassumption.
  - destruct (prev st); [discriminate|].
    intros H; exists st, c; leaf H.
  - destruct (rest st) eqn:E; [|discriminate].
    intros H; exists st, c; rewrite E; leaf H.
  - destruct (xorb _ _); [|discriminate].
    intros H; exists st, c; leaf H.
Qed.
End Sound.

(** A match sets every group its pattern defines to a text that is not
    empty. *)
Lemma exec_from_defines (ic : bool) (r : regex) (s : string) :
  forall skipped p res i,
    exec_from ic r skipped p s = Some res ->
    defines i r = true ->
    grp res i <> "".
Proof.
  assert (Hat : forall skipped st res i,
             match_at ic r skipped st = Some res ->
             defines i r = true -> grp res i <> "").
  { unfold match_at; intros skipped st res i H Hd.
    apply run_sound in H as (st' & c' & H & _ & _ & Hdef).
    injection H as <-; unfold grp; simpl.
    destruct (Hdef i Hd) as (v & -> & Hv); exact Hv. }
  induction s as [|a t IH]; intros skipped p res i; simpl.
  - destruct (match_at ic r skipped (MState p "")) eqn:E; [|discriminate].
    intros H; injection H as <-; eapply Hat; eassumption.
  - destruct (match_at ic r skipped (MState p (String a t))) eqn:E.
    + intros H; injection H as <-; eapply Hat; eassumption.
    + apply IH.
Qed.

Lemma exec_defines (p : pattern) (s : string) (res : result) (i : nat) :
  exec p s = Some res -> defines i (body p) = true -> grp res i <> "".
Proof. unfold exec; apply exec_from_defines. Qed.

End CaptureFacts.

(** ** What an extraction pass retains *)

Module RetentionFacts.
Import Utils Parser Extractor JsFacts ValidatorFacts CaptureFacts.
Import Retention Validity Captures.

(** *** The web row path *)

Lemma extract_filter (rows : list Row) (acc : list record) :
  extractFromRBCTransactionRows rows acc
  = (acc ++ filter accepted (map parseRBCTransactionRow rows))%list.
Proof.
  unfold extractFromRBCTransactionRows.
  revert acc; induction rows as [|row rows IH]; intros acc;
    cbn [fold_left map filter].
  - rewrite app_nil_r; reflexivity.
  - rewrite IH; unfold accepted at 2.
    destruct (isValidTransaction (Some (parseRBCTransactionRow row)))
      as [valid|]; [destruct (truthy valid)|];
      rewrite <- ?app_assoc; reflexivity.
Qed.

Lemma parse_fields (row : Row) :
  exists date description vendor amount type balance accountType,
    parseRBCTransactionRow row
    = [ ("date", VStr date); ("description", VStr description);
        ("vendor", VStr vendor); ("amount", VStr amount);
        ("type", VStr type); ("balance", VStr balance);
        ("reference", VStr ""); ("accountType", VStr accountType) ].
Proof.
  unfold parseRBCTransactionRow.
  destruct (extractDescription (accountTypeOf row) row) as [d v].
  repeat eexists.
Qed.

Lemma trim_empty_length : String.length (Js.trim "") = 0.
Proof. reflexivity. Qed.

Lemma accepted_retained (row : Row) :
  accepted (parseRBCTransactionRow row) = true <->
  retained (parseRBCTransactionRow row)
  /\ (2 < String.length
            (Js.trim (text_of (get "description" (parseRBCTransactionRow row))))
      \/ 0 < String.length
               (Js.trim (text_of (get "amount" (parseRBCTransactionRow row))))).
Proof.
  destruct (parse_fields row) as (date & d & v & a & ty & b & at_ & E).
  rewrite E; unfold accepted.
  destruct (validator_answer
              [ ("date", VStr date); ("description", VStr d);
                ("vendor", VStr v); ("amount", VStr a);
                ("type", VStr ty); ("balance", VStr b);
                ("reference", VStr ""); ("accountType", VStr at_) ] I I I)
    as (valid & -> & _ & Ht).
  rewrite Ht; simpl get; simpl text_of; split.
  - intros H; split; [|exact H].
    exists d, a; repeat split.
    destruct H as [H|H]; [left; exact H|right].
    intros ->; rewrite trim_empty_length in H; lia.
  - intros [_ H]; exact H.
Qed.

(** *** The PDF line path *)

Lemma statement_patterns_define_amount :
  forallb (fun p => defines 2 (Regex.body p)) Pdf.patterns = true.
Proof. reflexivity. Qed.

Lemma first_match_in (ps : list Regex.pattern) (text : string)
      (m : Regex.result) :
  first_match ps text = Some m ->
  exists p, In p ps /\ Regex.exec p text = Some m.
Proof.
  induction ps as [|p ps IH]; simpl; [discriminate|].
  destruct (Regex.exec p text) as [m'|] eqn:E.
  - intros H; injection H as <-; exists p; auto.
  - intros H; apply IH in H as (q & Hq & Hm); exists q; auto.
Qed.

Section Runtime.
Variable toFixed2 : string -> string.
Hypothesis toFixed2_nonempty : forall lit, toFixed2 lit <> "".

Lemma normalizeAmount_nonempty (amountStr : string) :
  amountStr <> "" -> normalizeAmount toFixed2 amountStr <> "".
Proof.
  intros H; unfold normalizeAmount.
  destruct (parseFloat_text _); [|exact H].
  destruct (_ || _); apply toFixed2_nonempty.
Qed.

Lemma pdf_line_retained (line : Pdf.Line) (r : record) :
  Pdf.parseTransactionLine toFixed2 line = Some r -> retained r.
Proof.
  unfold Pdf.parseTransactionLine.
  destruct (is_empty _); [discriminate|].
  destruct (first_match Pdf.patterns _) as [m|] eqn:E; [|discriminate].
  intros H; injection H as <-.
  apply first_match_in in E as (p & Hp & Hm).
  pose proof statement_patterns_define_amount as Hall.
  rewrite forallb_forall in Hall; specialize (Hall p Hp).
  eexists _, _; split; [reflexivity|split; [reflexivity|right]].
  apply normalizeAmount_nonempty.
  eapply exec_defines; eassumption.
Qed.

Lemma pdf_page_retained (textItems : list Pdf.TextItem) (r : record) :
  In r (Pdf.parsePDFPage toFixed2 textItems) -> retained r.
Proof.
  unfold Pdf.parsePDFPage; rewrite in_flat_map.
  intros (line & _ & H).
  destruct (Pdf.parseTransactionLine toFixed2 line) as [t|] eqn:E;
    [|contradiction].
  destruct H as [<-|[]]; eapply pdf_line_retained; exact E.
Qed.
End Runtime.

(** [C3] Every record an extraction pass returns has a description longer
    than two characters once trimmed or an amount that is not empty, on
    the web row path and on the PDF line path alike; a candidate with
    neither is not among the records returned.  On the web row path the
    records returned are those the validator accepts, in the order of the
    rows. *)
Theorem extraction_retains (toFixed2 : string -> string) :
  (forall lit, toFixed2 lit <> "") ->
  (forall rows,
      extractFromRBCTransactionRows rows []
      = filter accepted (map parseRBCTransactionRow rows)
      /\ (forall r, In r (extractFromRBCTransactionRows rows []) ->
                    retained r)
      /\ (forall row, ~ retained (parseRBCTransactionRow row) ->
                      ~ In (parseRBCTransactionRow row)
                           (extractFromRBCTransactionRows rows [])))
  /\ (forall pages,
         (forall r, In r (Pdf.extractTransactionsFromPDF toFixed2 pages) ->
                    retained r)
         /\ (forall r, ~ retained r ->
                       ~ In r (Pdf.extractTransactionsFromPDF toFixed2 pages))).
Proof.
  intros Hfix.
  assert (Hweb : forall rows r,
             In r (extractFromRBCTransactionRows rows []) -> retained r).
  { intros rows r; rewrite extract_filter; simpl app.
    rewrite filter_In, in_map_iff; intros [(row & <- & _) Hacc].
    apply accepted_retained in Hacc as [H _]; exact H. }
  assert (Hpdf : forall pages r,
             In r (Pdf.extractTransactionsFromPDF toFixed2 pages) ->
             retained r).
  { intros pages r; unfold Pdf.extractTransactionsFromPDF.
    rewrite in_flat_map; intros (page & _ & H).
    eapply pdf_page_retained; eassumption. }
  split.
  - intros rows; split; [apply extract_filter|].
    split; [apply Hweb|].
    intros row Hn Hin; apply Hn; eapply Hweb; exact Hin.
  - intros pages; split; [apply Hpdf|].
    intros r Hn Hin; apply Hn; eapply Hpdf; exact Hin.
Qed.

(** A row with a date only is dropped, a credit row is kept; a statement
    line is kept and a footer line gives no record. *)
Lemma extraction_retains_example :
  extractFromRBCTransactionRows
    [ blankRow; Polarity.creditRow (Some "50.00") None ] []
  = [ parseRBCTransactionRow (Polarity.creditRow (Some "50.00") None) ]
  /\ retained
       [ ("date", VStr "21/10/2025"); ("amount", VStr "50.00");
         ("description", VStr "STARBUCKS"); ("source", VStr "PDF");
         ("page", VNum 700) ].
Proof.
  assert (Hfix : forall lit, sameDigits lit <> "")
    by (intros [|a t]; discriminate).
  destruct (extraction_retains sameDigits Hfix) as [Hweb Hpdf].
  split.
  - rewrite (proj1 (Hweb _)); reflexivity.
  - apply (proj1 (Hpdf [statementPage])); left; reflexivity.
Defined.

End RetentionFacts.

(** ** The lines of a PDF page *)

Module PdfLineFacts.
Import Pdf PdfLines.

Lemma groupTextIntoLines_grouped (textItems : list TextItem) :
  groupTextIntoLines textItems = map lineOf (groupedLines textItems).
Proof. reflexivity. Qed.

(** *** Grouping *)

(** A fragment joins exactly one line. *)
Lemma addItem_items (item : TextItem) (lines : list LineGroup) :
  Permutation (flat_map items (addItem item lines))
              (item :: flat_map items lines).
Proof.
  induction lines as [|l lines IH]; simpl; [reflexivity|].
  destruct (Z.abs (groupY l - y item) <=? tolerance)%Z; simpl.
  - rewrite <- app_assoc; simpl.
    rewrite <- Permutation_middle; reflexivity.
  - rewrite IH; symmetry; apply Permutation_middle.
Qed.

Lemma addItem_within (item : TextItem) (lines : list LineGroup) :
  Forall within lines -> Forall within (addItem item lines).
Proof.
  induction lines as [|l lines IH]; simpl; intros H.
  - repeat constructor; simpl; unfold tolerance; lia.
  - inversion H as [|? ? Hl Hls]; subst.
    destruct (Z.abs (groupY l - y item) <=? tolerance)%Z eqn:E.
    + constructor; [|exact Hls].
      unfold within; simpl; apply Forall_app; split; [exact Hl|].
      repeat constructor; apply Z.leb_le; exact E.
    + constructor; [exact Hl|apply IH; exact Hls].
Qed.

(** What [addItem] does to the coordinates of the lines: nothing, or one
    more at the end that is apart from all the others. *)
Lemma addItem_ys (item : TextItem) (lines : list LineGroup) :
  map groupY (addItem item lines) = map groupY lines
  \/ (map groupY (addItem item lines) = (map groupY lines ++ [y item])%list
      /\ Forall (fun a => apart a (y item)) (map groupY lines)).
Proof.
  induction lines as [|l lines IH]; simpl.
  - right; split; [reflexivity|constructor].
  - destruct (Z.abs (groupY l - y item) <=? tolerance)%Z eqn:E; simpl.
    + left; reflexivity.
    + apply Z.leb_gt in E.
      destruct IH as [->|[-> H]]; [left; reflexivity|right].
      split; [reflexivity|constructor; [exact E|exact H]].
Qed.

Lemma pairs_snoc {A : Type} (R : A -> A -> Prop) (l : list A) (x : A) :
  ForallOrdPairs R l -> Forall (fun a => R a x) l ->
  ForallOrdPairs R (l ++ [x]).
Proof.
  induction 1 as [|a l Ha Hl IH]; simpl; intros Hx.
  - repeat constructor.
  - inversion Hx; subst; constructor.
    + apply Forall_app; split; [exact Ha|repeat constructor; assumption].
    + apply IH; assumption.
Qed.

Lemma grouped_invariant (textItems : list TextItem) (lines : list LineGroup) :
  Forall within lines ->
  ForallOrdPairs apart (map groupY lines) ->
  let result := fold_left (fun ls item => addItem item ls) textItems lines in
  Permutation (flat_map items result) (flat_map items lines ++ textItems)
  /\ Forall within result
  /\ ForallOrdPairs apart (map groupY result).
Proof.
  revert lines; induction textItems as [|item rest IH];
    intros lines Hw Hp; simpl.
  - rewrite app_nil_r; auto.
  - destruct (IH (addItem item lines)) as (HP & HW & HA).
    + apply addItem_within; exact Hw.
    + destruct (addItem_ys item lines) as [->|[-> H]];
        [exact Hp|apply pairs_snoc; assumption].
    + split; [|split; assumption].
      rewrite HP, addItem_items; simpl.
      rewrite <- Permutation_middle; reflexivity.
Qed.

(** *** Sorting *)

Lemma insertDesc_perm (l : LineGroup) (sorted : list LineGroup) :
  Permutation (insertDesc l sorted) (l :: sorted).
Proof.
  induction sorted as [|h t IH]; simpl; [reflexivity|].
  destruct (groupY h <? groupY l)%Z; [reflexivity|].
  rewrite IH; apply perm_swap.
Qed.

Lemma sortDesc_perm_acc (lines acc : list LineGroup) :
  Permutation (fold_left (fun sorted l => insertDesc l sorted) lines acc)
              (acc ++ lines).
Proof.
  revert acc; induction lines as [|l lines IH]; intros acc; simpl.
  - rewrite app_nil_r; reflexivity.
  - rewrite IH, insertDesc_perm; simpl.
    rewrite <- Permutation_middle; reflexivity.
Qed.

Lemma sortDesc_perm (lines : list LineGroup) :
  Permutation (sortDesc lines) lines.
Proof. apply (sortDesc_perm_acc lines []). Qed.

Lemma insertDesc_sorted (l : LineGroup) (sorted : list LineGroup) :
  StronglySorted aboveLine sorted ->
  Forall (fun a => apart (groupY a) (groupY l)) sorted ->
  StronglySorted aboveLine (insertDesc l sorted).
Proof.
  induction 1 as [|h t Ht IH Hh]; simpl; intros Hfar.
  - repeat constructor.
  - inversion Hfar as [|? ? Hhl Htl]; subst.
    unfold apart, tolerance in Hhl.
    destruct (groupY h <? groupY l)%Z eqn:E.
    + apply Z.ltb_lt in E.
      constructor; [constructor; assumption|].
      constructor; [unfold aboveLine, above, tolerance; lia|].
      eapply Forall_impl; [|exact Hh].
      unfold aboveLine, above, tolerance; intros; lia.
    + apply Z.ltb_ge in E.
      constructor; [apply IH; exact Htl|].
      eapply Permutation_Forall; [symmetry; apply insertDesc_perm|].
      constructor; [unfold aboveLine, above, tolerance; lia|exact Hh].
Qed.

Lemma sortDesc_sorted_acc (lines : list LineGroup) :
  forall acc,
    StronglySorted aboveLine acc ->
    ForallOrdPairs apart (map groupY lines) ->
    Forall (fun a => Forall (fun b => apart (groupY a) (groupY b)) lines) acc ->
    StronglySorted aboveLine
      (fold_left (fun sorted l => insertDesc l sorted) lines acc).
Proof.
  induction lines as [|l lines IH]; intros acc Hs Hp Hfar; simpl; [exact Hs|].
  inversion Hp as [|? ? Hl Hp']; subst.
  apply IH; [|exact Hp'|].
  - apply insertDesc_sorted; [exact Hs|].
    eapply Forall_impl; [|exact Hfar].
    intros a Ha; inversion Ha; assumption.
  - eapply Permutation_Forall; [symmetry; apply insertDesc_perm|].
    constructor.
    + rewrite Forall_map in Hl; eapply Forall_impl; [|exact Hl].
      intros b Hb; exact Hb.
    + eapply Forall_impl; [|exact Hfar].
      intros a Ha; inversion Ha; assumption.
Qed.

Lemma groupedLines_sorted (textItems : list TextItem) :
  StronglySorted aboveLine (groupedLines textItems).
Proof.
  destruct (grouped_invariant textItems [] (Forall_nil _) (FOP_nil _))
    as (_ & _ & Hp).
  apply sortDesc_sorted_acc; [constructor|exact Hp|constructor].
Qed.

(** *** The page as a whole *)

(** [X1] [groupTextIntoLines] loses no fragment and repeats none: the lines
    partition the fragments of the page, and every fragment lies within the
    tolerance of two units of the coordinate of its line. *)
Theorem lines_partition_fragments (textItems : list TextItem) :
  groupTextIntoLines textItems = map lineOf (groupedLines textItems)
  /\ Permutation (flat_map items (groupedLines textItems)) textItems
  /\ Forall within (groupedLines textItems).
Proof.
  destruct (grouped_invariant textItems [] (Forall_nil _) (FOP_nil _))
    as (HP & HW & _).
  split; [reflexivity|split].
  - unfold groupedLines; rewrite (sortDesc_perm (grouped textItems)).
    exact HP.
  - eapply Permutation_Forall; [symmetry; apply sortDesc_perm|exact HW].
Qed.

Lemma sorted_map {A B : Type} (R : A -> A -> Prop) (S : B -> B -> Prop)
      (f : A -> B) (l : list A) :
  (forall a b, R a b -> S (f a) (f b)) ->
  StronglySorted R l -> StronglySorted S (map f l).
Proof.
  intros HRS; induction 1 as [|a l Hl IH Ha]; simpl; constructor; auto.
  rewrite Forall_map; eapply Forall_impl; [|exact Ha]; auto.
Qed.

Lemma lines_sorted (textItems : list TextItem) :
  StronglySorted (fun a b => above (lineY a) (lineY b))
                 (groupTextIntoLines textItems).
Proof.
  rewrite groupTextIntoLines_grouped.
  eapply sorted_map; [|apply groupedLines_sorted].
  intros a b H; exact H.
Qed.

(** [X2] The lines come out top of the page first, and any two of them lie
    further apart than the tolerance: each line is more than two units above
    the lines after it. *)
Theorem lines_descend (textItems : list TextItem) :
  StronglySorted (fun a b => above (lineY a) (lineY b))
                 (groupTextIntoLines textItems).
Proof. exact (lines_sorted textItems). Qed.

Lemma sorted_flat_map_option {A B : Type} (R : A -> A -> Prop)
      (S : B -> B -> Prop) (f : A -> option B) (l : list A) :
  (forall a b x y, R a b -> f a = Some x -> f b = Some y -> S x y) ->
  StronglySorted R l ->
  StronglySorted S
    (flat_map (fun a => match f a with Some x => [x] | None => [] end) l).
Proof.
  intros HRS; induction 1 as [|a l Hl IH Ha]; simpl; [constructor|].
  destruct (f a) as [x|] eqn:E; simpl; [|exact IH].
  constructor; [exact IH|].
  apply Forall_forall; intros z Hz.
  apply in_flat_map in Hz as (b & Hb & Hz).
  destruct (f b) as [z'|] eqn:Eb; [|contradiction].
  destruct Hz as [<-|[]].
  rewrite Forall_forall in Ha; eapply HRS; eauto.
Qed.

Lemma flat_map_option_length {A B : Type} (f : A -> option B) (l : list A) :
  List.length
    (flat_map (fun a => match f a with Some x => [x] | None => [] end) l)
  <= List.length l.
Proof.
  induction l as [|a l IH]; simpl; [lia|].
  destruct (f a); simpl; lia.
Qed.

Lemma grouped_length (textItems : list TextItem) (lines : list LineGroup) :
  List.length (fold_left (fun ls item => addItem item ls) textItems lines)
  <= List.length lines + List.length textItems.
Proof.
  revert lines; induction textItems as [|item rest IH]; intros lines; simpl;
    [lia|].
  specialize (IH (addItem item lines)).
  assert (H : List.length (addItem item lines) <= S (List.length lines)).
  { clear; induction lines as [|l lines IH]; simpl; [lia|].
    destruct (Z.abs (groupY l - y item) <=? tolerance)%Z; simpl; lia. }
  lia.
Qed.

Lemma parseTransactionLine_page (toFixed2 : string -> string) (line : Line)
      (t : record) :
  parseTransactionLine toFixed2 line = Some t -> pageOf t = lineY line.
Proof.
  unfold parseTransactionLine.
  destruct (Parser.is_empty _); [discriminate|].
  destruct (Parser.first_match _ _); [|discriminate].
  intros H; injection H as <-; reflexivity.
Qed.

(** [X3] The records of a page come in the order of its lines, top of the
    page first: the coordinate each carries is more than two units above
    those of the records after it, so no two records come from one line, and
    there are no more records than fragments. *)
Theorem page_records_descend (toFixed2 : string -> string)
        (textItems : list TextItem) :
  StronglySorted (fun a b => above (pageOf a) (pageOf b))
                 (parsePDFPage toFixed2 textItems)
  /\ List.length (parsePDFPage toFixed2 textItems) <= List.length textItems.
Proof.
  unfold parsePDFPage; split.
  - eapply sorted_flat_map_option; [|apply lines_sorted].
    intros a b x y' H Hx Hy.
    apply parseTransactionLine_page in Hx, Hy; rewrite Hx, Hy; exact H.
  - etransitivity; [apply flat_map_option_length|].
    rewrite groupTextIntoLines_grouped, length_map.
    unfold groupedLines; rewrite (Permutation_length (sortDesc_perm _)).
    apply (grouped_length textItems []).
Qed.

End PdfLineFacts.

(** ** The generic table strategy *)

Module CellFacts.
Import Utils Cells CellNotions.

Lemma isAmount_not_empty (text : string) :
  isAmount text = true -> is_empty text = false.
Proof. destruct text; [discriminate|reflexivity]. Qed.

Lemma long_not_empty (text : string) :
  (3 <? String.length text) = true -> is_empty text = false.
Proof. destruct text; [discriminate|reflexivity]. Qed.

Lemma last_cons {A : Type} (l : list A) (a d : A) :
  last (a :: l) d = last l a.
Proof.
  revert a d; induction l as [|b l IH]; intros a d; [reflexivity|].
  change (last (a :: b :: l) d) with (last (b :: l) d).
  rewrite !IH; reflexivity.
Qed.

(** The four fields the headers have no part in, after the loop has run
    from any state of the transaction. *)
Lemma classifyAll_fields (texts : list string) :
  forall headers t,
    let t' := classifyAll texts headers t in
    date t' = last (map normalizeDate (dateTexts texts)) (date t)
    /\ amount t'
       = (if is_empty (amount t) then nth 0 (amountTexts texts) ""
          else amount t)
    /\ balance t'
       = (if is_empty (balance t)
          then if is_empty (amount t) then nth 1 (amountTexts texts) ""
               else nth 0 (amountTexts texts) ""
          else balance t)
    /\ description t'
       = (if is_empty (description t) then hd "" (otherTexts texts)
          else description t).
Proof.
  induction texts as [|text texts IH]; intros headers t.
  - simpl.
    destruct (is_empty (amount t)) eqn:Ea, (is_empty (balance t)) eqn:Eb,
      (is_empty (description t)) eqn:Ed;
      unfold is_empty in *; rewrite ?String.eqb_eq in *; auto.
  - cbn [classifyAll]; cbv zeta.
    specialize (IH (tl headers) (classify t text (hd "" headers))).
    cbv zeta in IH; destruct IH as (Hd & Ha & Hb & He).
    rewrite Hd, Ha, Hb, He; clear Hd Ha Hb He.
    unfold classify, dateTexts, amountTexts, otherTexts; cbn [filter].
    destruct (isDate text) eqn:Edate; cbn [negb andb map].
    + cbn [date amount balance description].
      split; [symmetry; apply last_cons|auto].
    + destruct (isAmount text) eqn:Eamt; cbn [negb andb].
      * pose proof (isAmount_not_empty _ Eamt) as Hne.
        destruct (is_empty (amount t)) eqn:Ea.
        -- cbn [date amount balance description]; rewrite Hne.
           cbn [nth]; destruct (is_empty (balance t)); auto.
        -- destruct (is_empty (balance t)) eqn:Eb.
           ++ cbn [date amount balance description]; rewrite Ea, Hne.
              cbn [nth]; auto.
           ++ rewrite Ea, Eb; auto.
      * destruct (3 <? String.length text) eqn:Elen; cbn [andb].
        -- pose proof (long_not_empty _ Elen) as Hne.
           destruct (is_empty (description t)) eqn:Ed; cbn [andb].
           ++ cbn [date amount balance description]; rewrite Hne.
              cbn [hd]; auto.
           ++ destruct (_ || _); [|destruct (_ || _)];
                cbn [date amount balance description]; rewrite ?Ed; auto.
        -- destruct (_ || _); [|destruct (_ || _)];
             cbn [date amount balance description]; auto.
Qed.

(** [X4] [createTransactionFromCells] lets every date-like cell overwrite
    the date: the date of the record is that of the last date-like cell,
    normalised, and is empty when no cell reads as a date. *)
Theorem cells_date_is_last (cells headers : list string) :
  field "date" (createTransactionFromCells cells headers)
  = last (map normalizeDate (dateTexts (map Js.trim cells))) "".
Proof.
  unfold createTransactionFromCells, field, toRecord; cbn [get String.eqb].
  destruct (classifyAll_fields (map Js.trim cells) headers noFields)
    as (H & _); exact H.
Qed.

(** [X5] The amount is the first cell that reads as an amount, the balance
    the second, and the description the first other cell longer than three
    characters, whatever the headers; further amounts are dropped. *)
Theorem cells_first_win (cells headers : list string) :
  let t := createTransactionFromCells cells headers in
  let texts := map Js.trim cells in
  field "amount" t = nth 0 (amountTexts texts) ""
  /\ field "balance" t = nth 1 (amountTexts texts) ""
  /\ field "description" t = hd "" (otherTexts texts).
Proof.
  cbv zeta; unfold createTransactionFromCells, field, toRecord.
  destruct (classifyAll_fields (map Js.trim cells) headers noFields)
    as (_ & Ha & Hb & Hd).
  repeat split; simpl; assumption.
Qed.

End CellFacts.

(** ** Tables read as transactions *)

Module TableFacts.
Import Utils Cells Retention.

Lemma pushIfValid_length (t : record) (ts : list record) :
  List.length (pushIfValid t ts) <= S (List.length ts).
Proof.
  unfold pushIfValid.
  destruct (isValidTransaction (Some t)) as [v|]; [destruct (truthy v)|];
    rewrite ?length_app; simpl; lia.
Qed.

Lemma pushIfValid_accepted (t : record) (ts : list record) :
  Forall (fun r => accepted r = true) ts ->
  Forall (fun r => accepted r = true) (pushIfValid t ts).
Proof.
  intros H; unfold pushIfValid.
  destruct (isValidTransaction (Some t)) as [v|] eqn:E; [|exact H].
  destruct (truthy v) eqn:Ev; [|exact H].
  apply Forall_app; split; [exact H|].
  repeat constructor; unfold accepted; rewrite E; exact Ev.
Qed.

Lemma tableRows_bound (rows : list (list string)) :
  forall first headers ts,
    List.length (tableRows rows first headers ts)
    <= List.length ts + (List.length rows - (if first then 1 else 0))
    /\ (Forall (fun r => accepted r = true) ts ->
        Forall (fun r => accepted r = true)
               (tableRows rows first headers ts)).
Proof.
  induction rows as [|cells rows IH]; intros first headers ts;
    cbn [tableRows List.length].
  - split; [lia|auto].
  - destruct (first || _) eqn:E.
    + destruct (IH false (map (fun cell => Js.toLowerCase (Js.trim cell)) cells)
                   ts) as [Hl Ha].
      split; [|exact Ha].
      destruct first; simpl in *; lia.
    + destruct first; [discriminate|].
      destruct (0 <? List.length cells).
      * destruct (IH false headers
                     (pushIfValid
                        (createTransactionFromCells cells headers) ts))
          as [Hl Ha].
        split.
        -- pose proof (pushIfValid_length
                         (createTransactionFromCells cells headers) ts).
           simpl in *; lia.
        -- intros H; apply Ha, pushIfValid_accepted, H.
      * destruct (IH false headers ts) as [Hl Ha].
        split; [simpl in *; lia|exact Ha].
Qed.

Lemma pushIfValid_accepts (t : record) (ts : list record) :
  pushIfValid t ts = (ts ++ filter accepted [t])%list.
Proof.
  unfold pushIfValid; cbn [filter]; unfold accepted.
  destruct (isValidTransaction (Some t)) as [v|]; [destruct (truthy v)|];
    rewrite ?app_nil_r; reflexivity.
Qed.

(** Once the headers are read, every row that has cells is read as a
    transaction under them. *)
Lemma tableRows_under (rows : list (list string)) :
  forall headers ts,
    headers <> [] ->
    tableRows rows false headers ts
    = (ts ++ CellNotions.recordsUnder headers rows)%list.
Proof.
  unfold CellNotions.recordsUnder.
  induction rows as [|cells rows IH]; intros headers ts Hh;
    cbn [tableRows filter map].
  - rewrite app_nil_r; reflexivity.
  - destruct headers as [|h headers]; [congruence|].
    cbn [List.length Nat.eqb orb andb].
    destruct (0 <? List.length cells).
    + rewrite IH by exact Hh; rewrite pushIfValid_accepts.
      cbn [map filter]; rewrite <- app_assoc.
      destruct (accepted _); reflexivity.
    + apply IH; exact Hh.
Qed.

(** Until a row has cells no headers are read, and the first row that has
    cells gives them. *)
Lemma tableRows_header (rows : list (list string)) :
  forall ts,
    tableRows rows false [] ts
    = match CellNotions.fromHeader rows with
      | [] => ts
      | first :: rest =>
          (ts ++ CellNotions.recordsUnder (CellNotions.headerTexts first)
                                          rest)%list
      end.
Proof.
  induction rows as [|cells rows IH]; intros ts;
    cbn [tableRows CellNotions.fromHeader]; [reflexivity|].
  cbn [List.length Nat.eqb orb andb].
  destruct cells as [|c cells]; cbn [List.length Nat.ltb Nat.leb];
    [apply IH|].
  apply tableRows_under; discriminate.
Qed.

(** [X6] [extractFromTable] takes the first row of a table that has cells
    for the header row and never reads it as a transaction: the records
    are those the validator accepts among the later rows that have cells,
    read under the headers of that row, in the order of the rows.  So a
    table gives at most one record fewer than it has rows. *)
Theorem table_first_row_is_header (rows : list (list string))
        (transactions : list record) :
  extractFromTable rows transactions
  = match CellNotions.fromHeader rows with
    | [] => transactions
    | first :: rest =>
        (transactions
         ++ CellNotions.recordsUnder (CellNotions.headerTexts first)
                                     rest)%list
    end
  /\ List.length (extractFromTable rows []) <= List.length rows - 1
  /\ Forall (fun r => accepted r = true) (extractFromTable rows []).
Proof.
  split.
  - unfold extractFromTable.
    destruct rows as [|[|c cells] rows];
      cbn [tableRows CellNotions.fromHeader orb List.length Nat.ltb Nat.leb
           map]; [reflexivity|apply tableRows_header|].
    apply tableRows_under; discriminate.
  - destruct (tableRows_bound rows true [] []) as [Hl Ha].
    split; [exact Hl|apply Ha; constructor].
Qed.

(** A table that has no header row loses its first transaction. *)
Lemma headless_table_loses_first_row :
  extractFromTable CellNotions.headless []
  = [ [ ("date", VStr "22/10/2025"); ("description", VStr "GROCERY STORE");
        ("amount", VStr "$31.20"); ("balance", VStr "");
        ("type", VStr ""); ("reference", VStr "") ] ].
Proof. vm_compute; reflexivity. Qed.

End TableFacts.

(** ** The choice of the table to read *)

Module PageFacts.
Import Parser Extractor Page PageNotions.

Lemma pickBest_chosen (tables : list Table) :
  forall seen best maxRows,
    chosen seen best maxRows ->
    chosen (seen ++ tables)
           (fst (pickBest tables best maxRows))
           (snd (pickBest tables best maxRows)).
Proof.
  induction tables as [|table tables IH]; intros seen best maxRows H.
  - rewrite app_nil_r; exact H.
  - replace (seen ++ table :: tables)%list
      with ((seen ++ [table]) ++ tables)%list
      by (rewrite <- app_assoc; reflexivity).
    cbn [pickBest]; fold (rowCount table).
    destruct (isCandidate table) eqn:Ec; cbn [andb].
    + destruct (maxRows <? rowCount table) eqn:El.
      * apply Nat.ltb_lt in El; apply IH; cbn [chosen].
        split; [exact Ec|split; [reflexivity|split; [lia|]]].
        exists seen, []; split; [reflexivity|split].
        -- destruct best as [b|]; cbn [chosen] in H.
           ++ destruct H as (_ & Hm & _ & before & after & -> & Hb & Ha).
              intros t Ht Hc; apply in_app_iff in Ht as [Ht|[<-|Ht]].
              ** specialize (Hb t Ht Hc); lia.
              ** lia.
              ** specialize (Ha t Ht Hc); lia.
           ++ destruct H as [-> H]; intros t Ht Hc.
              rewrite (H t Ht Hc); exact El.
        -- intros t [].
      * apply Nat.ltb_ge in El; apply IH.
        destruct best as [b|]; cbn [chosen] in *.
        -- destruct H as (Hc & Hm & Hp & before & after & -> & Hb & Ha).
           split; [exact Hc|split; [exact Hm|split; [exact Hp|]]].
           exists before, (after ++ [table])%list.
           split; [rewrite <- app_assoc; reflexivity|split; [exact Hb|]].
           intros t Ht Hct; apply in_app_iff in Ht as [Ht|[<-|[]]];
             [apply Ha; assumption|exact El].
        -- destruct H as [-> H]; split; [reflexivity|].
           intros t Ht Hct; apply in_app_iff in Ht as [Ht|[<-|[]]];
             [apply H; assumption|lia].
    + apply IH; destruct best as [b|]; cbn [chosen] in *.
      * destruct H as (Hc & Hm & Hp & before & after & -> & Hb & Ha).
        split; [exact Hc|split; [exact Hm|split; [exact Hp|]]].
        exists before, (after ++ [table])%list.
        split; [rewrite <- app_assoc; reflexivity|split; [exact Hb|]].
        intros t Ht Hct; apply in_app_iff in Ht as [Ht|[<-|[]]];
          [apply Ha; assumption|congruence].
      * destruct H as [-> H]; split; [reflexivity|].
        intros t Ht Hct; apply in_app_iff in Ht as [Ht|[<-|[]]];
          [apply H; assumption|congruence].
Qed.

(** [X7] The table read is a candidate with the most transaction rows, the
    first of them in document order, and it has a row at least; no table is
    chosen only when every candidate is empty. *)
Theorem best_table_has_most_rows (doc : Document) :
  chosen (allTables doc) (fst (bestTable doc)) (snd (bestTable doc)).
Proof.
  apply (pickBest_chosen (allTables doc) [] None 0).
  split; [reflexivity|intros t []].
Qed.

End PageFacts.

(** ** The rows counted and the rows read *)

Module CountFacts.
Import Utils Parser Extractor Page PageNotions.

Lemma find_filter {A : Type} (f : A -> bool) (l : list A) :
  find f l = hd_error (filter f l).
Proof.
  induction l as [|a l IH]; cbn [find filter]; [reflexivity|].
  destruct (f a); [reflexivity|exact IH].
Qed.

Lemma bestTable_chosen (doc : Document) :
  chosen (allTables doc) (fst (bestTable doc)) (snd (bestTable doc)).
Proof.
  apply (PageFacts.pickBest_chosen (allTables doc) [] None 0).
  split; [reflexivity|intros t []].
Qed.

(** [X8] The count the load loops watch is the number of rows the extraction
    then reads: the rows of the chosen table or, without one, every
    transaction row of the document. *)
Theorem loop_counts_rows_read (doc : Document) :
  getCurrentTransactionCount doc
  = match rowsToExtract doc with
    | Some rows => List.length rows
    | None => 0
    end.
Proof.
  pose proof (bestTable_chosen doc) as H.
  unfold getCurrentTransactionCount, rowsToExtract.
  destruct (bestTable doc) as [[table|] maxRows]; cbn [fst snd chosen] in H.
  - destruct H as (_ & -> & _); reflexivity.
  - destruct (allTransactionRows doc); reflexivity.
Qed.

(** [X9] On a page with one candidate table that has rows, the extraction
    reads that table, and the live count is the number of records it gives
    whenever it gives any. *)
Theorem live_count_agrees (doc : Document) (table : Table)
        (Hone : filter isCandidate (allTables doc) = [table])
        (Hrows : transactionRows table <> []) :
  rowsToExtract doc = Some (transactionRows table)
  /\ (extractFromRBCTransactionRows (transactionRows table) [] <> [] ->
      countTransactionsOnPage doc
      = List.length
          (extractFromRBCTransactionRows (transactionRows table) [])).
Proof.
  assert (Hin : forall t, In t (allTables doc) -> isCandidate t = true ->
                          t = table).
  { intros t Ht Hc.
    assert (In t (filter isCandidate (allTables doc)))
      by (apply filter_In; split; assumption).
    rewrite Hone in H; destruct H as [<-|[]]; reflexivity. }
  assert (Htable : In table (allTables doc) /\ isCandidate table = true).
  { apply filter_In; rewrite Hone; left; reflexivity. }
  split.
  - pose proof (bestTable_chosen doc) as H.
    unfold rowsToExtract.
    destruct (bestTable doc) as [[b|] maxRows]; cbn [fst snd chosen] in H.
    + destruct H as (Hc & _ & _ & before & after & E & _).
      rewrite (Hin b); [reflexivity| |exact Hc].
      rewrite E; apply in_app_iff; right; left; reflexivity.
    + destruct H as [_ H]; destruct Htable as [Ht Hc].
      specialize (H table Ht Hc); unfold rowCount in H.
      destruct (transactionRows table); [congruence|discriminate].
  - intros Hsome; unfold countTransactionsOnPage, firstCandidate.
    rewrite find_filter, Hone; cbn [hd_error].
    rewrite RetentionFacts.extract_filter in *; cbn [app] in *.
    assert (E : filter
                  (fun row =>
                     match isValidTransaction
                             (Some (parseRBCTransactionRow row)) with
                     | Some valid => Value.truthy valid
                     | None => false
                     end) (transactionRows table)
                = filter (fun row => Retention.accepted
                                       (parseRBCTransactionRow row))
                         (transactionRows table)) by reflexivity.
    rewrite E; clear E.
    assert (L : forall rows,
               List.length (filter (fun row => Retention.accepted
                                       (parseRBCTransactionRow row)) rows)
               = List.length (filter Retention.accepted
                                     (map parseRBCTransactionRow rows))).
    { induction rows as [|r rows IH]; cbn [filter map]; [reflexivity|].
      destruct (Retention.accepted (parseRBCTransactionRow r));
        cbn [List.length]; rewrite IH; reflexivity. }
    rewrite L.
    destruct (filter Retention.accepted
                     (map parseRBCTransactionRow (transactionRows table)));
      [congruence|reflexivity].
Qed.

Lemma live_count_agrees_example :
  rowsToExtract oneTable
  = Some [ Retention.blankRow; Polarity.creditRow (Some "50.00") None ]
  /\ countTransactionsOnPage oneTable = 1.
Proof.
  destruct (live_count_agrees oneTable
              {| className := "rbc-transaction-list-table";
                 transactionRows :=
                   [ Retention.blankRow;
                     Polarity.creditRow (Some "50.00") None ] |})
    as [H1 H2]; [reflexivity|discriminate|].
  split; [exact H1|].
  rewrite H2; [reflexivity|vm_compute; discriminate].
Defined.

End CountFacts.

(** ** The PDF links of a page *)

Module DetectFacts.
Import Detect DetectNotions.











Lemma indirectLink_indirect (link : Element) (p : PdfLink) :
  In p (indirectLink link) ->
  (Js.includes "statement" (url p) || Js.includes "download" (url p)) = true
  /\ Js.includes ".pdf" (url p) = false.
Proof.
  unfold indirectLink.
  destruct (truthyText _) as [h|]; [|intros []].
  destruct (_ && _) eqn:E; [|intros []].
  intros [<-|[]]; cbn [url].
  apply andb_true_iff in E as [E1 E2]; apply negb_true_iff in E2; tauto.
Qed.


End DetectFacts.

(** ** What the serialisers are given *)

Module ExportFacts.
Import Utils Parser Pdf Extractor Csv ExportNotions.

Lemma all_some_none {A : Type} (f : A -> option string) (l : list A) :
  Popup.all_some (map f l) = None <-> exists x, In x l /\ f x = None.
Proof.
  induction l as [|a l IH]; cbn [map Popup.all_some].
  - split; [discriminate|intros (x & [] & _)].
  - destruct (f a) as [v|] eqn:E.
    + destruct (Popup.all_some (map f l)) as [vs|].
      * split; [discriminate|].
        intros (x & [<-|Hx] & Hn); [congruence|].
        assert (Some vs = None) by (apply IH; exists x; split; assumption).
        discriminate.
      * split; [intros _|reflexivity].
        destruct (proj1 IH eq_refl) as (x & Hx & Hn).
        exists x; split; [right; exact Hx|exact Hn].
    + split; [intros _; exists a; split; [left; reflexivity|exact E]
             |reflexivity].
Qed.

Lemma cell_none (header : string) (t : record) :
  Popup.cell header t = None <-> unprintable (get header t) = true.
Proof.
  unfold Popup.cell, unprintable, or_else.
  destruct (get header t) as [|[]|z|s]; cbn [truthy andb].
  - split; discriminate.
  - split; reflexivity.
  - split; discriminate.
  - destruct (negb (z =? 0)%Z); cbn [andb]; split;
      try reflexivity; discriminate.
  - destruct (negb (String.eqb s "")); cbn [andb]; split; discriminate.
Qed.

Lemma row_none (headers : list string) (t : record) :
  Popup.row headers t = None
  <-> exists h, In h headers /\ unprintable (get h t) = true.
Proof.
  unfold Popup.row.
  destruct (Popup.all_some (map (fun header => Popup.cell header t) headers))
    eqn:E.
  - split; [discriminate|].
    intros (h & Hh & Hu).
    assert (Popup.all_some (map (fun header => Popup.cell header t) headers)
            = None)
      by (apply all_some_none; exists h; split; [exact Hh|apply cell_none, Hu]).
    congruence.
  - split; [intros _|reflexivity].
    apply all_some_none in E as (h & Hh & Hn).
    exists h; split; [exact Hh|apply cell_none, Hn].
Qed.

Lemma truthy_key (k : string) (t : record) :
  truthy (get k t) = true -> In k (keys t).
Proof.
  intros H; apply KeyFacts.keys_In; revert H.
  induction t as [|[k' v] t IH]; cbn [get map fst In];
    [discriminate|].
  destruct (String.eqb k' k) eqn:E.
  - apply String.eqb_eq in E; left; exact E.
  - intros H; right; apply IH, H.
Qed.

Lemma popup_none (ts : list record) :
  Popup.convertToCSV ts = None
  <-> exists t k, In t ts /\ unprintable (get k t) = true.
Proof.
  destruct ts as [|t0 ts0].
  - split; [discriminate|intros (t & k & [] & _)].
  - remember (t0 :: ts0) as ts eqn:Ets.
    assert (E : Popup.convertToCSV ts
                = match Popup.all_some
                          (map (Popup.row (Popup.headersOf ts)) ts) with
                  | Some csvRows =>
                      Some (join_lines
                              (String.concat "," (Popup.headersOf ts)
                                 :: csvRows))
                  | None => None
                  end) by (subst ts; reflexivity).
    rewrite E; clear E Ets.
    destruct (Popup.all_some (map (Popup.row (Popup.headersOf ts)) ts))
      eqn:E.
    + split; [discriminate|].
      intros (t & k & Ht & Hu).
      assert (Popup.all_some (map (Popup.row (Popup.headersOf ts)) ts)
              = None); [|congruence].
      apply all_some_none; exists t; split; [exact Ht|].
      apply row_none; exists k; split; [|exact Hu].
      unfold Popup.headersOf; apply PopupFacts.unique_In; split; [|intros []].
      apply in_flat_map; exists t; split; [exact Ht|].
      apply truthy_key; unfold unprintable in Hu.
      apply andb_true_iff in Hu as [Hu _]; exact Hu.
    + split; [intros _|reflexivity].
      apply all_some_none in E as (t & Ht & Hn).
      apply row_none in Hn as (h & _ & Hu).
      exists t, h; split; assumption.
Qed.


Lemma groupY_is_item (textItems : list TextItem) :
  forall lines,
    incl (map groupY
              (fold_left (fun ls item => addItem item ls) textItems lines))
         (map groupY lines ++ map y textItems).
Proof.
  induction textItems as [|item textItems IH]; intros lines;
    cbn [fold_left map].
  - rewrite app_nil_r; apply incl_refl.
  - intros g Hg; apply IH in Hg; apply in_app_iff in Hg as [Hg|Hg].
    + destruct (PdfLineFacts.addItem_ys item lines) as [E|[E _]];
        rewrite E in Hg.
      * apply in_app_iff; left; exact Hg.
      * apply in_app_iff in Hg as [Hg|[<-|[]]]; apply in_app_iff;
          [left; exact Hg|right; left; reflexivity].
    + apply in_app_iff; right; right; exact Hg.
Qed.

Lemma line_is_item (textItems : list TextItem) (line : Line) :
  In line (groupTextIntoLines textItems) ->
  In (lineY line) (map y textItems).
Proof.
  unfold groupTextIntoLines; intros H.
  apply in_map_iff in H as (l & <- & Hl); cbn [lineY].
  assert (Hg : In (groupY l)
                  (map groupY
                       (fold_left (fun ls item => addItem item ls)
                                  textItems []))).
  { apply in_map.
    eapply Permutation_in; [apply PdfLineFacts.sortDesc_perm|exact Hl]. }
  apply groupY_is_item in Hg; exact Hg.
Qed.

(** [X12] A record read from a statement carries the vertical coordinate of
    its line as a number, so the serialiser of the popup, which the popup
    hands such records to, throws on every statement that gives a record, no
    fragment lying at coordinate zero. *)
Theorem popup_throws_on_statement_records (toFixed2 : string -> string)
        (pages : list (list TextItem)) :
  Forall (Forall (fun item => y item <> 0%Z)) pages ->
  extractTransactionsFromPDF toFixed2 pages <> [] ->
  Popup.convertToCSV (extractTransactionsFromPDF toFixed2 pages) = None.
Proof.
  intros Hy Hne; apply popup_none.
  destruct (extractTransactionsFromPDF toFixed2 pages) as [|t ts] eqn:E;
    [congruence|].
  exists t, "page"; split; [left; reflexivity|].
  assert (Ht : In t (extractTransactionsFromPDF toFixed2 pages))
    by (rewrite E; left; reflexivity).
  unfold extractTransactionsFromPDF in Ht.
  apply in_flat_map in Ht as (page & Hpage & Ht).
  unfold parsePDFPage in Ht.
  apply in_flat_map in Ht as (line & Hline & Ht).
  destruct (parseTransactionLine toFixed2 line) as [t'|] eqn:Et;
    [|destruct Ht].
  destruct Ht as [->|[]].
  apply line_is_item in Hline.
  apply in_map_iff in Hline as (item & Hi & Hitem).
  rewrite Forall_forall in Hy; specialize (Hy page Hpage).
  rewrite Forall_forall in Hy; specialize (Hy item Hitem).
  unfold parseTransactionLine in Et.
  destruct (Parser.is_empty _); [discriminate|].
  destruct (Parser.first_match _ _); [|discriminate].
  injection Et as <-.
  change (get "page" _) with (VNum (lineY line)).
  unfold unprintable; cbn [truthy]; rewrite <- Hi.
  destruct (y item =? 0)%Z eqn:Ez; [apply Z.eqb_eq in Ez; tauto|reflexivity].
Qed.

Lemma popup_throws_on_statement_records_example :
  Popup.convertToCSV
    (extractTransactionsFromPDF (fun lit => lit) [Retention.statementPage])
  = None.
Proof.
  apply (popup_throws_on_statement_records (fun lit => lit)
           [Retention.statementPage]).
  - repeat constructor; discriminate.
  - vm_compute; discriminate.
Defined.

End ExportFacts.

(** ** The records of the row parser *)

Module RowRecordFacts.
Import Utils Parser Extractor Csv ExportNotions.

Lemma parse_keys (row : Row) : keys (parseRBCTransactionRow row) = rowKeys.
Proof.
  unfold parseRBCTransactionRow.
  destruct (extractDescription _ row); reflexivity.
Qed.

Lemma parse_printable (row : Row) (k : string) :
  unprintable (get k (parseRBCTransactionRow row)) = false.
Proof.
  unfold parseRBCTransactionRow.
  destruct (extractDescription _ row) as [description vendor].
  cbn [get].
  repeat match goal with
         | |- context [if ?b then _ else _] => destruct b
         end;
    unfold unprintable; cbn [truthy];
    try apply andb_false_r; reflexivity.
Qed.

Lemma parse_reference (row : Row) :
  get "reference" (parseRBCTransactionRow row) = VStr "".
Proof.
  unfold parseRBCTransactionRow.
  destruct (extractDescription _ row); reflexivity.
Qed.

Lemma parse_accountType_text (row : Row) :
  get "accountType" (parseRBCTransactionRow row) = VStr (accountTypeOf row)
  /\ accountTypeOf row <> "".
Proof.
  split.
  - unfold parseRBCTransactionRow.
    destruct (extractDescription _ row); reflexivity.
  - unfold accountTypeOf.
    repeat match goal with
           | |- context [if ?b then _ else _] => destruct b
           end; discriminate.
Qed.

Lemma extracted_parsed (rows : list Row) (t : record) :
  In t (extractFromRBCTransactionRows rows []) ->
  exists row, t = parseRBCTransactionRow row.
Proof.
  rewrite RetentionFacts.extract_filter; cbn [app].
  rewrite filter_In, in_map_iff; intros [(row & <- & _) _].
  exists row; reflexivity.
Qed.

(** [X13] The records read from the rows of a page all have the eight keys
    of the row parser and texts for values.  The serialiser of the popup
    writes them under those eight keys, the type among them, and does not
    throw; the exporter writes an Account Type column for them and never a
    Reference column, the row parser leaving the reference empty. *)
Theorem page_records_columns (rows : list Row) :
  extractFromRBCTransactionRows rows [] <> [] ->
  Popup.headersOf (extractFromRBCTransactionRows rows []) = rowKeys
  /\ Popup.convertToCSV (extractFromRBCTransactionRows rows []) <> None
  /\ In "accountType" (headersOf (extractFromRBCTransactionRows rows []))
  /\ ~ In "reference" (headersOf (extractFromRBCTransactionRows rows [])).
Proof.
  intros Hne.
  pose proof (extracted_parsed rows) as Hp.
  destruct (extractFromRBCTransactionRows rows []) as [|t ts];
    [congruence|clear Hne].
  split; [|split; [|split]].
  - unfold Popup.headersOf; cbn [flat_map].
    destruct (Hp t (or_introl eq_refl)) as (row & ->).
    rewrite parse_keys, PopupFacts.unique_app.
    change (Popup.unique [] rowKeys) with rowKeys.
    rewrite PopupFacts.unique_seen; [apply app_nil_r|].
    intros k Hk; apply in_flat_map in Hk as (t' & Ht' & Hk).
    destruct (Hp t' (or_intror Ht')) as (row' & ->).
    rewrite parse_keys in Hk; apply in_app_iff; left.
    apply in_rev in Hk; exact Hk.
  - intros H; apply ExportFacts.popup_none in H as (t' & k & Ht' & Hu).
    destruct (Hp t' Ht') as (row & ->).
    rewrite parse_printable in Hu; discriminate.
  - apply ColumnFacts.headersOf_spec; split; [cbn; tauto|].
    exists t; split; [left; reflexivity|].
    destruct (Hp t (or_introl eq_refl)) as (row & ->).
    destruct (parse_accountType_text row) as [E Hn].
    apply (ColumnFacts.has_data_string _ _ _ E); exact Hn.
  - intros H; apply ColumnFacts.headersOf_spec in H as (_ & t' & Ht' & Hd).
    destruct (Hp t' Ht') as (row & ->).
    apply (ColumnFacts.has_data_string _ _ _ (parse_reference row)) in Hd.
    congruence.
Qed.

Lemma page_records_columns_example :
  Popup.headersOf
    (extractFromRBCTransactionRows
       [ Retention.blankRow; paymentRow ] []) = rowKeys.
Proof.
  destruct (page_records_columns [ Retention.blankRow; paymentRow ])
    as (H & _); [vm_compute; discriminate|exact H].
Defined.

(** [X14] On a credit card row with a description cell, the description is
    one of Payment, Refund and Purchase, or empty when the cell holds no
    text; so the type computed from it is Payment for a payment and empty
    for everything else. *)
Theorem credit_type_is_payment_or_empty (row : Row) (divs : list string) :
  accountTypeOf row = "credit" ->
  descElement row = Some divs ->
  let t := parseRBCTransactionRow row in
  (get "description" t = VStr "Payment" /\ get "type" t = VStr "Payment")
  \/ ((get "description" t = VStr "Refund"
       \/ get "description" t = VStr "Purchase"
       \/ get "description" t = VStr "")
      /\ get "type" t = VStr "").
Proof.
  intros Hc Hd; cbv zeta; unfold parseRBCTransactionRow.
  rewrite Hc; unfold extractDescription; rewrite Hd.
  change (String.eqb "credit" "credit") with true; cbv iota.
  destruct (descriptions divs) as [|text ds].
  - right; split; [right; right; reflexivity|reflexivity].
  - destruct (Js.includes "payment" (Js.toLowerCase text)).
    + left; split; reflexivity.
    + destruct (Js.includes "refund" (Js.toLowerCase text));
        right; split; [left; reflexivity|reflexivity
                       |right; left; reflexivity|reflexivity].
Qed.

Lemma credit_type_is_payment_or_empty_example :
  get "type" (parseRBCTransactionRow paymentRow) = VStr "Payment"
  /\ get "type" (parseRBCTransactionRow
                   (Polarity.creditRow (Some "50.00") None)) = VStr "".
Proof.
  split.
  - destruct (credit_type_is_payment_or_empty paymentRow
                ["PAYMENT - THANK YOU"] eq_refl eq_refl)
      as [[_ H]|[[H|[H|H]] _]];
      [exact H|vm_compute in H; discriminate H..].
  - destruct (credit_type_is_payment_or_empty
                (Polarity.creditRow (Some "50.00") None)
                ["STARBUCKS"] eq_refl eq_refl)
      as [[H _]|[_ H]]; [vm_compute in H; discriminate H|exact H].
Defined.

End RowRecordFacts.

(** ** How the load loops end *)

Module LoopEndFacts.
Import Extractor LoopEnds.

Section Loop.
Context {Page : Type}.
Variable src : Source Page.
Variable act : Page -> Page * nat.

Lemma loop_runs_out (n : nat) :
  forall attempts clickCount s,
    n <= attempts ->
    keeps_changing src act n s ->
    n = attempts \/ findShowMoreButton src (page_before act n s) = false ->
    loop src act attempts clickCount s
    = (page_before act n s, clickCount + n).
Proof.
  induction n as [|n IH]; intros attempts clickCount s Hle Hch Hend.
  - cbn [page_before] in *; destruct attempts as [|a]; cbn [loop].
    + f_equal; lia.
    + destruct Hend as [Hend| ->]; [discriminate|f_equal; lia].
  - destruct attempts as [|a]; [lia|]; cbn [loop].
    destruct (Hch 0 ltac:(lia)) as [Hb Hc]; cbn [page_before] in Hb, Hc.
    rewrite Hb; rewrite LoopFacts.page_before_shift in Hend |- *.
    destruct (act s) as [s' afterCount] eqn:E; cbn [fst snd] in *.
    apply Nat.eqb_neq in Hc; rewrite Hc.
    rewrite (IH a (S clickCount) s'); [f_equal; lia|lia| |].
    + intros i Hi; specialize (Hch (S i) ltac:(lia)).
      rewrite LoopFacts.page_before_shift, E in Hch; exact Hch.
    + destruct Hend as [Hend|Hend]; [left; lia|right; exact Hend].
Qed.
End Loop.

(** [X15] Each load loop is also left when no button is found, or at the
    ceiling: after [n] activations that each changed the count, with no
    button left or [n] at 100, it has made [n] activations and the page is
    the one the last of them left. *)
Theorem load_loops_end_without_button {Page : Type} (src : Source Page)
        (s : Page) (n : nat) :
  n <= 100 ->
  (keeps_changing src (activateWithProgress src) n s ->
   n = 100
   \/ findShowMoreButton src (page_before (activateWithProgress src) n s)
      = false ->
   clickAllShowMoreButtonsWithProgress src s
   = (page_before (activateWithProgress src) n s, n))
  /\ (keeps_changing src (activate src) n s ->
      n = 100
      \/ findShowMoreButton src (page_before (activate src) n s) = false ->
      clickAllShowMoreButtons src s
      = (page_before (activate src) n s, n)).
Proof.
  intros Hn; split; intros Hch Hend.
  - unfold clickAllShowMoreButtonsWithProgress.
    rewrite (loop_runs_out src _ n maxAttempts 0 s); auto.
  - unfold clickAllShowMoreButtons.
    rewrite (loop_runs_out src _ n maxAttempts 0 s); auto.
Qed.

Lemma load_loops_end_without_button_example :
  clickAllShowMoreButtonsWithProgress pagerSource twoPages
  = ({| rowsShown := 45; pagesLeft := 0 |}, 2)
  /\ clickAllShowMoreButtons pagerSource twoPages
     = ({| rowsShown := 45; pagesLeft := 0 |}, 2).
Proof.
  destruct (load_loops_end_without_button pagerSource twoPages 2)
    as [Hpoll Hplain]; [lia|].
  split.
  - apply Hpoll; [|right; reflexivity].
    intros i Hi; split; [|destruct i as [|[|i]];
                           [vm_compute; lia|vm_compute; lia|lia]].
    destruct i as [|[|i]]; [reflexivity|reflexivity|lia].
  - apply Hplain; [|right; reflexivity].
    intros i Hi; split; [|destruct i as [|[|i]];
                           [vm_compute; lia|vm_compute; lia|lia]].
    destruct i as [|[|i]]; [reflexivity|reflexivity|lia].
Defined.

Section Poll.
Context {Page : Type}.
Variable src : Source Page.

Lemma poll_waits (rounds : nat) :
  forall beforeCount afterCount s,
    0 < rounds ->
    exists k,
      1 <= k <= rounds
      /\ poll src rounds beforeCount afterCount s
         = (Nat.iter k (sleep src pollInterval) s,
            getCurrentTransactionCount src
              (Nat.iter k (sleep src pollInterval) s))
      /\ (forall j, 1 <= j < k ->
                    getCurrentTransactionCount src
                      (Nat.iter j (sleep src pollInterval) s)
                    <= beforeCount)
      /\ (k < rounds ->
          beforeCount
          < getCurrentTransactionCount src
              (Nat.iter k (sleep src pollInterval) s)).
Proof.
  induction rounds as [|rounds IH]; intros beforeCount afterCount s Hr;
    [lia|].
  cbn [poll].
  destruct (beforeCount
            <? getCurrentTransactionCount src (sleep src pollInterval s))
    eqn:E.
  - apply Nat.ltb_lt in E; exists 1; cbn [Nat.iter].
    split; [lia|split; [reflexivity|]].
    split; [intros j Hj; lia|intros _; exact E].
  - apply Nat.ltb_ge in E; destruct rounds as [|rounds'].
    + exists 1; cbn [poll Nat.iter nat_rect].
      split; [lia|split; [reflexivity|split; intros; lia]].
    + destruct (IH beforeCount
                   (getCurrentTransactionCount src
                      (sleep src pollInterval s))
                   (sleep src pollInterval s) ltac:(lia))
        as (k & Hk & Hp & Hbelow & Hgrew).
      exists (S k); rewrite Nat.iter_succ_r.
      split; [lia|split; [exact Hp|split]].
      * intros j Hj; destruct j as [|j]; [lia|].
        rewrite Nat.iter_succ_r.
        destruct j as [|j]; [exact E|apply Hbelow; lia].
      * intros Hlt; apply Hgrew; lia.
Qed.
End Poll.

(** [X16] After a click the loop with progress reads the count every half
    second: it goes on at the first reading above the count before the
    click, or after the thirtieth reading, fifteen seconds after the click,
    and the count it then compares is that last reading. *)
Theorem progress_poll_waits {Page : Type} (src : Source Page) (s : Page) :
  exists k,
    1 <= k <= 30
    /\ activateWithProgress src s
       = (waited src k s, getCurrentTransactionCount src (waited src k s))
    /\ (forall j, 1 <= j < k ->
                  getCurrentTransactionCount src (waited src j s)
                  <= getCurrentTransactionCount src s)
    /\ (k < 30 ->
        getCurrentTransactionCount src s
        < getCurrentTransactionCount src (waited src k s)).
Proof.
  unfold activateWithProgress, waited.
  change (N.to_nat (maxWaitTime / pollInterval)) with 30.
  apply poll_waits; lia.
Qed.

End LoopEndFacts.

(** ** What a pattern matches *)

Module DenotationFacts.
Import Regex Denotation.

Lemma after_app (taken u : string) :
  forall p, after p (taken ++ u) = after (after p taken) u.
Proof.
  induction taken as [|a taken IH]; intros p; cbn [append after];
    [reflexivity|apply IH].
Qed.

Lemma substring_app (taken t : string) :
  substring 0 (String.length taken) (taken ++ t) = taken.
Proof.
  induction taken as [|a taken IH]; cbn [append String.length substring].
  - destruct t; reflexivity.
  - rewrite IH; reflexivity.
Qed.

Lemma consumed_app (p p' : option ascii) (taken t : string) :
  consumed (MState p (taken ++ t)) (MState p' t) = taken.
Proof.
  unfold consumed; cbn [rest]; rewrite RowFacts.length_append.
  replace (String.length taken + String.length t - String.length t)
    with (String.length taken) by lia.
  apply substring_app.
Qed.

(** A match reads a piece of the input and leaves the rest. *)
Lemma Matches_taken (ic : bool) (r : regex) (st : mstate) (c : captures)
      (st' : mstate) (c' : captures) :
  Matches ic r st c st' c' ->
  exists taken,
    rest st = taken ++ rest st' /\ prev st' = after (prev st) taken.
Proof.
  induction 1 as [st c|l p taken t c H|cl p a t c H|cl lo hi g p taken t c H
                  |r1 r2 st c st1 c1 st2 c2 _ IH1 _ IH2
                  |r1 r2 st c st' c' _ IH|r1 r2 st c st' c' _ IH
                  |i r st c st' c' _ IH|s c|p c|st c H].
  - exists ""; split; reflexivity.
  - exists taken; split; reflexivity.
  - exists (String a ""); split; reflexivity.
  - exists taken; split; reflexivity.
  - destruct IH1 as (t1 & E1 & P1), IH2 as (t2 & E2 & P2).
    exists (t1 ++ t2).
    rewrite E1, E2, P2, P1, ReaderFacts.append_assoc, after_app.
    split; reflexivity.
  - exact IH.
  - exact IH.
  - exact IH.
  - exists ""; split; reflexivity.
  - exists ""; split; reflexivity.
  - exists ""; split; reflexivity.
Qed.

Lemma eat_lit_taken (ic : bool) (l : string) :
  forall p s st',
    eat_lit ic l (MState p s) = Some st' ->
    exists taken,
      s = taken ++ rest st' /\ st' = MState (after p taken) (rest st')
      /\ lit_eq ic l taken = true.
Proof.
  induction l as [|c l IH]; intros p s st'; cbn [eat_lit rest].
  - intros H; injection H as <-; exists ""; repeat split.
  - destruct s as [|a t]; [discriminate|].
    destruct (cmatch ic (CChar c) a) eqn:E; [|discriminate].
    intros H; apply IH in H as (taken & -> & Hst & Hl).
    exists (String a taken); cbn [append after lit_eq].
    rewrite E, Hl; repeat split; exact Hst.
Qed.

Section Sound.
Context {A : Type}.
Variable ic : bool.

Lemma rep_matches (cl : cclass) (lo : nat) (hi : option nat) (g : bool)
      (s : string) :
  forall n p c (k : mstate -> captures -> option A) x,
    rep ic cl lo hi g n p s c k = Some x ->
    exists taken t,
      s = taken ++ t
      /\ every (cmatch ic cl) taken = true
      /\ lo <= n + String.length taken
      /\ (taken = "" \/ at_most hi (n + String.length taken))
      /\ k (MState (after p taken) t) c = Some x.
Proof.
  induction s as [|a s IH]; intros n p c k x.
  - cbn [rep]; destruct g; destruct (lo <=? n) eqn:E; try discriminate;
      apply Nat.leb_le in E.
    + intros H; exists "", ""; cbn; repeat split; auto; lia.
    + destruct (k (MState p "") c) as [y|] eqn:Ek; [|discriminate].
      intros H; injection H as <-.
      exists "", ""; cbn; repeat split; auto; lia.
  - cbn [rep].
    assert (Hmore : forall y,
               (if under hi n && cmatch ic cl a
                then rep ic cl lo hi g (S n) (Some a) s c k
                else None) = Some y ->
               exists taken t,
                 String a s = taken ++ t
                 /\ every (cmatch ic cl) taken = true
                 /\ lo <= n + String.length taken
                 /\ (taken = "" \/ at_most hi (n + String.length taken))
                 /\ k (MState (after p taken) t) c = Some y).
    { intros y; destruct (under hi n && cmatch ic cl a) eqn:E;
        [|discriminate].
      apply andb_true_iff in E as [Eu Ec].
      intros H; apply IH in H as (taken & t & -> & Hev & Hlo & Hhi & Hk).
      exists (String a taken), t; cbn [append every String.length after].
      rewrite Ec, Hev; split; [reflexivity|split; [reflexivity|]].
      split; [lia|split; [right|exact Hk]].
      destruct hi as [m|]; cbn [at_most under] in *; [|exact I].
      apply Nat.ltb_lt in Eu.
      destruct Hhi as [->|Hhi]; cbn [String.length] in *; lia. }
    assert (Hstop : forall y,
               (if lo <=? n then k (MState p (String a s)) c else None)
               = Some y ->
               exists taken t,
                 String a s = taken ++ t
                 /\ every (cmatch ic cl) taken = true
                 /\ lo <= n + String.length taken
                 /\ (taken = "" \/ at_most hi (n + String.length taken))
                 /\ k (MState (after p taken) t) c = Some y).
    { intros y; destruct (lo <=? n) eqn:E; [|discriminate].
      apply Nat.leb_le in E; intros H.
      exists "", (String a s); cbn; repeat split; auto; lia. }
    destruct g.
    + destruct (if under hi n && cmatch ic cl a then _ else _) eqn:E.
      * intros H; injection H as <-; apply Hmore; reflexivity.
      * apply Hstop.
    + destruct (if lo <=? n then _ else _) eqn:E.
      * intros H; injection H as <-; apply Hstop; reflexivity.
      * apply Hmore.
Qed.

(** The matcher is sound: when it answers, it has called its
    continuation at the end of a match. *)
Lemma run_matches (r : regex) :
  forall st c (k : mstate -> captures -> option A) x,
    run ic r st c k = Some x ->
    exists st' c', Matches ic r st c st' c' /\ k st' c' = Some x.
Proof.
  induction r as [|l|cl|cl lo hi g|r1 IH1 r2 IH2|r1 IH1 r2 IH2|j r' IH| | |];
    intros [p s] c k x; cbn [run rest prev].
  - intros H; exists (MState p s), c; split; [constructor|exact H].
  - destruct (eat_lit ic l (MState p s)) as [st'|] eqn:E; [|discriminate].
    apply eat_lit_taken in E as (taken & -> & -> & Hl).
    intros H; eexists _, c; split; [apply MLit; exact Hl|exact H].
  - destruct s as [|a t]; [discriminate|].
    destruct (cmatch ic cl a) eqn:E; [|discriminate].
    intros H; eexists _, c; split; [apply MCls; exact E|exact H].
  - intros H; apply rep_matches in H as (taken & t & -> & Hev & Hlo & Hhi & Hk).
    eexists _, c; split; [apply MRep|exact Hk]; [exact Hev|lia|].
    destruct hi as [m|]; cbn [at_most] in *; [|exact I].
    destruct Hhi as [->|Hhi]; cbn [String.length] in *; lia.
  - intros H; apply IH1 in H as (st1 & c1 & M1 & H).
    apply IH2 in H as (st2 & c2 & M2 & H).
    exists st2, c2; split; [eapply MSeq; eassumption|exact H].
  - destruct (run ic r1 (MState p s) c k) as [y|] eqn:E.
    + intros H; injection H as <-.
      apply IH1 in E as (st' & c' & M & H).
      exists st', c'; split; [apply MAltL; exact M|exact H].
    + intros H; apply IH2 in H as (st' & c' & M & H).
      exists st', c'; split; [apply MAltR; exact M|exact H].
  - intros H; apply IH in H as (st' & c' & M & H).
    eexists _, _; split; [apply MGrp; exact M|exact H].
  - destruct p; [discriminate|].
    intros H; eexists _, c; split; [apply MBol|exact H].
  - destruct s; [|discriminate].
    intros H; eexists _, c; split; [apply MEol|exact H].
  - destruct (xorb _ _) eqn:E; [|discriminate].
    intros H; eexists _, c; split; [apply MWordB; exact E|exact H].
Qed.
End Sound.

Lemma lit_eq_eat (ic : bool) (l : string) :
  forall taken p t,
    lit_eq ic l taken = true ->
    eat_lit ic l (MState p (taken ++ t)) = Some (MState (after p taken) t).
Proof.
  induction l as [|c l IH]; intros [|a taken] p t; cbn [lit_eq];
    try discriminate.
  - reflexivity.
  - intros H; apply andb_true_iff in H as [Hc Hl].
    cbn [eat_lit rest append after]; rewrite Hc; apply IH, Hl.
Qed.

Section Complete.
Context {A : Type}.
Variable ic : bool.

Lemma rep_complete (cl : cclass) (lo : nat) (hi : option nat) (g : bool)
      (taken : string) :
  forall n p t c (k : mstate -> captures -> option A),
    every (cmatch ic cl) taken = true ->
    lo <= n + String.length taken ->
    taken = "" \/ at_most hi (n + String.length taken) ->
    k (MState (after p taken) t) c <> None ->
    rep ic cl lo hi g n p (taken ++ t) c k <> None.
Proof.
  induction taken as [|a taken IH]; intros n p t c k Hev Hlo Hhi Hk.
  - cbn [append after String.length] in *.
    assert (Hn : (lo <=? n) = true) by (apply Nat.leb_le; lia).
    destruct t as [|b t]; cbn [rep]; rewrite Hn.
    + destruct g; [exact Hk|].
      destruct (k (MState p "") c); [discriminate|congruence].
    + destruct g.
      * destruct (if under hi n && cmatch ic cl b then _ else _);
          [discriminate|exact Hk].
      * destruct (k (MState p (String b t)) c); [discriminate|congruence].
  - cbn [append every String.length after] in *.
    apply andb_true_iff in Hev as [Hc Hev].
    assert (Hu : under hi n = true).
    { destruct hi as [m|]; cbn [under at_most] in *; [|reflexivity].
      destruct Hhi as [Hhi|Hhi]; [discriminate|apply Nat.ltb_lt; lia]. }
    assert (Hmore : rep ic cl lo hi g (S n) (Some a) (taken ++ t) c k
                    <> None).
    { apply IH; [exact Hev|lia| |exact Hk].
      right; destruct Hhi as [Hhi|Hhi]; [discriminate|].
      destruct hi; cbn [at_most] in *; [lia|exact I]. }
    cbn [rep]; rewrite Hu, Hc; cbn [andb].
    destruct g.
    + destruct (rep ic cl lo hi true (S n) (Some a) (taken ++ t) c k);
        [discriminate|congruence].
    + destruct (if lo <=? n then _ else _); [discriminate|exact Hmore].
Qed.

(** The matcher is complete: where a match exists after which the
    continuation answers, the matcher answers. *)
Lemma run_complete (r : regex) (st : mstate) (c : captures) (st' : mstate)
      (c' : captures) :
  Matches ic r st c st' c' ->
  forall k : mstate -> captures -> option A,
    k st' c' <> None -> run ic r st c k <> None.
Proof.
  induction 1 as [st c|l p taken t c H|cl p a t c H|cl lo hi g p taken t c H
                  |r1 r2 st c st1 c1 st2 c2 _ IH1 _ IH2
                  |r1 r2 st c st' c' _ IH|r1 r2 st c st' c' _ IH
                  |i r st c st' c' _ IH|s c|p c|st c H];
    intros k Hk; cbn [run rest prev].
  - exact Hk.
  - rewrite (lit_eq_eat ic l taken p t H); exact Hk.
  - rewrite H; exact Hk.
  - apply rep_complete; [exact H|lia| |exact Hk].
    right; destruct hi; cbn [at_most] in *; [lia|exact I].
  - apply IH1, IH2, Hk.
  - specialize (IH k Hk).
    destruct (run ic r1 st c k); [discriminate|congruence].
  - destruct (run ic r1 st c k); [discriminate|apply IH, Hk].
  - apply IH; exact Hk.
  - exact Hk.
  - exact Hk.
  - rewrite H; exact Hk.
Qed.
End Complete.

(** A pattern anchored at the start matches a text exactly when its body
    has a match from the start of the text, and the groups are those of
    such a match. *)
Lemma exec_anchored_sound (ic : bool) (r : regex) (s : string)
      (res : result) :
  exec (Pattern ic (Seq Bol r)) s = Some res ->
  exists st' c',
    Matches ic r (MState None s) no_captures st' c' /\ group res = c'.
Proof.
  rewrite RegexFacts.exec_bol; unfold match_at; intros H.
  apply run_matches in H as (st' & c' & M & H).
  inversion M as [| | | |r1 r2 st0 c0 st1 c1 st2 c2 M1 M2| | | | | |]; subst.
  inversion M1; subst.
  exists st', c'; split; [exact M2|].
  injection H as <-; reflexivity.
Qed.

Lemma exec_anchored_complete (ic : bool) (r : regex) (s : string)
      (st' : mstate) (c' : captures) :
  Matches ic r (MState None s) no_captures st' c' ->
  exec (Pattern ic (Seq Bol r)) s <> None.
Proof.
  intros M; rewrite RegexFacts.exec_bol; unfold match_at.
  apply (run_complete ic (Seq Bol r) _ _ st' c').
  - eapply MSeq; [apply MBol|exact M].
  - discriminate.
Qed.

End DenotationFacts.

(** ** The dates [normalizeDate] recognises *)

Module DateFormatFacts.
Import Regex Utils Denotation DenotationFacts.

Ltac inv H := inversion H; subst; clear H.

Lemma lower_canon (a : ascii) :
  Js.lower_char (Js.canon_char a) = Js.lower_char a.
Proof.
  destruct a as [[] [] [] [] [] [] [] []]; vm_compute; reflexivity.
Qed.

Lemma digit_canon (a : ascii) :
  Js.is_digit (Js.canon_char a) = Js.is_digit a.
Proof.
  destruct a as [[] [] [] [] [] [] [] []]; vm_compute; reflexivity.
Qed.

(** Two characters the [i] flag takes for one another have the same
    lower-case form. *)
Lemma canon_lower (a c : ascii) :
  Js.canon_char c = Js.canon_char a -> Js.lower_char a = Js.lower_char c.
Proof.
  intros H; rewrite <- (lower_canon a), <- (lower_canon c), H; reflexivity.
Qed.

Lemma canon_digit (a c : ascii) :
  Js.canon_char c = Js.canon_char a -> Js.is_digit c = false ->
  Js.is_digit a = false.
Proof.
  intros H Hc; rewrite <- (digit_canon a), <- H, digit_canon; exact Hc.
Qed.

Lemma lit_eq_lower (l : string) :
  forall taken,
    lit_eq true l taken = true -> Js.toLowerCase taken = Js.toLowerCase l.
Proof.
  induction l as [|c l IH]; intros [|a taken]; cbn [lit_eq];
    try discriminate; [reflexivity|].
  intros H; apply andb_true_iff in H as [Hc Hl].
  cbn [cmatch] in Hc; apply Ascii.eqb_eq in Hc.
  cbn [Js.toLowerCase]; rewrite (IH _ Hl), (canon_lower a c Hc).
  reflexivity.
Qed.

Lemma lit_eq_head (c : ascii) (l taken : string) :
  lit_eq true (String c l) taken = true ->
  Js.is_digit c = false ->
  exists a t, taken = String a t /\ Js.is_digit a = false.
Proof.
  destruct taken as [|a t]; cbn [lit_eq]; [discriminate|].
  intros H Hc; apply andb_true_iff in H as [H _].
  cbn [cmatch] in H; apply Ascii.eqb_eq in H.
  exists a, t; split; [reflexivity|eapply canon_digit; eassumption].
Qed.


(** A text is cut at its first separator in one way only. *)
Lemma cut_unique (P : ascii -> bool) (sep : ascii) (a : string) :
  forall a' x x',
    every P a = true -> every P a' = true -> P sep = false ->
    a ++ String sep x = a' ++ String sep x' ->
    a = a' /\ x = x'.
Proof.
  induction a as [|h a IH]; intros [|h' a'] x x' Ha Ha' Hs;
    cbn [append every] in *; intros E.
  - injection E as ->; split; reflexivity.
  - injection E as <- _; apply andb_true_iff in Ha' as [Ha' _]; congruence.
  - injection E as -> _; apply andb_true_iff in Ha as [Ha _]; congruence.
  - injection E as -> E.
    apply andb_true_iff in Ha as [_ Ha], Ha' as [_ Ha'].
    destruct (IH a' x x' Ha Ha' Hs E) as [-> ->]; split; reflexivity.
Qed.

Lemma threeNumbers_sound (sep : ascii) (lo1 hi1 lo2 hi2 lo3 hi3 : nat)
      (s : string) (res : result) :
  exec (threeNumbers sep lo1 hi1 lo2 hi2 lo3 hi3) s = Some res ->
  exists a b c,
    s = a ++ String sep (b ++ String sep c)
    /\ number lo1 hi1 a /\ number lo2 hi2 b /\ number lo3 hi3 c
    /\ grp res 1 = a /\ grp res 2 = b /\ grp res 3 = c.
Proof.
  unfold threeNumbers; cbn [cat]; intros H.
  apply exec_anchored_sound in H as (st' & c' & M & Hg).
  inv M.
  match goal with H : Matches _ (Grp 1 _) _ _ _ _ |- _ => inv H end.
  match goal with H : Matches _ (Rep _ _ _ _) _ _ _ _ |- _ => inv H end.
  match goal with H : Matches _ (Seq _ _) _ _ _ _ |- _ => inv H end.
  match goal with H : Matches _ (Cls _) _ _ _ _ |- _ => inv H end.
  match goal with H : Matches _ (Seq _ _) _ _ _ _ |- _ => inv H end.
  match goal with H : Matches _ (Grp 2 _) _ _ _ _ |- _ => inv H end.
  match goal with H : Matches _ (Rep _ _ _ _) _ _ _ _ |- _ => inv H end.
  match goal with H : Matches _ (Seq _ _) _ _ _ _ |- _ => inv H end.
  match goal with H : Matches _ (Cls _) _ _ _ _ |- _ => inv H end.
  match goal with H : Matches _ (Seq _ _) _ _ _ _ |- _ => inv H end.
  match goal with H : Matches _ (Grp 3 _) _ _ _ _ |- _ => inv H end.
  match goal with H : Matches _ (Rep _ _ _ _) _ _ _ _ |- _ => inv H end.
  match goal with H : Matches _ Eol _ _ _ _ |- _ => inv H end.
  repeat match goal with
         | H : cmatch false (CChar _) _ = true |- _ =>
             apply RegexFacts.cmatch_char in H; subst
         end.
  match goal with
  | H1 : every _ ?a = true, H2 : every _ ?b = true, H3 : every _ ?c = true
    |- exists _ _ _, ?a ++ String _ (?b ++ String _ (?c ++ _)) = _ /\ _ =>
      exists a, b, c
  end.
  match goal with H : _ = group res |- _ => unfold grp; rewrite <- H end.
  unfold set_capture; cbn [Nat.eqb at_most] in *.
  rewrite !consumed_app, ReaderFacts.append_empty_r.
  unfold number, digits; repeat split; try assumption; lia.
Qed.

Lemma threeNumbers_complete (sep : ascii) (lo1 hi1 lo2 hi2 lo3 hi3 : nat)
      (a b c : string) :
  number lo1 hi1 a -> number lo2 hi2 b -> number lo3 hi3 c ->
  exec (threeNumbers sep lo1 hi1 lo2 hi2 lo3 hi3)
       (a ++ String sep (b ++ String sep c)) <> None.
Proof.
  intros [Da La] [Db Lb] [Dc Lc]; unfold threeNumbers; cbn [cat].
  rewrite <- (ReaderFacts.append_empty_r c).
  eapply exec_anchored_complete.
  eapply MSeq; [apply MGrp, MRep; [exact Da|lia|cbn; lia]|].
  eapply MSeq; [apply MCls; cbn; apply Ascii.eqb_refl|].
  eapply MSeq; [apply MGrp, MRep; [exact Db|lia|cbn; lia]|].
  eapply MSeq; [apply MCls; cbn; apply Ascii.eqb_refl|].
  eapply MSeq; [apply MGrp, MRep; [exact Dc|lia|cbn; lia]|].
  apply MEol.
Qed.

(** What a numeric pattern gives for three numbers between its
    separators: the numbers, as its groups. *)
Lemma threeNumbers_groups (sep : ascii) (lo1 hi1 lo2 hi2 lo3 hi3 : nat)
      (a b c : string) :
  Js.is_digit sep = false ->
  number lo1 hi1 a -> number lo2 hi2 b -> number lo3 hi3 c ->
  exists res,
    exec (threeNumbers sep lo1 hi1 lo2 hi2 lo3 hi3)
         (a ++ String sep (b ++ String sep c)) = Some res
    /\ grp res 1 = a /\ grp res 2 = b /\ grp res 3 = c.
Proof.
  intros Hs Na Nb Nc.
  pose proof (threeNumbers_complete sep _ _ _ _ _ _ a b c Na Nb Nc) as Hc.
  destruct (exec _ _) as [res|] eqn:E; [|congruence].
  exists res; split; [reflexivity|].
  apply threeNumbers_sound in E
    as (a' & b' & c' & Es & [Da' _] & [Db' _] & _ & -> & -> & ->).
  destruct Na as [Da _], Nb as [Db _].
  apply (cut_unique Js.is_digit) in Es as [-> Es]; try assumption.
  apply (cut_unique Js.is_digit) in Es as [-> ->]; try assumption.
  repeat split.
Qed.

(** A numeric pattern does not match a text whose first separator is
    another character. *)
Lemma threeNumbers_other (sep other : ascii)
      (lo1 hi1 lo2 hi2 lo3 hi3 : nat) (a x : string) :
  digits a -> Js.is_digit sep = false -> Js.is_digit other = false ->
  sep <> other ->
  exec (threeNumbers sep lo1 hi1 lo2 hi2 lo3 hi3) (a ++ String other x)
  = None.
Proof.
  intros Da Hs Ho Hne.
  destruct (exec _ _) as [res|] eqn:E; [|reflexivity].
  apply threeNumbers_sound in E
    as (a' & b' & c' & Es & [Da' _] & _).
  exfalso; clear - Da Da' Hs Ho Hne Es; unfold digits in *.
  revert a' Da' Es; induction a as [|h a IH]; intros [|h' a'] Da' Es;
    cbn [append every] in *.
  - injection Es as E _; congruence.
  - injection Es as <- _; apply andb_true_iff in Da' as [Da' _]; congruence.
  - injection Es as -> _; apply andb_true_iff in Da as [Da _]; congruence.
  - injection Es as -> Es.
    apply andb_true_iff in Da as [_ Da], Da' as [_ Da'].
    exact (IH Da a' Da' Es).
Qed.

(** What the alternation of the month names matches: a text that reads,
    in lower case, as a key of the month table, and does not start with
    a digit. *)
Lemma month_matches (st : mstate) (c : captures) (st' : mstate)
      (c' : captures) :
  Matches true month st c st' c' ->
  c' = c
  /\ exists taken mm,
       rest st = taken ++ rest st'
       /\ consumed st st' = taken
       /\ lookup (Js.toLowerCase taken) monthNames = Some mm
       /\ String.length mm = 2 /\ digits mm
       /\ exists a t, taken = String a t /\ Js.is_digit a = false.
Proof.
  cbv [month alts map]; intros M.
  repeat match goal with
         | H : Matches _ (Alt _ _) _ _ _ _ |- _ => inv H
         end;
    match goal with
    | H : Matches _ (Lit _) _ _ _ _ |- _ => inv H
    end;
    (split; [reflexivity|]);
    match goal with
    | H : lit_eq true _ ?taken = true |- _ =>
        exists taken;
        pose proof (lit_eq_lower _ _ H) as Hlow;
        apply lit_eq_head in H; [|reflexivity]
    end;
    rewrite Hlow; cbn [rest];
    eexists; (split; [reflexivity|]);
    (split; [apply consumed_app|]);
    (split; [vm_compute; reflexivity|]);
    (split; [reflexivity|]); (split; [reflexivity|assumption]).
Qed.

Lemma monthName_sound (s : string) (res : result) :
  exec monthNamePattern s = Some res ->
  (exists mm,
      lookup (Js.toLowerCase (grp res 1)) monthNames = Some mm
      /\ String.length mm = 2 /\ digits mm)
  /\ number 1 2 (grp res 2) /\ number 4 4 (grp res 3)
  /\ exists a t, s = String a t /\ Js.is_digit a = false.
Proof.
  unfold monthNamePattern; cbv [cat plus between opt exactly chr]; intros H.
  apply exec_anchored_sound in H as (st' & c' & M & Hg).
  inv M.
  match goal with H : Matches _ (Grp 1 _) _ _ _ _ |- _ => inv H end.
  match goal with
  | H : Matches _ month _ _ _ _ |- _ =>
      apply month_matches in H
        as (-> & taken & mm & Hs & Hc & Hl & Hmm & Hd & a & t & -> & Ha)
  end.
  cbn [rest] in Hs.
  repeat match goal with
         | H : Matches _ (Seq _ _) _ _ _ _ |- _ => inv H
         | H : Matches _ (Rep _ _ _ _) _ _ _ _ |- _ => inv H
         | H : Matches _ (Grp _ _) _ _ _ _ |- _ => inv H
         | H : Matches _ Eol _ _ _ _ |- _ => inv H
         end.
  match goal with H : _ = group res |- _ => unfold grp; rewrite <- H end.
  unfold set_capture; cbn [Nat.eqb at_most] in *.
  cbn [rest append] in Hc |- *; rewrite ?Hc, !consumed_app, ?Hc, Hl.
  split; [exists mm; repeat split; assumption|].
  unfold number, digits; repeat split; try assumption; try lia.
  eauto.
Qed.

Lemma pad2_number (m : string) :
  number 1 2 m -> String.length (pad2 m) = 2 /\ digits (pad2 m).
Proof.
  intros [D [L1 L2]]; unfold digits in *.
  destruct m as [|a [|b [|c m]]]; cbn [String.length] in *; try lia.
  - cbn in *; rewrite D; split; reflexivity.
  - split; [reflexivity|exact D].
Qed.

Lemma shape_ddmmyyyy (dd mm y : string) :
  String.length dd = 2 -> digits dd ->
  String.length mm = 2 -> digits mm ->
  number 4 4 y ->
  ddmmyyyy (dd ++ "/" ++ mm ++ "/" ++ y) = true.
Proof.
  unfold number, digits; intros Ld Dd Lm Dm [Dy Ly].
  destruct dd as [|d1 [|d2 [|]]]; cbn [String.length] in Ld; try lia.
  destruct mm as [|m1 [|m2 [|]]]; cbn [String.length] in Lm; try lia.
  destruct y as [|y1 [|y2 [|y3 [|y4 [|]]]]]; cbn [String.length] in Ly;
    try lia.
  cbn [every] in *; cbn [append ddmmyyyy].
  repeat match goal with
         | H : (_ && _) = true |- _ => apply andb_true_iff in H as [? ?]
         end.
  repeat match goal with
         | H : Js.is_digit _ = true |- _ => rewrite H; clear H
         end.
  reflexivity.
Qed.

Lemma recognized_shape (dateStr : string) :
  Dates.recognized dateStr = true ->
  ddmmyyyy (normalizeDate dateStr) = true.
Proof.
  intros Hrec; unfold normalizeDate.
  destruct (exec monthNamePattern (Js.trim dateStr)) as [m|] eqn:E1.
  { apply monthName_sound in E1 as ((mm & -> & Lm & Dm) & N2 & N3 & _).
    destruct (pad2_number _ N2) as [Ld Dd].
    apply shape_ddmmyyyy; assumption. }
  destruct (exec mmddyyyyPattern (Js.trim dateStr)) as [m|] eqn:E2.
  { change mmddyyyyPattern with (threeNumbers "/" 1 2 1 2 4 4) in E2.
    apply threeNumbers_sound in E2
      as (a & b & c & _ & Na & Nb & Nc & -> & -> & ->).
    destruct (pad2_number _ Na), (pad2_number _ Nb).
    apply shape_ddmmyyyy; assumption. }
  destruct (exec mmddyyyyDashPattern (Js.trim dateStr)) as [m|] eqn:E3.
  { change mmddyyyyDashPattern with (threeNumbers "-" 1 2 1 2 4 4) in E3.
    apply threeNumbers_sound in E3
      as (a & b & c & _ & Na & Nb & Nc & -> & -> & ->).
    destruct (pad2_number _ Na), (pad2_number _ Nb).
    apply shape_ddmmyyyy; assumption. }
  destruct (exec yyyymmddPattern (Js.trim dateStr)) as [m|] eqn:E4.
  { change yyyymmddPattern with (threeNumbers "-" 4 4 1 2 1 2) in E4.
    apply threeNumbers_sound in E4
      as (a & b & c & _ & Na & Nb & Nc & -> & -> & ->).
    destruct (pad2_number _ Nb), (pad2_number _ Nc).
    apply shape_ddmmyyyy; assumption. }
  exfalso; unfold Dates.recognized, normalizeDatePatterns, test in Hrec.
  cbn [existsb] in Hrec; rewrite E1, E2, E3, E4 in Hrec; discriminate.
Qed.

(** [X17] Every input [normalizeDate] recognises comes back as two digits, a
    slash, two digits, a slash and four digits. *)
Theorem normalizeDate_recognized_format (dateStr : string) :
  Dates.recognized dateStr = true ->
  ddmmyyyy (normalizeDate dateStr) = true.
Proof. exact (recognized_shape dateStr). Qed.

Lemma normalizeDate_recognized_format_example :
  ddmmyyyy (normalizeDate " October 5 2025 ") = true.
Proof.
  apply (normalizeDate_recognized_format " October 5 2025 ").
  vm_compute; reflexivity.
Defined.

Lemma every_app (P : ascii -> bool) (s t : string) :
  every P (s ++ t) = every P s && every P t.
Proof.
  induction s as [|a s IH]; cbn [append every]; [reflexivity|].
  rewrite IH, andb_assoc; reflexivity.
Qed.

Lemma every_impl (P Q : ascii -> bool) (s : string) :
  (forall a, P a = true -> Q a = true) ->
  every P s = true -> every Q s = true.
Proof.
  intros H; induction s as [|a s IH]; cbn [every]; [reflexivity|].
  intros E; apply andb_true_iff in E as [Ea Es].
  rewrite (H a Ea), (IH Es); reflexivity.
Qed.

Lemma digit_not_ws (a : ascii) :
  Js.is_digit a = true -> negb (Js.is_ws a) = true.
Proof.
  destruct a as [[] [] [] [] [] [] [] []]; vm_compute; congruence.
Qed.

Lemma trimEnd_solid (s : string) :
  every (fun a => negb (Js.is_ws a)) s = true -> Js.trimEnd s = s.
Proof.
  induction s as [|a s IH]; cbn [every Js.trimEnd]; [reflexivity|].
  intros H; apply andb_true_iff in H as [Ha Hs].
  rewrite (IH Hs); apply negb_true_iff in Ha; rewrite Ha.
  destruct s; reflexivity.
Qed.

Lemma trim_solid (s : string) :
  every (fun a => negb (Js.is_ws a)) s = true -> Js.trim s = s.
Proof.
  intros H; unfold Js.trim.
  assert (E : Js.trimStart s = s).
  { destruct s as [|a s]; [reflexivity|]; cbn [every Js.trimStart] in *.
    apply andb_true_iff in H as [Ha _]; apply negb_true_iff in Ha.
    rewrite Ha; reflexivity. }
  rewrite E; apply trimEnd_solid, H.
Qed.

Lemma three_solid (sep : ascii) (a b c : string) :
  Js.is_ws sep = false -> digits a -> digits b -> digits c ->
  Js.trim (a ++ String sep (b ++ String sep c))
  = a ++ String sep (b ++ String sep c).
Proof.
  intros Hs Da Db Dc; apply trim_solid.
  rewrite every_app; cbn [every]; rewrite every_app; cbn [every].
  rewrite Hs, !(every_impl _ _ _ digit_not_ws) by assumption.
  reflexivity.
Qed.

Lemma monthName_digit_first (a x : string) :
  number 1 2 a \/ number 4 4 a -> exec monthNamePattern (a ++ x) = None.
Proof.
  intros Ha; destruct (exec _ _) as [res|] eqn:E; [|reflexivity].
  apply monthName_sound in E as (_ & _ & _ & h & t & Es & Hh).
  exfalso; unfold number, digits in Ha.
  destruct a as [|h' a]; cbn [String.length every append] in *;
    [destruct Ha as [[_ ?]|[_ ?]]; lia|].
  injection Es as -> _.
  destruct Ha as [[D _]|[D _]]; apply andb_true_iff in D as [D _];
    congruence.
Qed.

Lemma numbers_normalized (m d y : string) :
  number 1 2 m -> number 1 2 d -> number 4 4 y ->
  normalizeDate (m ++ "/" ++ d ++ "/" ++ y)
  = pad2 d ++ "/" ++ pad2 m ++ "/" ++ y
  /\ normalizeDate (m ++ "-" ++ d ++ "-" ++ y)
     = pad2 d ++ "/" ++ pad2 m ++ "/" ++ y
  /\ normalizeDate (y ++ "-" ++ m ++ "-" ++ d)
     = pad2 d ++ "/" ++ pad2 m ++ "/" ++ y.
Proof.
  intros Nm Nd Ny.
  pose proof Nm as [Dm _]; pose proof Nd as [Dd _]; pose proof Ny as [Dy Ly].
  change ("/" ++ d ++ "/" ++ y) with (String "/" (d ++ String "/" y)).
  change ("-" ++ d ++ "-" ++ y) with (String "-" (d ++ String "-" y)).
  change ("-" ++ m ++ "-" ++ d) with (String "-" (m ++ String "-" d)).
  split; [|split]; unfold normalizeDate.
  - rewrite three_solid by (assumption || reflexivity).
    rewrite monthName_digit_first by (left; exact Nm).
    change mmddyyyyPattern with (threeNumbers "/" 1 2 1 2 4 4).
    destruct (threeNumbers_groups "/" 1 2 1 2 4 4 m d y eq_refl Nm Nd Ny)
      as (res & -> & -> & -> & ->).
    reflexivity.
  - rewrite three_solid by (assumption || reflexivity).
    rewrite monthName_digit_first by (left; exact Nm).
    change mmddyyyyPattern with (threeNumbers "/" 1 2 1 2 4 4).
    rewrite (threeNumbers_other "/" "-") by
      (assumption || reflexivity || discriminate).
    change mmddyyyyDashPattern with (threeNumbers "-" 1 2 1 2 4 4).
    destruct (threeNumbers_groups "-" 1 2 1 2 4 4 m d y eq_refl Nm Nd Ny)
      as (res & -> & -> & -> & ->).
    reflexivity.
  - rewrite three_solid by (assumption || reflexivity).
    rewrite monthName_digit_first by (right; exact Ny).
    change mmddyyyyPattern with (threeNumbers "/" 1 2 1 2 4 4).
    rewrite (threeNumbers_other "/" "-") by
      (assumption || reflexivity || discriminate).
    change mmddyyyyDashPattern with (threeNumbers "-" 1 2 1 2 4 4).
    destruct (exec (threeNumbers "-" 1 2 1 2 4 4) _) as [res|] eqn:E.
    { exfalso; apply threeNumbers_sound in E
        as (a' & b' & c' & Es & [Da' La'] & _).
      apply (cut_unique Js.is_digit) in Es as [<- _];
        try assumption; try reflexivity.
      lia. }
    change yyyymmddPattern with (threeNumbers "-" 4 4 1 2 1 2).
    destruct (threeNumbers_groups "-" 4 4 1 2 1 2 y m d eq_refl Ny Nm Nd)
      as (res & -> & -> & -> & ->).
    reflexivity.
Qed.

(** [X18] Three numbers written month, day, year between slashes or dashes,
    or year, month, day between dashes, come back as day, month, year
    between slashes, day and month padded to two digits.  The numbers are
    not checked against the calendar. *)
Theorem normalizeDate_numbers (m d y : string) :
  number 1 2 m -> number 1 2 d -> number 4 4 y ->
  normalizeDate (m ++ "/" ++ d ++ "/" ++ y)
  = pad2 d ++ "/" ++ pad2 m ++ "/" ++ y
  /\ normalizeDate (m ++ "-" ++ d ++ "-" ++ y)
     = pad2 d ++ "/" ++ pad2 m ++ "/" ++ y
  /\ normalizeDate (y ++ "-" ++ m ++ "-" ++ d)
     = pad2 d ++ "/" ++ pad2 m ++ "/" ++ y.
Proof. exact (numbers_normalized m d y). Qed.

Lemma normalizeDate_numbers_example :
  normalizeDate "13/45/2025" = "45/13/2025"
  /\ normalizeDate "2025-1-2" = "02/01/2025".
Proof.
  destruct (normalizeDate_numbers "13" "45" "2025") as (H1 & _ & _);
    [split; [reflexivity|cbn; lia]..|].
  destruct (normalizeDate_numbers "1" "2" "2025") as (_ & _ & H3);
    [split; [reflexivity|cbn; lia]..|].
  split; [exact H1|exact H3].
Defined.

End DateFormatFacts.

(** ** Dates that are not rewritten *)

Module DateShapeFacts.
Import Regex Utils Denotation DenotationFacts DateFormatFacts DateShapes.

Lemma Matches_strip (ic : bool) (r : regex) (st : mstate) (c : captures)
      (st' : mstate) (c' : captures) :
  Matches ic r st c st' c' ->
  forall c0, Matches ic (strip r) st c0 st' c0.
Proof.
  induction 1; intros c0; cbn [strip]; try (constructor; assumption).
  - eapply MSeq; eauto.
  - apply MAltL; auto.
  - apply MAltR; auto.
  - auto.
Qed.

Lemma Matches_unstrip (ic : bool) (r : regex) :
  forall st c st' c',
    Matches ic (strip r) st c st' c' ->
    forall c0, exists c1, Matches ic r st c0 st' c1.
Proof.
  induction r as [|l|cl|cl lo hi g|r1 IH1 r2 IH2|r1 IH1 r2 IH2|j r' IH| | |];
    intros st c st' c' M c0; cbn [strip] in M;
    try (inversion M; subst; eexists; constructor; assumption).
  - inversion M; subst.
    match goal with
    | H1 : Matches _ (strip r1) _ _ ?s1 _, H2 : Matches _ (strip r2) _ _ _ _
      |- _ =>
        destruct (IH1 _ _ _ _ H1 c0) as [ca Ma];
        destruct (IH2 _ _ _ _ H2 ca) as [cb Mb]
    end.
    exists cb; eapply MSeq; eassumption.
  - inversion M; subst.
    + match goal with
      | H : Matches _ (strip r1) _ _ _ _ |- _ =>
          destruct (IH1 _ _ _ _ H c0) as [ca Ma]
      end.
      exists ca; apply MAltL; exact Ma.
    + match goal with
      | H : Matches _ (strip r2) _ _ _ _ |- _ =>
          destruct (IH2 _ _ _ _ H c0) as [ca Ma]
      end.
      exists ca; apply MAltR; exact Ma.
  - destruct (IH _ _ _ _ M c0) as [ca Ma].
    eexists; apply MGrp; exact Ma.
Qed.

Lemma test_anchored (ic : bool) (r : regex) (s : string) :
  test (Pattern ic (Seq Bol r)) s = true
  <-> exists st' c', Matches ic r (MState None s) no_captures st' c'.
Proof.
  unfold test; split.
  - destruct (exec _ s) as [res|] eqn:E; [|discriminate].
    intros _; apply exec_anchored_sound in E as (st' & c' & M & _).
    exists st', c'; exact M.
  - intros (st' & c' & M).
    apply exec_anchored_complete in M.
    destruct (exec _ s); [reflexivity|congruence].
Qed.

(** Whether an anchored pattern matches does not depend on its groups. *)
Lemma test_strip (p q : pattern) (s : string) :
  ignore_case p = ignore_case q ->
  (exists r r',
      body p = Seq Bol r /\ body q = Seq Bol r' /\ strip r = strip r') ->
  test p s = test q s.
Proof.
  destruct p as [ic bp], q as [ic' bq]; cbn [ignore_case body].
  intros <- (r & r' & -> & -> & E).
  apply eq_true_iff_eq; rewrite !test_anchored.
  split; intros (st' & c' & M);
    apply Matches_strip with (c0 := no_captures) in M;
    [rewrite E in M|rewrite <- E in M];
    apply Matches_unstrip with (c0 := no_captures) in M as [c1 M];
    eauto.
Qed.

Lemma threeNumbers_test (sep : ascii) (lo1 hi1 lo2 hi2 lo3 hi3 : nat)
      (s : string) :
  test (threeNumbers sep lo1 hi1 lo2 hi2 lo3 hi3) s = true
  <-> exists a b c,
        s = a ++ String sep (b ++ String sep c)
        /\ number lo1 hi1 a /\ number lo2 hi2 b /\ number lo3 hi3 c.
Proof.
  unfold test; split.
  - destruct (exec _ s) as [res|] eqn:E; [|discriminate].
    intros _; apply threeNumbers_sound in E
      as (a & b & c & Es & Na & Nb & Nc & _).
    exists a, b, c; repeat split; assumption || apply Na || apply Nb
                                  || apply Nc.
  - intros (a & b & c & -> & Na & Nb & Nc).
    pose proof (threeNumbers_complete sep _ _ _ _ _ _ a b c Na Nb Nc).
    destruct (exec _ _); [reflexivity|congruence].
Qed.

(** The month pattern without the comma matches nothing the one with an
    optional comma does not. *)
Lemma month_without_comma (s : string) :
  test (Pattern true
          (cat [ Bol; Grp 1 month; plus CSpace; between CDigit 1 2;
                 plus CSpace; exactly CDigit 4; Eol ])) s = true ->
  test monthNamePattern s = true.
Proof.
  unfold monthNamePattern; cbv [cat plus between opt exactly chr].
  rewrite !test_anchored; intros (st' & c' & M).
  apply Matches_strip with (c0 := no_captures) in M; cbn [strip] in M.
  exists st'.
  refine (Matches_unstrip true
           (Seq (Grp 1 month)
              (Seq (Rep CSpace 1 None true)
                 (Seq (Grp 2 (Rep CDigit 1 (Some 2) true))
                    (Seq (Rep (CChar ",") 0 (Some 1) true)
                       (Seq (Rep CSpace 1 None true)
                          (Seq (Grp 3 (Rep CDigit 4 (Some 4) true)) Eol))))))
           (MState None s) no_captures st' no_captures _ no_captures);
    cbn [strip].
  inv M.
  eapply MSeq; [eassumption|].
  match goal with H : Matches _ (Seq _ _) _ _ _ _ |- _ => inv H end.
  eapply MSeq; [eassumption|].
  match goal with H : Matches _ (Seq _ _) _ _ _ _ |- _ => inv H end.
  eapply MSeq; [eassumption|].
  match goal with
  | H : Matches _ (Seq _ _) ?st _ _ _ |- _ => destruct st as [p0 s0]
  end.
  eapply MSeq; [|eassumption].
  apply (MRep true (CChar ",") 0 (Some 1) true p0 "" s0);
    [reflexivity|cbn; lia|cbn; lia].
Qed.

Lemma number_2_4 (y : string) :
  number 2 4 y <-> number 4 4 y \/ number 2 3 y.
Proof. unfold number; split; [intros [D L]|intros [[D L]|[D L]]]; 
  [destruct (Nat.eq_dec (String.length y) 4); [left|right]| |]; 
  split; try assumption; lia.
Qed.

Ltac three E Na Nb := split; [exact E|split; [exact Na|split; [exact Nb|]]].

Lemma isDate_cases (text : string) :
  isDate text = true
  <-> Dates.recognized text = true \/ short_year (Js.trim text).
Proof.
  unfold isDate, datePatterns, Dates.recognized, normalizeDatePatterns.
  cbn [existsb]; set (t := Js.trim text).
  rewrite (test_strip _ (threeNumbers "/" 1 2 1 2 2 4) t)
    by (reflexivity || (eexists _, _; repeat split; reflexivity)).
  rewrite (test_strip (Pattern false (cat (Bol :: between CDigit 1 2
                                             :: dash :: _)))
                      (threeNumbers "-" 1 2 1 2 2 4) t)
    by (reflexivity || (eexists _, _; repeat split; reflexivity)).
  rewrite (test_strip (Pattern false (cat (Bol :: exactly CDigit 4 :: _)))
                      yyyymmddPattern t)
    by (reflexivity || (eexists _, _; repeat split; reflexivity)).
  rewrite (test_strip (Pattern true
                         (cat [ Bol; Grp 1 month; plus CSpace;
                                between CDigit 1 2; opt (chr ",");
                                plus CSpace; exactly CDigit 4; Eol ]))
                      monthNamePattern t)
    by (reflexivity || (eexists _, _; repeat split; reflexivity)).
  change mmddyyyyPattern with (threeNumbers "/" 1 2 1 2 4 4).
  change mmddyyyyDashPattern with (threeNumbers "-" 1 2 1 2 4 4).
  rewrite !orb_false_r, !orb_true_iff, !threeNumbers_test.
  split.
  - intros [H|[H|[H|[H|H]]]].
    + destruct H as (a & b & c & E & Na & Nb & Nc).
      apply number_2_4 in Nc as [Nc|Nc].
      * left; right; left; exists a, b, c; auto.
      * right; exists "/"%char, a, b, c; auto.
    + destruct H as (a & b & c & E & Na & Nb & Nc).
      apply number_2_4 in Nc as [Nc|Nc].
      * left; right; right; left; exists a, b, c; auto.
      * right; exists "-"%char, a, b, c; auto.
    + left; right; right; right; exact H.
    + left; left; exact H.
    + left; left; apply month_without_comma; exact H.
  - intros [[H|[H|[H|H]]]|H].
    + right; right; right; left; exact H.
    + destruct H as (a & b & c & E & Na & Nb & Nc).
      left; exists a, b, c; three E Na Nb;
        apply number_2_4; left; exact Nc.
    + destruct H as (a & b & c & E & Na & Nb & Nc).
      right; left; exists a, b, c; three E Na Nb;
        apply number_2_4; left; exact Nc.
    + right; right; left; exact H.
    + destruct H as (sep & a & b & c & [-> | ->] & E & Na & Nb & Nc).
      * left; exists a, b, c; three E Na Nb;
          apply number_2_4; right; exact Nc.
      * right; left; exists a, b, c; three E Na Nb;
          apply number_2_4; right; exact Nc.
Qed.

(** [X19] [isDate] accepts what [normalizeDate] recognises and, besides, the
    numeric dates whose year has two or three digits, and nothing else. *)
Theorem isDate_recognized_or_short_year (text : string) :
  isDate text = true
  <-> Dates.recognized text = true \/ short_year (Js.trim text).
Proof. exact (isDate_cases text). Qed.

Lemma short_year_solid (s : string) :
  short_year s -> Js.trim s = s.
Proof.
  intros (sep & m & d & y & Hsep & -> & [Dm _] & [Dd _] & [Dy _]).
  apply three_solid; try assumption.
  destruct Hsep as [-> | ->]; reflexivity.
Qed.

Lemma threeNumbers_last_differs (sep : ascii) (l1 h1 l2 h2 l3 h3 : nat)
      (m d y : string) :
  Js.is_digit sep = false -> digits m -> digits d ->
  ~ l3 <= String.length y <= h3 ->
  exec (threeNumbers sep l1 h1 l2 h2 l3 h3)
       (m ++ String sep (d ++ String sep y)) = None.
Proof.
  intros Hs Dm Dd Hy.
  destruct (exec _ _) as [res|] eqn:E; [exfalso|reflexivity].
  apply threeNumbers_sound in E
    as (a & b & c & Es & [Da _] & [Db _] & [Dc Lc] & _).
  apply (cut_unique Js.is_digit) in Es as [_ Es]; try assumption.
  apply (cut_unique Js.is_digit) in Es as [_ Es]; try assumption.
  subst; tauto.
Qed.

Lemma threeNumbers_first_differs (sep : ascii) (l1 h1 l2 h2 l3 h3 : nat)
      (m x : string) :
  Js.is_digit sep = false -> digits m ->
  ~ l1 <= String.length m <= h1 ->
  exec (threeNumbers sep l1 h1 l2 h2 l3 h3) (m ++ String sep x) = None.
Proof.
  intros Hs Dm Hm.
  destruct (exec _ _) as [res|] eqn:E; [exfalso|reflexivity].
  apply threeNumbers_sound in E
    as (a & b & c & Es & [Da La] & _).
  apply (cut_unique Js.is_digit) in Es as [Es _]; try assumption.
  subst; tauto.
Qed.

Lemma short_year_unrecognized (s : string) :
  short_year s ->
  exec monthNamePattern s = None
  /\ exec mmddyyyyPattern s = None
  /\ exec mmddyyyyDashPattern s = None
  /\ exec yyyymmddPattern s = None.
Proof.
  intros (sep & m & d & y & Hsep & -> & Nm & Nd & Ny).
  pose proof Nm as [Dm Lm]; pose proof Nd as [Dd Ld];
    pose proof Ny as [Dy Ly].
  split; [apply monthName_digit_first; left; exact Nm|].
  change mmddyyyyPattern with (threeNumbers "/" 1 2 1 2 4 4).
  change mmddyyyyDashPattern with (threeNumbers "-" 1 2 1 2 4 4).
  change yyyymmddPattern with (threeNumbers "-" 4 4 1 2 1 2).
  destruct Hsep as [-> | ->]; (split; [|split]).
  - apply threeNumbers_last_differs; try assumption; [reflexivity|lia].
  - apply threeNumbers_other; try assumption; try reflexivity; discriminate.
  - apply threeNumbers_other; try assumption; try reflexivity; discriminate.
  - apply threeNumbers_other; try assumption; try reflexivity; discriminate.
  - apply threeNumbers_last_differs; try assumption; [reflexivity|lia].
  - apply threeNumbers_first_differs; try assumption; [reflexivity|lia].
Qed.

Lemma short_year_unchanged (text : string) :
  short_year (Js.trim text) -> normalizeDate text = Js.trim text.
Proof.
  intros H; apply short_year_unrecognized in H as (E1 & E2 & E3 & E4).
  unfold normalizeDate; rewrite E1, E2, E3, E4; reflexivity.
Qed.

(** [X20] A numeric date whose year has two or three digits is a date for
    [isDate], and [normalizeDate] gives it back as it is written, month
    first. *)
Theorem short_year_left_as_written (text : string) :
  short_year (Js.trim text) ->
  isDate text = true /\ normalizeDate text = Js.trim text.
Proof.
  intros H; split.
  - apply isDate_cases; right; exact H.
  - apply short_year_unchanged, H.
Qed.

Lemma short_year_left_as_written_example :
  isDate " 10/21/25 " = true /\ normalizeDate " 10/21/25 " = "10/21/25".
Proof.
  apply (short_year_left_as_written " 10/21/25 ").
  exists "/"%char, "10", "21", "25".
  split; [left; reflexivity|split; [reflexivity|]].
  split; [|split]; (split; [reflexivity|cbn; lia]).
Defined.

Lemma last_In_or_default {A : Type} (l : list A) (d : A) :
  last l d = d \/ In (last l d) l.
Proof.
  destruct l as [|a l]; [left; reflexivity|right].
  revert a; induction l as [|b l IH]; intros a; [left; reflexivity|].
  change (last (a :: b :: l) d) with (last (b :: l) d).
  right; apply IH.
Qed.

(** [X21] The date of a record built from the cells of a table row is empty,
    or two digits, a slash, two digits, a slash and four digits, or a
    numeric date with a year of two or three digits left as the cell has it,
    month first. *)
Theorem cells_date_shape (cells headers : list string) :
  let date :=
    CellNotions.field "date"
      (Cells.createTransactionFromCells cells headers) in
  date = "" \/ ddmmyyyy date = true \/ short_year date.
Proof.
  cbv zeta.
  assert (E : CellNotions.field "date"
                (Cells.createTransactionFromCells cells headers)
              = last (map normalizeDate
                          (CellNotions.dateTexts (map Js.trim cells))) "").
  { destruct (CellFacts.classifyAll_fields (map Js.trim cells) headers
                Cells.noFields) as (H & _); exact H. }
  rewrite E; clear E.
  destruct (last_In_or_default
              (map normalizeDate (CellNotions.dateTexts (map Js.trim cells)))
              "") as [->|H]; [left; reflexivity|right].
  apply in_map_iff in H as (text & <- & Ht).
  unfold CellNotions.dateTexts in Ht; apply filter_In in Ht as [_ Ht].
  apply isDate_cases in Ht as [Ht|Ht].
  - left; apply recognized_shape, Ht.
  - right; rewrite (short_year_unchanged _ Ht); exact Ht.
Qed.

End DateShapeFacts.

(** ** Reading back what the popup wrote *)

Module PopupReadFacts.
Import Csv Reader ReaderFacts Validity ExportNotions.







End PopupReadFacts.

(** ** Statement lines that start with a date *)

Module StatementLineFacts.
Import Regex Utils Denotation DenotationFacts DateFormatFacts.
Import StatementLines.

(** A greedy quantifier takes the whole run when the rest of the pattern
    matches after it. *)
Lemma rep_max {A : Type} (ic : bool) (cl : cclass) (lo : nat)
      (hi : option nat) (taken : string) :
  forall n p t c (k : mstate -> captures -> option A) x,
    every (cmatch ic cl) taken = true ->
    lo <= n + String.length taken ->
    at_most hi (n + String.length taken) ->
    hi = Some (n + String.length taken) \/ t = ""
    \/ (exists a t', t = String a t' /\ cmatch ic cl a = false) ->
    k (MState (after p taken) t) c = Some x ->
    rep ic cl lo hi true n p (taken ++ t) c k = Some x.
Proof.
  induction taken as [|a taken IH]; intros n p t c k x Hev Hlo Hhi Hstop Hk.
  - cbn [append after String.length] in *; rewrite Nat.add_0_r in *.
    assert (Hn : (lo <=? n) = true) by (apply Nat.leb_le; lia).
    destruct t as [|b t]; cbn [rep]; rewrite Hn; [exact Hk|].
    destruct Hstop as [->|[Hstop|(b' & t' & E & Hb)]].
    + cbn [under]; rewrite Nat.ltb_irrefl; exact Hk.
    + discriminate.
    + injection E as <- <-; rewrite Hb, andb_false_r; exact Hk.
  - cbn [append every String.length after] in *.
    apply andb_true_iff in Hev as [Hc Hev].
    assert (Hu : under hi n = true).
    { destruct hi as [m|]; cbn [under at_most] in *; [|reflexivity].
      apply Nat.ltb_lt; lia. }
    cbn [rep]; rewrite Hu, Hc; cbn [andb].
    rewrite (IH (S n) (Some a) t c k x); try assumption; try lia.
    + reflexivity.
    + destruct hi; cbn [at_most] in *; [lia|exact I].
    + destruct Hstop as [->|Hstop]; [left; f_equal; lia|right; exact Hstop].
Qed.

Lemma run_rep_max {A : Type} (ic : bool) (cl : cclass) (lo : nat)
      (hi : option nat) (taken t : string) (p : option ascii)
      (c : captures) (k : mstate -> captures -> option A) (x : A) :
  every (cmatch ic cl) taken = true ->
  lo <= String.length taken ->
  at_most hi (String.length taken) ->
  hi = Some (String.length taken) \/ t = ""
  \/ (exists a t', t = String a t' /\ cmatch ic cl a = false) ->
  k (MState (after p taken) t) c = Some x ->
  run ic (Rep cl lo hi true) (MState p (taken ++ t)) c k = Some x.
Proof. intros; cbn [run prev rest]; apply rep_max; assumption. Qed.

Lemma run_cls_hit {A : Type} (ic : bool) (cl : cclass) (a : ascii)
      (t : string) (p : option ascii) (c : captures)
      (k : mstate -> captures -> option A) (x : A) :
  cmatch ic cl a = true ->
  k (MState (Some a) t) c = Some x ->
  run ic (Cls cl) (MState p (String a t)) c k = Some x.
Proof. intros Hc Hk; cbn [run rest]; rewrite Hc; exact Hk. Qed.

Lemma run_seq {A : Type} (ic : bool) (r1 r2 : regex) (st : mstate)
      (c : captures) (k : mstate -> captures -> option A) :
  run ic (Seq r1 r2) st c k
  = run ic r1 st c (fun st' c' => run ic r2 st' c' k).
Proof. reflexivity. Qed.

Lemma run_grp {A : Type} (ic : bool) (i : nat) (r : regex) (st : mstate)
      (c : captures) (k : mstate -> captures -> option A) :
  run ic (Grp i r) st c k
  = run ic r st c (fun st' c' => k st' (set_capture i (consumed st st') c')).
Proof. reflexivity. Qed.

Lemma exec_at_start (p : pattern) (s : string) (res : result) :
  match_at (ignore_case p) (body p) "" (MState None s) = Some res ->
  exec p s = Some res.
Proof.
  unfold exec; intros H; destruct s; cbn [exec_from]; rewrite H; reflexivity.
Qed.

Lemma consumed_taken (st st' : mstate) (taken : string) :
  rest st = taken ++ rest st' -> consumed st st' = taken.
Proof.
  destruct st as [p s], st' as [p' t]; cbn [rest]; intros ->.
  apply consumed_app.
Qed.

Ltac go := cbv beta; repeat first [rewrite run_seq | rewrite run_grp];
           cbv beta.

Lemma sign_class (sg : string) :
  sign sg ->
  every (cmatch false (CSet [CChar "+"; CChar "-"])) sg = true
  /\ String.length sg <= 1.
Proof. intros [->|[->| ->]]; split; cbn; (reflexivity || lia). Qed.

(** What the first statement pattern gives on a line that starts with a
    numeric date, goes on with an amount in dollars and ends with a
    phrase. *)
Lemma first_pattern_groups (m d y ws1 sg n dd ws2 desc : string) :
  number 1 2 m -> number 1 2 d -> number 4 4 y ->
  spaces ws1 -> sign sg -> digits n -> n <> "" -> number 2 2 dd ->
  spaces ws2 -> phrase desc ->
  exists res,
    exec (Pattern false
            (cat [ Grp 1 Pdf.numericDate; plus CSpace;
                   Grp 2 Pdf.dollarAmount; plus CSpace;
                   Grp 3 (plus CAny) ]))
         (m ++ String "/" (d ++ String "/" (y ++ ws1 ++ sg
            ++ String "$" (n ++ String "." (dd ++ ws2 ++ desc ++ "")))))
    = Some res
    /\ grp res 1 = m ++ String "/" (d ++ String "/" y)
    /\ grp res 2 = sg ++ String "$" (n ++ String "." dd)
    /\ grp res 3 = desc.
Proof.
  intros [Dm Lm] [Dd Ld] [Dy Ly] [Dw1 Nw1] Hsg Dn Nn [Ddd Ldd] [Dw2 Nw2]
         (Hline & Hend & a & t & Hdesc & Ha).
  destruct (sign_class sg Hsg) as [Dsg Lsg].
  eexists; split.
  - apply exec_at_start; unfold match_at; cbn [ignore_case body].
    cbv [cat Pdf.numericDate Pdf.dollarAmount Pdf.sign_opt between exactly
         plus opt slash dollar chr].
    go.
    eapply run_rep_max; [exact Dm|lia|cbn; lia| |go].
    { right; right; eexists _, _; split; reflexivity. }
    eapply run_cls_hit; [reflexivity|go].
    eapply run_rep_max; [exact Dd|lia|cbn; lia| |go].
    { right; right; eexists _, _; split; reflexivity. }
    eapply run_cls_hit; [reflexivity|go].
    eapply run_rep_max; [exact Dy|lia|cbn; lia| |go].
    { left; f_equal; lia. }
    eapply run_rep_max; [exact Dw1|destruct ws1; [congruence|cbn; lia]
                        |exact I| |go].
    { right; right.
      destruct Hsg as [->|[->| ->]]; eexists _, _; split; reflexivity. }
    eapply run_rep_max; [exact Dsg|lia|exact Lsg| |go].
    { right; right; eexists _, _; split; reflexivity. }
    eapply run_cls_hit; [reflexivity|go].
    eapply run_rep_max; [exact Dn|destruct n; [congruence|cbn; lia]
                        |exact I| |go].
    { right; right; eexists _, _; split; reflexivity. }
    eapply run_cls_hit; [reflexivity|go].
    eapply run_rep_max; [exact Ddd|lia|cbn; lia| |go].
    { left; f_equal; lia. }
    eapply run_rep_max; [exact Dw2|destruct ws2; [congruence|cbn; lia]
                        |exact I| |go].
    { right; right; exists a, (t ++ ""); split; [rewrite Hdesc; reflexivity|].
      exact Ha. }
    eapply run_rep_max; [exact Hline|rewrite Hdesc; cbn; lia|exact I| |].
    { right; left; reflexivity. }
    reflexivity.
  - unfold grp; cbn [group]; unfold set_capture; cbn [Nat.eqb].
    split; [|split]; apply consumed_taken; cbn [rest append];
      repeat (rewrite ReaderFacts.append_assoc; cbn [append]);
      reflexivity.
Qed.

Lemma remove_app (P : ascii -> bool) (s t : string) :
  Js.remove_chars P (s ++ t) = Js.remove_chars P s ++ Js.remove_chars P t.
Proof.
  induction s as [|a s IH]; cbn [append Js.remove_chars]; [reflexivity|].
  rewrite IH; destruct (P a); reflexivity.
Qed.

Lemma digit_kept (a : ascii) :
  Js.is_digit a = true -> is_comma_or_dollar a = false.
Proof.
  destruct a as [[] [] [] [] [] [] [] []]; vm_compute; congruence.
Qed.

Lemma digits_kept (s : string) :
  digits s -> Js.remove_chars is_comma_or_dollar s = s.
Proof.
  unfold digits; induction s as [|a s IH]; cbn [every Js.remove_chars];
    [reflexivity|].
  intros H; apply andb_true_iff in H as [Ha Hs].
  rewrite (digit_kept a Ha), (IH Hs); reflexivity.
Qed.

Lemma take_digits_run (n t : string) :
  digits n ->
  t = "" \/ (exists a t', t = String a t' /\ Js.is_digit a = false) ->
  take_digits (n ++ t) = (n, t).
Proof.
  unfold digits; intros Hn Ht.
  induction n as [|a n IH]; cbn [append every take_digits] in *.
  - destruct Ht as [->|(a & t' & -> & Ha)]; [reflexivity|].
    cbn [take_digits]; rewrite Ha; reflexivity.
  - apply andb_true_iff in Hn as [Ha Hn].
    rewrite Ha, (IH Hn); reflexivity.
Qed.

Lemma digit_head (n : string) :
  digits n -> n <> "" ->
  exists a t, n = String a t /\ Js.is_digit a = true.
Proof.
  unfold digits; destruct n as [|a t]; [congruence|]; cbn [every].
  intros H _; apply andb_true_iff in H as [Ha _]; eauto.
Qed.

Lemma digit_plain (a : ascii) :
  Js.is_digit a = true ->
  Js.is_ws a = false /\ is_sign a = false /\ a <> "I"%char.
Proof.
  destruct a as [[] [] [] [] [] [] [] []]; vm_compute;
    repeat split; congruence.
Qed.

(** [parseFloat] reads the whole of a signed decimal literal with a
    fraction. *)
Lemma parseFloat_literal (sg n dd : string) :
  sign sg -> digits n -> n <> "" -> digits dd ->
  parseFloat_text (sg ++ n ++ String "." dd)
  = Some (sg ++ n ++ String "." dd).
Proof.
  intros Hsg Dn Nn Ddd.
  destruct (digit_head n Dn Nn) as (a & t & En & Ha).
  destruct (digit_plain a Ha) as (Hws & Hsign & HI).
  assert (Hbody : forall sg0,
             (let (sg1, body) := (sg0, n ++ String "." dd) in
              if String.prefix "Infinity" body then Some (sg1 ++ "Infinity")
              else match take_mantissa body with
                   | Some (m, r) => Some (sg1 ++ m ++ take_exponent r)
                   | None => None
                   end)
             = Some (sg0 ++ n ++ String "." dd)).
  { intros sg0.
    assert (Hpre : String.prefix "Infinity" (n ++ String "." dd) = false).
    { rewrite En; cbn [append String.prefix].
      destruct (ascii_dec "I" a) as [E|E]; [congruence|reflexivity]. }
    rewrite Hpre; unfold take_mantissa.
    rewrite (take_digits_run n (String "." dd) Dn)
      by (right; eexists _, _; split; reflexivity).
    rewrite <- (ReaderFacts.append_empty_r dd) at 1.
    rewrite (take_digits_run dd "" Ddd) by (left; reflexivity).
    rewrite En; cbn [append take_exponent].
    rewrite ReaderFacts.append_empty_r; reflexivity. }
  unfold parseFloat_text.
  destruct Hsg as [->|[->| ->]]; cbn [append].
  - assert (E : take_sign (Js.trimStart (n ++ String "." dd))
                = ("", n ++ String "." dd)).
    { rewrite En; cbn [append Js.trimStart]; rewrite Hws.
      unfold take_sign; rewrite Hsign; reflexivity. }
    rewrite E; apply (Hbody "").
  - cbn [Js.trimStart take_sign]; apply (Hbody "+").
  - cbn [Js.trimStart take_sign]; apply (Hbody "-").
Qed.

Section Rendering.
Variable toFixed2 : string -> string.

(** The dollar sign goes, the sign stays in the literal that is
    rendered. *)
Lemma dollars_rendered (sg n dd : string) :
  sign sg -> digits n -> n <> "" -> digits dd ->
  normalizeAmount toFixed2 (sg ++ String "$" (n ++ String "." dd))
  = toFixed2 (sg ++ n ++ String "." dd).
Proof.
  intros Hsg Dn Nn Ddd; unfold normalizeAmount.
  assert (E : Js.remove_chars is_comma_or_dollar
                (sg ++ String "$" (n ++ String "." dd))
              = sg ++ n ++ String "." dd).
  { rewrite remove_app; cbn [Js.remove_chars].
    change (is_comma_or_dollar "$") with true; cbv iota.
    rewrite remove_app; cbn [Js.remove_chars].
    change (is_comma_or_dollar ".") with false; cbv iota.
    rewrite (digits_kept n Dn), (digits_kept dd Ddd).
    destruct Hsg as [->|[->| ->]]; reflexivity. }
  rewrite E, parseFloat_literal by assumption.
  destruct (_ || _); reflexivity.
Qed.
End Rendering.

Lemma trimEnd_app (a b : string) :
  Js.trimEnd b <> "" -> Js.trimEnd (a ++ b) = a ++ Js.trimEnd b.
Proof.
  intros Hb; induction a as [|h a IH]; cbn [append Js.trimEnd];
    [reflexivity|].
  rewrite IH; destruct (a ++ Js.trimEnd b) eqn:E; [|reflexivity].
  destruct a; cbn [append] in E; [congruence|discriminate].
Qed.

Lemma phrase_trimmed (s : string) : phrase s -> Js.trim s = s.
Proof.
  intros (_ & Hend & a & t & -> & Ha); unfold Js.trim.
  cbn [Js.trimStart]; rewrite Ha; exact Hend.
Qed.

(** [X23] A statement line made of a numeric date, an amount in dollars and
    a phrase, with white space between them, gives a record with the date as
    day, month, year, the amount rendered from the literal without its
    dollar sign, and the phrase as the description. *)
Theorem dated_line_record (toFixed2 : string -> string)
        (m d y ws1 sg n dd ws2 desc : string) (lineY : Z) :
  number 1 2 m -> number 1 2 d -> number 4 4 y ->
  spaces ws1 -> sign sg -> digits n -> n <> "" -> number 2 2 dd ->
  spaces ws2 -> phrase desc ->
  Pdf.parseTransactionLine toFixed2
    {| Pdf.text := (m ++ "/" ++ d ++ "/" ++ y) ++ ws1
                   ++ (sg ++ "$" ++ n ++ "." ++ dd) ++ ws2 ++ desc;
       Pdf.lineY := lineY |}
  = Some [ ("date", VStr (pad2 d ++ "/" ++ pad2 m ++ "/" ++ y));
           ("amount", VStr (toFixed2 (sg ++ n ++ "." ++ dd)));
           ("description", VStr desc);
           ("source", VStr "PDF");
           ("page", VNum lineY) ].
Proof.
  intros Nm Nd Ny Hw1 Hsg Dn Nn Ndd Hw2 Hdesc.
  destruct (first_pattern_groups m d y ws1 sg n dd ws2 desc)
    as (res & Hexec & G1 & G2 & G3); try assumption.
  assert (Etext : (m ++ "/" ++ d ++ "/" ++ y) ++ ws1
                  ++ (sg ++ "$" ++ n ++ "." ++ dd) ++ ws2 ++ desc
                  = m ++ String "/" (d ++ String "/" (y ++ ws1 ++ sg
                      ++ String "$" (n ++ String "." (dd ++ ws2 ++ desc
                      ++ ""))))).
  { cbn [append]; rewrite ReaderFacts.append_empty_r.
    repeat (rewrite ReaderFacts.append_assoc; cbn [append]).
    reflexivity. }
  assert (Etrim : Js.trim (m ++ String "/" (d ++ String "/" (y ++ ws1 ++ sg
                      ++ String "$" (n ++ String "." (dd ++ ws2 ++ desc
                      ++ "")))))
                  = m ++ String "/" (d ++ String "/" (y ++ ws1 ++ sg
                      ++ String "$" (n ++ String "." (dd ++ ws2 ++ desc
                      ++ ""))))).
  { destruct Nm as [Dm Lm].
    destruct (digit_head m Dm) as (a & t & -> & Ha);
      [intros ->; cbn in Lm; lia|].
    destruct (digit_plain a Ha) as (Hws & _).
    unfold Js.trim; cbn [append Js.trimStart]; rewrite Hws.
    rewrite ReaderFacts.append_empty_r.
    destruct Hdesc as (_ & Hend & b & u & Eb & Hb).
    assert (Hne : Js.trimEnd desc <> "")
      by (rewrite Hend, Eb; discriminate).
    change (String a (t ++ String "/" (d ++ String "/" (y ++ ws1 ++ sg
              ++ String "$" (n ++ String "." (dd ++ ws2 ++ desc))))))
      with ((String a t) ++ String "/" (d ++ String "/" (y ++ ws1 ++ sg
              ++ String "$" (n ++ String "." (dd ++ ws2 ++ desc))))).
    replace (String a t ++ String "/" (d ++ String "/" (y ++ ws1 ++ sg
               ++ String "$" (n ++ String "." (dd ++ ws2 ++ desc)))))
      with ((String a t ++ String "/" (d ++ String "/" (y ++ ws1 ++ sg
               ++ String "$" (n ++ String "." (dd ++ ws2))))) ++ desc).
    - rewrite (trimEnd_app _ desc Hne), Hend; reflexivity.
    - repeat (rewrite ReaderFacts.append_assoc; cbn [append]).
      reflexivity. }
  unfold Pdf.parseTransactionLine; cbn [Pdf.text Pdf.lineY].
  rewrite Etext, Etrim.
  assert (Hfull : Parser.is_empty
                    (m ++ String "/" (d ++ String "/" (y ++ ws1 ++ sg
                       ++ String "$" (n ++ String "." (dd ++ ws2 ++ desc
                       ++ ""))))) = false).
  { destruct Nm as [Dm Lm]; destruct m; [cbn in Lm; lia|reflexivity]. }
  rewrite Hfull; unfold Pdf.patterns; cbn [Parser.first_match].
  rewrite Hexec, G1, G2, G3.
  destruct (numbers_normalized m d y Nm Nd Ny) as (Hdate & _).
  change (m ++ String "/" (d ++ String "/" y))
    with (m ++ "/" ++ d ++ "/" ++ y).
  rewrite Hdate, (phrase_trimmed desc Hdesc).
  rewrite (dollars_rendered toFixed2 sg n dd Hsg Dn Nn (proj1 Ndd)).
  reflexivity.
Qed.

Lemma dated_line_record_example :
  Pdf.parseTransactionLine (fun lit => lit)
    {| Pdf.text := "1/5/2025   -$7.25  CORNER BAKERY"; Pdf.lineY := 688 |}
  = Some [ ("date", VStr "05/01/2025"); ("amount", VStr "-7.25");
           ("description", VStr "CORNER BAKERY"); ("source", VStr "PDF");
           ("page", VNum 688) ].
Proof.
  apply (dated_line_record (fun lit => lit) "1" "5" "2025" "   " "-" "7"
                           "25" "  " "CORNER BAKERY" 688).
  - split; [reflexivity|cbn; lia].
  - split; [reflexivity|cbn; lia].
  - split; [reflexivity|cbn; lia].
  - split; [reflexivity|discriminate].
  - right; right; reflexivity.
  - reflexivity.
  - discriminate.
  - split; [reflexivity|cbn; lia].
  - split; [reflexivity|discriminate].
  - split; [reflexivity|split; [reflexivity|]].
    eexists _, _; split; reflexivity.
Defined.

End StatementLineFacts.

(** ** The texts that read as amounts *)

Module AmountShapeFacts.
Import Regex Utils Denotation DenotationFacts DateFormatFacts DateShapeFacts.
Import AmountShapes.

Lemma cmatch_figure (a : ascii) :
  cmatch false digit_or_comma a = figure a.
Proof.
  unfold figure; cbn [cmatch digit_or_comma chr existsb].
  rewrite orb_false_r, (Ascii.eqb_sym "," a); reflexivity.
Qed.

Lemma every_ext (P Q : ascii -> bool) (s : string) :
  (forall a, P a = Q a) -> every P s = every Q s.
Proof.
  intros H; induction s as [|a s IH]; cbn [every]; [reflexivity|].
  rewrite H, IH; reflexivity.
Qed.

Lemma opt_taken (c : ascii) (taken : string) :
  every (cmatch false (CChar c)) taken = true ->
  String.length taken <= 1 ->
  taken = "" \/ taken = String c "".
Proof.
  destruct taken as [|a [|b t]]; cbn [every String.length]; intros H L;
    [left; reflexivity| |lia].
  right; apply andb_true_iff in H as [H _].
  apply RegexFacts.cmatch_char in H; subst; reflexivity.
Qed.

Lemma core_sound (r : regex) (p : option ascii) (s : string)
      (c : captures) (st' : mstate) (c' : captures) :
  Matches false (core r) (MState p s) c st' c' ->
  exists body dd t p',
    s = body ++ String "." (dd ++ t)
    /\ body <> "" /\ every figure body = true /\ number 2 2 dd
    /\ Matches false r (MState p' t) c st' c'.
Proof.
  unfold core; intros M.
  inv M.
  match goal with H : Matches _ (Rep _ _ _ _) _ _ _ _ |- _ => inv H end.
  match goal with H : Matches _ (Seq _ _) _ _ _ _ |- _ => inv H end.
  match goal with H : Matches _ (Cls _) _ _ _ _ |- _ => inv H end.
  match goal with H : Matches _ (Seq _ _) _ _ _ _ |- _ => inv H end.
  match goal with H : Matches _ (Rep _ _ _ _) _ _ _ _ |- _ => inv H end.
  match goal with
  | H : cmatch false (CChar _) _ = true |- _ =>
      apply RegexFacts.cmatch_char in H; subst
  end.
  match goal with
  | H : Matches false r (MState ?p' ?t) _ _ _,
    Hb : every (cmatch false digit_or_comma) ?body = true,
    Hd : every (cmatch false CDigit) ?dd = true |- _ =>
      exists body, dd, t, p'
  end.
  cbn [at_most] in *.
  split; [reflexivity|].
  split; [intros ->; cbn in *; lia|].
  split; [erewrite every_ext; [eassumption|intros; symmetry;
                                            apply cmatch_figure]|].
  split; [split; [assumption|lia]|assumption].
Qed.

Lemma core_complete (r : regex) (p : option ascii) (body dd t : string)
      (c : captures) (st' : mstate) (c' : captures) :
  body <> "" -> every figure body = true -> number 2 2 dd ->
  Matches false r (MState (after (Some "."%char) dd) t) c st' c' ->
  Matches false (core r) (MState p (body ++ String "." (dd ++ t))) c st' c'.
Proof.
  intros Nb Hb [Dd Ld] M; unfold core.
  eapply MSeq; [apply MRep|].
  - erewrite every_ext; [exact Hb|apply cmatch_figure].
  - destruct body; [congruence|cbn; lia].
  - exact I.
  - eapply MSeq; [apply MCls; reflexivity|].
    eapply MSeq; [apply MRep; [exact Dd|lia|cbn; lia]|exact M].
Qed.

Lemma core_plain (p : option ascii) (s : string) :
  acc (core Eol) p s <-> shaped "" "" s.
Proof.
  unfold acc, shaped; split.
  - intros (st' & c' & M).
    apply core_sound in M as (body & dd & t & p' & -> & Nb & Hb & Nd & M).
    inv M; exists body, dd; repeat split; try assumption; apply Nd.
  - intros (body & dd & -> & Nb & Hb & Nd); cbn [append].
    eexists _, _; apply core_complete; try assumption; apply MEol.
Qed.

Lemma core_paren (p : option ascii) (s : string) :
  acc (core (Seq (Cls (CChar ")")) Eol)) p s <-> shaped "" ")" s.
Proof.
  unfold acc, shaped; split.
  - intros (st' & c' & M).
    apply core_sound in M as (body & dd & t & p' & -> & Nb & Hb & Nd & M).
    inv M.
    match goal with H : Matches _ (Cls _) _ _ _ _ |- _ => inv H end.
    match goal with H : Matches _ Eol _ _ _ _ |- _ => inv H end.
    match goal with
    | H : cmatch false (CChar _) _ = true |- _ =>
        apply RegexFacts.cmatch_char in H; subst
    end.
    exists body, dd; repeat split; try assumption; apply Nd.
  - intros (body & dd & -> & Nb & Hb & Nd); cbn [append].
    eexists _, _; apply core_complete; try assumption.
    eapply MSeq; [apply MCls; reflexivity|apply MEol].
Qed.

Lemma cls_prefix (x : ascii) (r : regex) (p : option ascii) (s : string) :
  acc (Seq (Cls (CChar x)) r) p s
  <-> exists t, s = String x t /\ acc r (Some x) t.
Proof.
  unfold acc; split.
  - intros (st' & c' & M); inv M.
    match goal with H : Matches _ (Cls _) _ _ _ _ |- _ => inv H end.
    match goal with
    | H : cmatch false (CChar _) _ = true |- _ =>
        apply RegexFacts.cmatch_char in H; subst
    end.
    eexists; split; [reflexivity|eauto].
  - intros (t & -> & st' & c' & M).
    exists st', c'; eapply MSeq; [apply MCls; apply Ascii.eqb_refl|exact M].
Qed.

Lemma opt_prefix (x : ascii) (r : regex) (p : option ascii) (s : string) :
  acc (Seq (Rep (CChar x) 0 (Some 1) true) r) p s
  <-> acc r p s \/ exists t, s = String x t /\ acc r (Some x) t.
Proof.
  unfold acc; split.
  - intros (st' & c' & M); inv M.
    match goal with H : Matches _ (Rep _ _ _ _) _ _ _ _ |- _ => inv H end.
    match goal with
    | H : every _ ?taken = true, L : at_most _ _ |- _ =>
        destruct (opt_taken x taken H L) as [->| ->]
    end; cbn [append after] in *.
    + left; eauto.
    + right; eexists; split; [reflexivity|eauto].
  - intros [(st' & c' & M)|(t & -> & st' & c' & M)]; exists st', c'.
    + eapply MSeq; [|exact M].
      apply (MRep false (CChar x) 0 (Some 1) true p "" s);
        [reflexivity|cbn; lia|cbn; lia].
    + eapply MSeq; [|exact M].
      apply (MRep false (CChar x) 0 (Some 1) true p (String x "") t);
        [cbn; rewrite Ascii.eqb_refl; reflexivity|cbn; lia|cbn; lia].
Qed.

Lemma shaped_cons (x : ascii) (pre post s : string) :
  (exists t, s = String x t /\ shaped pre post t)
  <-> shaped (String x pre) post s.
Proof.
  unfold shaped; split.
  - intros (t & -> & body & dd & -> & H); exists body, dd.
    split; [reflexivity|exact H].
  - intros (body & dd & -> & H); eexists; split; [reflexivity|].
    exists body, dd; split; [reflexivity|exact H].
Qed.

Lemma test_acc (r : regex) (s : string) :
  test (Pattern false (Seq Bol r)) s = true <-> acc r None s.
Proof. apply test_anchored. Qed.

Ltac shape_in H := apply core_plain in H || apply core_paren in H.
Ltac shape_out := apply core_plain || apply core_paren.
Ltac put x := apply shaped_cons; eexists; split; [reflexivity|].
Ltac get H := apply shaped_cons in H as (? & -> & H).

Lemma pattern1_shapes (s : string) :
  test amountPattern1 s = true
  <-> shaped "" "" s \/ shaped "$" "" s \/ shaped "-" "" s
      \/ shaped "$-" "" s.
Proof.
  change amountPattern1
    with (Pattern false
            (Seq Bol (Seq (Rep (CChar "$") 0 (Some 1) true)
                          (Seq (Rep (CChar "-") 0 (Some 1) true)
                               (core Eol))))).
  rewrite test_acc, opt_prefix, opt_prefix; split.
  - intros [[H|(t & -> & H)]|(t & -> & H)].
    + shape_in H; auto.
    + shape_in H; right; right; left; put "-"%char; exact H.
    + apply opt_prefix in H as [H|(u & -> & H)]; shape_in H.
      * right; left; put "$"%char; exact H.
      * right; right; right; put "$"%char; put "-"%char; exact H.
  - intros [H|[H|[H|H]]].
    + left; left; shape_out; exact H.
    + get H; right; eexists; split; [reflexivity|].
      apply opt_prefix; left; shape_out; exact H.
    + get H; left; right; eexists; split; [reflexivity|].
      shape_out; exact H.
    + get H; get H; right; eexists; split; [reflexivity|].
      apply opt_prefix; right; eexists; split; [reflexivity|].
      shape_out; exact H.
Qed.

Lemma pattern2_shapes (s : string) :
  test amountPattern2 s = true <-> shaped "$" "" s \/ shaped "-$" "" s.
Proof.
  change amountPattern2
    with (Pattern false
            (Seq Bol (Seq (Rep (CChar "-") 0 (Some 1) true)
                          (Seq (Cls (CChar "$")) (core Eol))))).
  rewrite test_acc, opt_prefix; split.
  - intros [H|(t & -> & H)];
      apply cls_prefix in H as (u & -> & H); shape_in H.
    + left; put "$"%char; exact H.
    + right; put "-"%char; put "$"%char; exact H.
  - intros [H|H].
    + get H; left; apply cls_prefix; eexists; split; [reflexivity|].
      shape_out; exact H.
    + get H; get H; right; eexists; split; [reflexivity|].
      apply cls_prefix; eexists; split; [reflexivity|].
      shape_out; exact H.
Qed.

Lemma pattern3_shapes (s : string) :
  test amountPattern3 s = true <-> shaped "" "" s.
Proof.
  change amountPattern3 with (Pattern false (Seq Bol (core Eol))).
  rewrite test_acc; apply core_plain.
Qed.

Lemma one_prefix (x : ascii) (r : regex) (post s : string) :
  (forall p t, acc r p t <-> shaped "" post t) ->
  acc (Seq (Cls (CChar x)) r) None s <-> shaped (String x "") post s.
Proof.
  intros Hr; rewrite cls_prefix; split.
  - intros (t & -> & H); put x; apply Hr in H; exact H.
  - intros H; get H; eexists; split; [reflexivity|apply Hr; exact H].
Qed.

Lemma pattern4_shapes (s : string) :
  test amountPattern4 s = true <-> shaped "$" "" s.
Proof.
  change amountPattern4
    with (Pattern false (Seq Bol (Seq (Cls (CChar "$")) (core Eol)))).
  rewrite test_acc; apply one_prefix, core_plain.
Qed.

Lemma pattern5_shapes (s : string) :
  test amountPattern5 s = true <-> shaped "-" "" s.
Proof.
  change amountPattern5
    with (Pattern false (Seq Bol (Seq (Cls (CChar "-")) (core Eol)))).
  rewrite test_acc; apply one_prefix, core_plain.
Qed.

Lemma paren_shapes (s : string) :
  test parenAmountPattern s = true <-> shaped "(" ")" s.
Proof.
  change parenAmountPattern
    with (Pattern false
            (Seq Bol (Seq (Cls (CChar "("))
                          (core (Seq (Cls (CChar ")")) Eol))))).
  rewrite test_acc; apply one_prefix, core_paren.
Qed.

Lemma dollar_paren_shapes (s : string) :
  test dollarParenAmountPattern s = true <-> shaped "$(" ")" s.
Proof.
  change dollarParenAmountPattern
    with (Pattern false
            (Seq Bol (Seq (Cls (CChar "$"))
                          (Seq (Cls (CChar "("))
                               (core (Seq (Cls (CChar ")")) Eol)))))).
  rewrite test_acc, cls_prefix; split.
  - intros (t & -> & H); apply cls_prefix in H as (u & -> & H).
    shape_in H; put "$"%char; put "("%char; exact H.
  - intros H; get H; get H; eexists; split; [reflexivity|].
    apply cls_prefix; eexists; split; [reflexivity|shape_out; exact H].
Qed.

Lemma shaped_not_empty (pre post : string) : ~ shaped pre post "".
Proof.
  intros (body & dd & E & Nb & _); apply (f_equal String.length) in E.
  rewrite !RowFacts.length_append in E; cbn [String.length] in E.
  destruct body; [congruence|cbn in E; lia].
Qed.

Lemma isAmount_cases (text : string) :
  isAmount text = true <-> amount_shape (Js.trim text).
Proof.
  assert (Hall : existsb (fun p => test p (Js.trim text)) amountPatterns
                 = true <-> amount_shape (Js.trim text)).
  { unfold amountPatterns; cbn [existsb].
    rewrite !orb_true_iff, pattern1_shapes, pattern2_shapes,
      pattern3_shapes, pattern4_shapes, pattern5_shapes, paren_shapes,
      dollar_paren_shapes.
    unfold amount_shape, wrap; split.
    - intros [[H|[H|[H|H]]]|[[H|H]|[H|[H|[H|[H|[H|H]]]]]]];
        try discriminate; eexists _, _; (split; [|exact H]); tauto.
    - intros (pre & post & [[-> [->|[->|[->|[->| ->]]]]]
                           |[-> [->| ->]]] & H); tauto. }
  destruct text as [|a t]; [|exact Hall].
  split; [discriminate|].
  intros (pre & post & _ & H); exfalso; revert H; apply shaped_not_empty.
Qed.

(** [X24] [isAmount] accepts exactly the texts that read, once trimmed, as
    digits and commas, a point and two digits, with nothing, a dollar sign,
    a minus, a dollar sign and a minus in either order before them, or
    between parentheses, the opening one alone or behind a dollar sign. *)
Theorem isAmount_shapes (text : string) :
  isAmount text = true <-> amount_shape (Js.trim text).
Proof. exact (isAmount_cases text). Qed.

End AmountShapeFacts.

(** ** Dates written with the name of the month *)

Module MonthDateFacts.
Import Regex Utils Denotation DenotationFacts DateFormatFacts.
Import MonthDates.

(** A text is cut in one way only where a run of characters of one kind
    ends. *)
Lemma run_unique (P : ascii -> bool) (a : string) :
  forall a' x x',
    every P a = true -> every P a' = true ->
    x = "" \/ (exists h t, x = String h t /\ P h = false) ->
    x' = "" \/ (exists h t, x' = String h t /\ P h = false) ->
    a ++ x = a' ++ x' ->
    a = a' /\ x = x'.
Proof.
  induction a as [|h a IH]; intros [|h' a'] x x' Ha Ha' Hx Hx';
    cbn [append every] in *; intros E.
  - split; [reflexivity|exact E].
  - exfalso; apply andb_true_iff in Ha' as [Ha' _].
    destruct Hx as [->|(k & t & -> & Hk)]; [discriminate|].
    injection E as -> _; congruence.
  - exfalso; apply andb_true_iff in Ha as [Ha _].
    destruct Hx' as [->|(k & t & -> & Hk)]; [discriminate|].
    injection E as -> _; congruence.
  - injection E as -> E.
    apply andb_true_iff in Ha as [_ Ha], Ha' as [_ Ha'].
    destruct (IH a' x x' Ha Ha' Hx Hx' E) as [-> ->]; split; reflexivity.
Qed.

Lemma canon_of_lower (a : ascii) :
  Js.canon_char (Js.lower_char a) = Js.canon_char a.
Proof.
  destruct a as [[] [] [] [] [] [] [] []]; vm_compute; reflexivity.
Qed.

Lemma lower_letter (a : ascii) :
  is_lower (Js.lower_char a) = true ->
  Js.is_ws a = false /\ Js.is_digit a = false /\ a <> ","%char.
Proof.
  destruct a as [[] [] [] [] [] [] [] []]; vm_compute;
    repeat split; congruence.
Qed.

(** A text that reads in lower case as a literal is the literal for a
    pattern with the [i] flag. *)
Lemma lower_lit_eq (l : string) :
  forall taken,
    Js.toLowerCase taken = Js.toLowerCase l -> lit_eq true l taken = true.
Proof.
  induction l as [|c l IH]; intros [|a taken]; cbn [Js.toLowerCase lit_eq];
    try discriminate; [reflexivity|].
  intros E; injection E as Ea Et.
  rewrite (IH _ Et), andb_true_r; cbn [cmatch].
  apply Ascii.eqb_eq.
  rewrite <- (canon_of_lower c), <- (canon_of_lower a), Ea; reflexivity.
Qed.

Lemma alts_In (ic : bool) (l : list string) (L taken : string)
      (p : option ascii) (t : string) (c : captures) :
  In L l -> lit_eq ic L taken = true ->
  Matches ic (alts (map Lit l)) (MState p (taken ++ t)) c
          (MState (after p taken) t) c.
Proof.
  intros Hin Hl; induction l as [|L0 l IH]; [destruct Hin|].
  destruct l as [|L1 l].
  - destruct Hin as [->|[]]; apply MLit; exact Hl.
  - change (alts (map Lit (L0 :: L1 :: l)))
      with (Alt (Lit L0) (alts (map Lit (L1 :: l)))).
    destruct Hin as [->|Hin].
    + apply MAltL, MLit; exact Hl.
    + apply MAltR, IH; exact Hin.
Qed.

Ltac pick_month :=
  first
    [ solve [exists "Jan"; split; [cbn; tauto|reflexivity]]
    | solve [exists "Feb"; split; [cbn; tauto|reflexivity]]
    | solve [exists "Mar"; split; [cbn; tauto|reflexivity]]
    | solve [exists "Apr"; split; [cbn; tauto|reflexivity]]
    | solve [exists "May"; split; [cbn; tauto|reflexivity]]
    | solve [exists "Jun"; split; [cbn; tauto|reflexivity]]
    | solve [exists "Jul"; split; [cbn; tauto|reflexivity]]
    | solve [exists "Aug"; split; [cbn; tauto|reflexivity]]
    | solve [exists "Sep"; split; [cbn; tauto|reflexivity]]
    | solve [exists "Oct"; split; [cbn; tauto|reflexivity]]
    | solve [exists "Nov"; split; [cbn; tauto|reflexivity]]
    | solve [exists "Dec"; split; [cbn; tauto|reflexivity]]
    | solve [exists "January"; split; [cbn; tauto|reflexivity]]
    | solve [exists "February"; split; [cbn; tauto|reflexivity]]
    | solve [exists "March"; split; [cbn; tauto|reflexivity]]
    | solve [exists "April"; split; [cbn; tauto|reflexivity]]
    | solve [exists "June"; split; [cbn; tauto|reflexivity]]
    | solve [exists "July"; split; [cbn; tauto|reflexivity]]
    | solve [exists "August"; split; [cbn; tauto|reflexivity]]
    | solve [exists "September"; split; [cbn; tauto|reflexivity]]
    | solve [exists "October"; split; [cbn; tauto|reflexivity]]
    | solve [exists "November"; split; [cbn; tauto|reflexivity]]
    | solve [exists "December"; split; [cbn; tauto|reflexivity]] ].

(** The keys of the month table are the month names of the pattern, in
    lower case. *)
Lemma month_key (k mm : string) :
  lookup k monthNames = Some mm ->
  every is_lower k = true
  /\ String.length mm = 2 /\ digits mm
  /\ exists L,
       In L [ "Jan"; "Feb"; "Mar"; "Apr"; "May"; "Jun"; "Jul"; "Aug";
              "Sep"; "Oct"; "Nov"; "Dec"; "January"; "February"; "March";
              "April"; "May"; "June"; "July"; "August"; "September";
              "October"; "November"; "December" ]
       /\ Js.toLowerCase L = k.
Proof.
  unfold monthNames; cbn [lookup].
  repeat match goal with
         | |- context [if String.eqb ?key k then _ else _] =>
             destruct (String.eqb key k) eqn:E;
             [apply String.eqb_eq in E; subst k; intros H; injection H as <-;
              split; [reflexivity|split; [reflexivity|split; [reflexivity|]]];
              pick_month
             |clear E]
         end.
  discriminate.
Qed.

Lemma monthName_parse (s : string) (res : result) :
  exec monthNamePattern s = Some res ->
  exists taken w1 d c0 w2 y,
    s = taken ++ w1 ++ d ++ c0 ++ w2 ++ y
    /\ (exists mm, lookup (Js.toLowerCase taken) monthNames = Some mm)
    /\ gap w1 /\ number 1 2 d /\ (c0 = "" \/ c0 = ",")
    /\ gap w2 /\ number 4 4 y
    /\ grp res 1 = taken /\ grp res 2 = d /\ grp res 3 = y.
Proof.
  unfold monthNamePattern; cbv [cat plus between opt exactly chr]; intros H.
  apply exec_anchored_sound in H as (st' & c' & M & Hg).
  inv M.
  match goal with H : Matches _ (Grp 1 _) _ _ _ _ |- _ => inv H end.
  match goal with
  | H : Matches _ month _ _ _ _ |- _ =>
      apply month_matches in H
        as (-> & taken & mm & Hs & Hc & Hl & _)
  end.
  cbn [rest] in Hs.
  repeat match goal with
         | H : Matches _ (Seq _ _) _ _ _ _ |- _ => inv H
         | H : Matches _ (Rep _ _ _ _) _ _ _ _ |- _ => inv H
         | H : Matches _ (Grp _ _) _ _ _ _ |- _ => inv H
         | H : Matches _ Eol _ _ _ _ |- _ => inv H
         end.
  match goal with H : _ = group res |- _ => unfold grp; rewrite <- H end.
  unfold set_capture; cbn [Nat.eqb at_most rest] in *.
  rewrite !consumed_app, ?Hc, ReaderFacts.append_empty_r.
  eexists _, _, _, _, _, _; split; [reflexivity|].
  split; [exists mm; exact Hl|].
  repeat match goal with
         | H : every (cmatch true CSpace) ?w = true |- _ =>
             change (every Js.is_ws w = true) in H
         | H : every (cmatch true CDigit) ?w = true |- _ =>
             change (digits w) in H
         end.
  unfold gap, number.
  repeat match goal with
         | |- _ /\ _ => split
         end; try assumption; try lia; try reflexivity;
    try (intros ->; cbn in *; lia).
  match goal with
  | H : every (cmatch true (CChar ",")) ?c0 = true |- ?c0 = "" \/ _ =>
      destruct c0 as [|x [|x' c0]]; cbn [String.length every] in *;
      [left; reflexivity| |lia];
      right; apply andb_true_iff in H as [H _]; cbn [cmatch] in H;
      apply Ascii.eqb_eq in H; revert H; clear;
      destruct x as [[] [] [] [] [] [] [] []]; vm_compute; congruence
  end.
Qed.

Lemma lower_solid (s : string) :
  every is_lower (Js.toLowerCase s) = true ->
  every (fun a => negb (Js.is_ws a)) s = true.
Proof.
  induction s as [|a s IH]; cbn [Js.toLowerCase every]; [reflexivity|].
  intros H; apply andb_true_iff in H as [Ha Hs].
  destruct (lower_letter a Ha) as (-> & _); rewrite (IH Hs); reflexivity.
Qed.

Lemma month_solid (name mm : string) :
  lookup (Js.toLowerCase name) monthNames = Some mm ->
  every (fun a => negb (Js.is_ws a)) name = true.
Proof.
  intros H; apply month_key in H as (H & _); apply lower_solid, H.
Qed.

Lemma ws_plain (a : ascii) :
  Js.is_ws a = true ->
  Js.is_digit a = false /\ Ascii.eqb "," a = false.
Proof.
  destruct a as [[] [] [] [] [] [] [] []]; vm_compute; split; congruence.
Qed.

Lemma gap_head (w x : string) :
  gap w -> exists h t, w ++ x = String h t /\ Js.is_ws h = true.
Proof.
  intros [Hw Nw]; destruct w as [|h w]; [congruence|].
  cbn [every] in Hw; apply andb_true_iff in Hw as [Hh _].
  exists h, (w ++ x); split; [reflexivity|exact Hh].
Qed.

Lemma number_head (lo hi : nat) (d x : string) :
  number (S lo) hi d ->
  exists h t, d ++ x = String h t /\ Js.is_digit h = true.
Proof.
  intros [Dd Ld]; destruct d as [|h d]; [cbn in Ld; lia|].
  unfold digits in Dd; cbn [every] in Dd.
  apply andb_true_iff in Dd as [Hh _].
  exists h, (d ++ x); split; [reflexivity|exact Hh].
Qed.

Lemma comma_class (c0 : string) :
  c0 = "" \/ c0 = "," ->
  every (Ascii.eqb ",") c0 = true
  /\ every (cmatch true (CChar ",")) c0 = true
  /\ String.length c0 <= 1.
Proof. intros [->| ->]; repeat split; cbn; lia. Qed.

Lemma month_date_cut (name ws1 d comma ws2 y : string)
      (taken w1 d' c0 w2 y' : string) :
  every (fun a => negb (Js.is_ws a)) name = true ->
  every (fun a => negb (Js.is_ws a)) taken = true ->
  gap ws1 -> gap w1 -> number 1 2 d -> number 1 2 d' ->
  comma = "" \/ comma = "," -> c0 = "" \/ c0 = "," ->
  gap ws2 -> gap w2 -> number 4 4 y -> number 4 4 y' ->
  name ++ ws1 ++ d ++ comma ++ ws2 ++ y
  = taken ++ w1 ++ d' ++ c0 ++ w2 ++ y' ->
  name = taken /\ d = d' /\ y = y'.
Proof.
  intros Hn Ht G1 G1' Nd Nd' Hc Hc' G2 G2' Ny Ny' E.
  apply (run_unique (fun a => negb (Js.is_ws a)) name taken) in E
    as [-> E]; try assumption.
  2:{ right; destruct (gap_head ws1 (d ++ comma ++ ws2 ++ y) G1)
        as (h & t & -> & Hh).
      exists h, t; split; [reflexivity|rewrite Hh; reflexivity]. }
  2:{ right; destruct (gap_head w1 (d' ++ c0 ++ w2 ++ y') G1')
        as (h & t & -> & Hh).
      exists h, t; split; [reflexivity|rewrite Hh; reflexivity]. }
  apply (run_unique Js.is_ws ws1 w1) in E as [_ E];
    try apply G1; try apply G1'.
  2:{ right; destruct (number_head 0 2 d (comma ++ ws2 ++ y) Nd)
        as (h & t & -> & Hh).
      exists h, t; split; [reflexivity|].
      apply digit_not_ws in Hh; apply negb_true_iff in Hh; exact Hh. }
  2:{ right; destruct (number_head 0 2 d' (c0 ++ w2 ++ y') Nd')
        as (h & t & -> & Hh).
      exists h, t; split; [reflexivity|].
      apply digit_not_ws in Hh; apply negb_true_iff in Hh; exact Hh. }
  assert (Hsep : forall c1 w z,
             c1 = "" \/ c1 = "," -> gap w ->
             exists h t, c1 ++ w ++ z = String h t
                         /\ Js.is_digit h = false).
  { intros c1 w z [->| ->] Gw.
    - destruct (gap_head w z Gw) as (h & t & -> & Hh).
      exists h, t; split; [reflexivity|apply ws_plain, Hh].
    - eexists _, _; split; reflexivity. }
  apply (run_unique Js.is_digit d d') in E as [-> E];
    try apply Nd; try apply Nd'.
  2:{ right; apply Hsep; assumption. }
  2:{ right; apply Hsep; assumption. }
  destruct (comma_class comma Hc) as (Ec & _).
  destruct (comma_class c0 Hc') as (Ec' & _).
  apply (run_unique (Ascii.eqb ",") comma c0) in E as [_ E];
    try assumption.
  2:{ right; destruct (gap_head ws2 y G2) as (h & t & -> & Hh).
      exists h, t; split; [reflexivity|apply ws_plain, Hh]. }
  2:{ right; destruct (gap_head w2 y' G2') as (h & t & -> & Hh).
      exists h, t; split; [reflexivity|apply ws_plain, Hh]. }
  apply (run_unique Js.is_ws ws2 w2) in E as [_ E];
    try apply G2; try apply G2'.
  2:{ right; destruct (number_head 3 4 y "" Ny) as (h & t & Ey & Hh).
      rewrite ReaderFacts.append_empty_r in Ey.
      exists h, t; split; [exact Ey|].
      apply digit_not_ws in Hh; apply negb_true_iff in Hh; exact Hh. }
  2:{ right; destruct (number_head 3 4 y' "" Ny') as (h & t & Ey & Hh).
      rewrite ReaderFacts.append_empty_r in Ey.
      exists h, t; split; [exact Ey|].
      apply digit_not_ws in Hh; apply negb_true_iff in Hh; exact Hh. }
  repeat split; assumption.
Qed.

Lemma month_date_matches (name ws1 d comma ws2 y mm : string) :
  lookup (Js.toLowerCase name) monthNames = Some mm ->
  gap ws1 -> number 1 2 d -> comma = "" \/ comma = "," -> gap ws2 ->
  number 4 4 y ->
  exec monthNamePattern (name ++ ws1 ++ d ++ comma ++ ws2 ++ y) <> None.
Proof.
  intros Hm [W1 N1] [Dd Ld] Hc [W2 N2] [Dy Ly].
  apply month_key in Hm as (_ & _ & _ & L & HL & EL).
  destruct (comma_class comma Hc) as (_ & Cc & Lc).
  unfold monthNamePattern; cbv [cat plus between opt exactly chr].
  rewrite <- (ReaderFacts.append_empty_r y).
  eapply exec_anchored_complete.
  eapply MSeq; [apply MGrp; unfold month; apply (alts_In true _ L);
                [exact HL|apply lower_lit_eq; symmetry; exact EL]|].
  eapply MSeq; [apply MRep; [exact W1|destruct ws1; [congruence|cbn; lia]
                             |exact I]|].
  eapply MSeq; [apply MGrp, MRep; [exact Dd|lia|cbn; lia]|].
  eapply MSeq; [apply MRep; [exact Cc|lia|exact Lc]|].
  eapply MSeq; [apply MRep; [exact W2|destruct ws2; [congruence|cbn; lia]
                             |exact I]|].
  eapply MSeq; [apply MGrp, MRep; [exact Dy|lia|cbn; lia]|].
  apply MEol.
Qed.

Lemma month_date_trimmed (name ws1 d comma ws2 y mm : string) :
  lookup (Js.toLowerCase name) monthNames = Some mm ->
  number 4 4 y ->
  Js.trim (name ++ ws1 ++ d ++ comma ++ ws2 ++ y)
  = name ++ ws1 ++ d ++ comma ++ ws2 ++ y.
Proof.
  intros Hm [Dy Ly]; unfold Js.trim.
  pose proof (month_solid name mm Hm) as Hn.
  apply month_key in Hm as (_ & _ & _ & L & HL & EL).
  assert (Hstart : Js.trimStart (name ++ ws1 ++ d ++ comma ++ ws2 ++ y)
                   = name ++ ws1 ++ d ++ comma ++ ws2 ++ y).
  { destruct name as [|a name].
    - exfalso; cbn in EL; revert HL EL; clear.
      intros HL EL; cbn in HL.
      repeat (destruct HL as [<-|HL]; [discriminate|]); destruct HL.
    - cbn [every] in Hn; apply andb_true_iff in Hn as [Ha _].
      apply negb_true_iff in Ha; cbn [append Js.trimStart]; rewrite Ha.
      reflexivity. }
  rewrite Hstart.
  assert (Hy : Js.trimEnd y = y)
    by (apply trimEnd_solid, (every_impl _ _ _ digit_not_ws), Dy).
  replace (name ++ ws1 ++ d ++ comma ++ ws2 ++ y)
    with ((name ++ ws1 ++ d ++ comma ++ ws2) ++ y)
    by (rewrite !ReaderFacts.append_assoc; reflexivity).
  rewrite StatementLineFacts.trimEnd_app, Hy; [reflexivity|].
  rewrite Hy; intros ->; cbn in Ly; lia.
Qed.

Lemma month_date_normalized (name ws1 d comma ws2 y mm : string) :
  lookup (Js.toLowerCase name) monthNames = Some mm ->
  gap ws1 -> number 1 2 d -> comma = "" \/ comma = "," -> gap ws2 ->
  number 4 4 y ->
  normalizeDate (name ++ ws1 ++ d ++ comma ++ ws2 ++ y)
  = pad2 d ++ "/" ++ mm ++ "/" ++ y.
Proof.
  intros Hm G1 Nd Hc G2 Ny; unfold normalizeDate.
  rewrite (month_date_trimmed name ws1 d comma ws2 y mm Hm Ny).
  pose proof (month_date_matches name ws1 d comma ws2 y mm Hm G1 Nd Hc G2 Ny)
    as Hex.
  destruct (exec monthNamePattern _) as [res|] eqn:E; [|congruence].
  apply monthName_parse in E
    as (taken & w1 & d' & c0 & w2 & y' & Es & (mm' & Hm') & G1' & Nd' & Hc'
        & G2' & Ny' & -> & -> & ->).
  apply month_date_cut in Es as (<- & <- & <-); try assumption;
    try (eapply month_solid; eassumption).
  rewrite Hm; reflexivity.
Qed.

(** [X25] A date written as the name of a month, in any letter case, white
    space, the day, a comma or none, white space and the year comes back as
    the day padded to two digits, the number of the month from the table and
    the year, between slashes. *)
Theorem normalizeDate_month_names (name ws1 d comma ws2 y mm : string) :
  lookup (Js.toLowerCase name) monthNames = Some mm ->
  gap ws1 -> number 1 2 d -> comma = "" \/ comma = "," -> gap ws2 ->
  number 4 4 y ->
  normalizeDate (name ++ ws1 ++ d ++ comma ++ ws2 ++ y)
  = pad2 d ++ "/" ++ mm ++ "/" ++ y.
Proof. exact (month_date_normalized name ws1 d comma ws2 y mm). Qed.

Lemma normalizeDate_month_names_example :
  normalizeDate "sEPTEMBER  7 2025" = "07/09/2025".
Proof.
  apply (normalizeDate_month_names "sEPTEMBER" "  " "7" "" " " "2025" "09").
  - reflexivity.
  - split; [reflexivity|discriminate].
  - split; [reflexivity|cbn; lia].
  - left; reflexivity.
  - split; [reflexivity|discriminate].
  - split; [reflexivity|cbn; lia].
Defined.

End MonthDateFacts.

(** ** Fragments of one line *)

Module OneLineFacts.
Import Pdf OneLine.

Lemma one_line_fold (items : list TextItem) :
  forall y0 seen,
    Forall (near y0) items ->
    fold_left (fun ls item => addItem item ls) items
              [ {| groupY := y0; items := seen |} ]
    = [ {| groupY := y0; items := (seen ++ items)%list |} ].
Proof.
  induction items as [|item items IH]; intros y0 seen H; cbn [fold_left].
  - rewrite app_nil_r; reflexivity.
  - inversion H as [|? ? Hnear Hrest]; subst.
    cbn [addItem groupY]; unfold near in Hnear.
    apply Z.leb_le in Hnear; rewrite Hnear; cbn [Pdf.items].
    rewrite (IH y0 (seen ++ [item])%list Hrest), <- app_assoc.
    reflexivity.
Qed.

(** [X26] Fragments that all lie within the tolerance of the first one make
    one line: its text is their strings in the order they came, joined by a
    space, and its coordinate is that of the first fragment. *)
Theorem one_line_in_order (first : TextItem) (rest : list TextItem) :
  Forall (near (y first)) rest ->
  groupTextIntoLines (first :: rest)
  = [ {| text := String.concat " " (map str (first :: rest));
         lineY := y first |} ].
Proof.
  intros H; unfold groupTextIntoLines; cbn [fold_left addItem].
  rewrite (one_line_fold rest (y first) [first] H).
  reflexivity.
Qed.

Lemma one_line_in_order_example :
  groupTextIntoLines dateThenAmount
  = [ {| text := "10/21/2025 $50.00 STARBUCKS"; lineY := 700 |} ].
Proof.
  apply (one_line_in_order {| str := "10/21/2025"; y := 700 |}
           [ {| str := "$50.00"; y := 702 |};
             {| str := "STARBUCKS"; y := 698 |} ]).
  constructor; [unfold near, tolerance; cbn; lia|].
  constructor; [unfold near, tolerance; cbn; lia|constructor].
Defined.

End OneLineFacts.

(** ** Dates and amounts *)

Module PointFacts.
Import Regex Utils Denotation DenotationFacts DateFormatFacts DateShapeFacts.
Import DateShapes AmountShapes MonthDates Points.

Lemma pointless_app (s t : string) :
  pointless (s ++ t) = pointless s && pointless t.
Proof. apply every_app. Qed.

Lemma digit_no_point (a : ascii) :
  Js.is_digit a = true -> negb (Ascii.eqb a ".") = true.
Proof.
  destruct a as [[] [] [] [] [] [] [] []]; vm_compute; congruence.
Qed.

Lemma ws_no_point (a : ascii) :
  Js.is_ws a = true -> negb (Ascii.eqb a ".") = true.
Proof.
  destruct a as [[] [] [] [] [] [] [] []]; vm_compute; congruence.
Qed.

Lemma letter_no_point (a : ascii) :
  is_lower (Js.lower_char a) = true -> negb (Ascii.eqb a ".") = true.
Proof.
  destruct a as [[] [] [] [] [] [] [] []]; vm_compute; congruence.
Qed.

Lemma digits_pointless (s : string) : digits s -> pointless s = true.
Proof. apply every_impl, digit_no_point. Qed.

Lemma gap_pointless (s : string) : gap s -> pointless s = true.
Proof. intros [H _]; revert H; apply every_impl, ws_no_point. Qed.

Lemma name_pointless (s : string) :
  every is_lower (Js.toLowerCase s) = true -> pointless s = true.
Proof.
  unfold pointless; induction s as [|a s IH];
    cbn [Js.toLowerCase every]; [reflexivity|].
  intros H; apply andb_true_iff in H as [Ha Hs].
  rewrite (letter_no_point a Ha), (IH Hs); reflexivity.
Qed.

Lemma three_pointless (sep : ascii) (a b c : string) :
  negb (Ascii.eqb sep ".") = true ->
  digits a -> digits b -> digits c ->
  pointless (a ++ String sep (b ++ String sep c)) = true.
Proof.
  intros Hs Da Db Dc; unfold pointless.
  rewrite every_app; cbn [every]; rewrite every_app; cbn [every].
  fold (pointless a); fold (pointless b); fold (pointless c).
  rewrite (digits_pointless a Da), (digits_pointless b Db),
    (digits_pointless c Dc), Hs; reflexivity.
Qed.

Lemma date_pointless (text : string) :
  isDate text = true -> pointless (Js.trim text) = true.
Proof.
  intros H; apply isDate_cases in H as [H|H].
  - unfold Dates.recognized, normalizeDatePatterns in H.
    cbn [existsb] in H; rewrite !orb_true_iff in H.
    destruct H as [H|[H|[H|[H|H]]]]; [| | | |discriminate].
    + unfold test in H.
      destruct (exec monthNamePattern (Js.trim text)) as [res|] eqn:E;
        [|discriminate].
      apply MonthDateFacts.monthName_parse in E
        as (taken & w1 & d & c0 & w2 & y & -> & (mm & Hm) & G1 & [Dd _]
            & Hc & G2 & [Dy _] & _).
      apply MonthDateFacts.month_key in Hm as (Hm & _).
      rewrite !pointless_app, (name_pointless _ Hm), (gap_pointless w1 G1),
        (gap_pointless w2 G2), (digits_pointless d Dd),
        (digits_pointless y Dy).
      destruct Hc as [->| ->]; reflexivity.
    + change mmddyyyyPattern with (threeNumbers "/" 1 2 1 2 4 4) in H.
      apply threeNumbers_test in H
        as (a & b & c & -> & [Da _] & [Db _] & [Dc _]).
      apply three_pointless; try assumption; reflexivity.
    + change mmddyyyyDashPattern with (threeNumbers "-" 1 2 1 2 4 4) in H.
      apply threeNumbers_test in H
        as (a & b & c & -> & [Da _] & [Db _] & [Dc _]).
      apply three_pointless; try assumption; reflexivity.
    + change yyyymmddPattern with (threeNumbers "-" 4 4 1 2 1 2) in H.
      apply threeNumbers_test in H
        as (a & b & c & -> & [Da _] & [Db _] & [Dc _]).
      apply three_pointless; try assumption; reflexivity.
  - destruct H as (sep & m & d & y & Hsep & -> & [Dm _] & [Dd _] & [Dy _]).
    apply three_pointless; try assumption.
    destruct Hsep as [->| ->]; reflexivity.
Qed.

Lemma amount_point (s : string) : amount_shape s -> pointless s = false.
Proof.
  intros (pre & post & _ & body & dd & -> & _).
  rewrite !pointless_app; cbn [pointless every Ascii.eqb].
  change (negb (Ascii.eqb "." ".")) with false.
  cbn [andb]; rewrite !andb_false_r; reflexivity.
Qed.

(** [X27] No text is a date and an amount at once: an amount holds a point
    and a date holds none. *)
Theorem date_is_no_amount (text : string) :
  isDate text = true -> isAmount text = false.
Proof.
  intros Hd; apply date_pointless in Hd.
  destruct (isAmount text) eqn:Ha; [|reflexivity].
  apply AmountShapeFacts.isAmount_cases, amount_point in Ha; congruence.
Qed.

Lemma date_is_no_amount_example : isAmount "10/21/2025" = false.
Proof. apply (date_is_no_amount "10/21/2025"); reflexivity. Defined.

End PointFacts.

(** ** Is this a page of the bank? *)

Module PageCheckFacts.
Import Pages.

Lemma prefix_split (p : string) :
  forall s, String.prefix p s = true -> exists rest, s = p ++ rest.
Proof.
  induction p as [|a p IH]; intros s H; [exists s; reflexivity|].
  apply JsFacts.prefix_cons in H as (s' & -> & H).
  destruct (IH s' H) as [rest ->]; exists rest; reflexivity.
Qed.

Lemma prefix_app (p rest : string) : String.prefix p (p ++ rest) = true.
Proof.
  induction p as [|a p IH]; cbn [append String.prefix];
    [destruct rest; reflexivity|].
  destruct (ascii_dec a a); [exact IH|congruence].
Qed.

Lemma includes_inside (a b rest : string) :
  Js.includes b (a ++ b ++ rest) = true.
Proof.
  induction a as [|c a IH]; cbn [append].
  - destruct (b ++ rest) eqn:E; cbn [Js.includes];
      rewrite <- E, prefix_app; reflexivity.
  - cbn [Js.includes]; rewrite IH; apply orb_true_r.
Qed.

Lemma includes_split (sub : string) :
  forall s,
    Js.includes sub s = true -> exists pre post, s = pre ++ sub ++ post.
Proof.
  induction s as [|c s IH]; cbn [Js.includes]; intros H;
    apply orb_true_iff in H as [H|H]; try discriminate.
  - apply prefix_split in H as [rest E]; exists "", rest; exact E.
  - apply prefix_split in H as [rest E]; exists "", rest; exact E.
  - destruct (IH H) as (pre & post & ->).
    exists (String c pre), post; reflexivity.
Qed.

(** A text that includes a text includes its endings. *)
Lemma includes_ending (a b s : string) :
  Js.includes (a ++ b) s = true -> Js.includes b s = true.
Proof.
  intros H; apply includes_split in H as (pre & post & ->).
  rewrite ReaderFacts.append_assoc, <- ReaderFacts.append_assoc.
  apply includes_inside.
Qed.

(** [X28] The three checks of the address: the popup and the content script
    accept a text exactly when it includes royalbank.com or rbc.com, the
    test for rbcroyalbank.com adding nothing; the background service accepts
    only addresses the popup accepts, and refuses one the popup accepts
    exactly when that address includes neither rbcroyalbank.com nor rbc.com. *)
Theorem page_checks_compared (url : string) :
  isRBCURL (Some url)
  = Js.includes "royalbank.com" url || Js.includes "rbc.com" url
  /\ isRBCPage url
     = Js.includes "royalbank.com" url || Js.includes "rbc.com" url
  /\ (backgroundIsRBCPage (Some url) = true -> isRBCURL (Some url) = true)
  /\ (isRBCURL (Some url) = true ->
      (backgroundIsRBCPage (Some url) = false
       <-> Js.includes "rbcroyalbank.com" url = false
           /\ Js.includes "rbc.com" url = false)).
Proof.
  assert (Hend : Js.includes "rbcroyalbank.com" url = true ->
                 Js.includes "royalbank.com" url = true)
    by apply (includes_ending "rbc" "royalbank.com").
  assert (Hpage : isRBCPage url
                  = Js.includes "royalbank.com" url
                    || Js.includes "rbc.com" url).
  { unfold isRBCPage.
    destruct (Js.includes "rbcroyalbank.com" url);
      [rewrite Hend by reflexivity|]; reflexivity. }
  assert (Hempty : String.eqb url "" = true ->
                   Js.includes "royalbank.com" url
                   || Js.includes "rbc.com" url = false).
  { intros H; apply String.eqb_eq in H; subst; reflexivity. }
  assert (Hurl : isRBCURL (Some url)
                 = Js.includes "royalbank.com" url
                   || Js.includes "rbc.com" url).
  { unfold isRBCURL, missing, text.
    destruct (String.eqb url "") eqn:E;
      [symmetry; apply Hempty; reflexivity|exact Hpage]. }
  split; [exact Hurl|split; [exact Hpage|split]].
  - rewrite Hurl; unfold backgroundIsRBCPage, missing, text.
    destruct (String.eqb url ""); [discriminate|].
    intros H; apply orb_true_iff in H as [H|H];
      [rewrite (Hend H)|rewrite H, orb_true_r]; reflexivity.
  - unfold isRBCURL, backgroundIsRBCPage, missing, text.
    destruct (String.eqb url ""); [discriminate|].
    intros _; apply orb_false_iff.
Qed.

End PageCheckFacts.
